(** * Voice recorder bot: audio container, per-speaker recorder, voice manager

    A shallow embedding of the recording core of the bot:
    - [Api]: [createWavBuffer] and the synchronous part of
      [sendAudioToBackend] (utils/api.js);
    - [Recorder]: the [AudioRecorder] class (voice/audioRecorder.js)
      together with the event loop that drives it (timers, stream events);
    - [Manager]: [joinVoiceChannel] / [leaveVoiceChannel]
      (voice/voiceManager.js) over a small model of the voice library's
      connection objects;
    - [Format], [Session]: further notions about the container and about a
      recorder's states and traces;
    - [Bot]: the manager over time, with joins that wait, connections that
      change state and recorders that run;
    - [Commands]: the join and leave commands (commands/join.js,
      commands/leave.js).

    Definitions come first, the lemmas and theorems follow. *)

From Stdlib Require Import ZArith List Lia String Ascii.
From Stdlib Require PrimFloat FloatOps SpecFloat Uint63.
From stdpp Require Import base list gmap strings.

(* ===================================================================== *)
(** ** Buffers and the WAV container (utils/api.js)                       *)
(* ===================================================================== *)

Module Api.

(** A Node [Buffer]: a sequence of octets, each an integer in [0, 255]. *)
Abbreviation Buffer := (list Z) (only parsing).

(** Writes raise [ERR_OUT_OF_RANGE] when the value does not fit the field
    or the field does not fit the buffer. *)
Inductive result (A : Type) : Type :=
| Ok (a : A)
| RangeError.
Arguments Ok {A} a.
Arguments RangeError {A}.

#[export] Instance result_bind : MBind result := fun A B k r =>
  match r with
  | Ok a => k a
  | RangeError => RangeError
  end.

(** [Buffer.alloc(size)]: a zero-filled buffer. *)
Definition Buffer_alloc (size : nat) : Buffer := replicate size 0%Z.

(** Overwrite [dst] from index [off] on with the octets of [src]; what does
    not fit is dropped and the length of [dst] never changes.  This is the
    common core of [buf.write(string, offset)], of [src.copy(dst, start)]
    and of the integer writers. *)
Fixpoint blit (src : Buffer) (off : nat) (dst : Buffer) : Buffer :=
  match dst with
  | [] => []
  | d :: dst' =>
      match off with
      | S off' => d :: blit src off' dst'
      | O =>
          match src with
          | [] => dst
          | s :: src' => s :: blit src' 0 dst'
          end
      end
  end.

(** The octets of an ASCII string. *)
Definition string_bytes (s : string) : Buffer :=
  map (fun a => Z.of_N (N_of_ascii a)) (list_ascii_of_string s).

(** [buf.write(s, offset)] *)
Definition write (s : string) (offset : nat) (buf : Buffer) : Buffer :=
  blit (string_bytes s) offset buf.

(** [src.copy(target, targetStart)] *)
Definition copy (src target : Buffer) (targetStart : nat) : Buffer :=
  blit src targetStart target.

(** The [width] low octets of [value], least significant first. *)
Fixpoint le_bytes (width : nat) (value : Z) : Buffer :=
  match width with
  | O => []
  | S w => (value mod 256)%Z :: le_bytes w (value / 256)%Z
  end.

(** [buf.writeUIntLE(value, offset, width)]: range check on the value,
    bounds check on the offset, then the little-endian octets. *)
Definition writeUIntLE (width : nat) (value : Z) (offset : nat) (buf : Buffer)
  : result Buffer :=
  if ((0 <=? value)%Z && (value <=? 2 ^ (8 * Z.of_nat width) - 1)%Z
      && (offset + width <=? length buf)%nat)%bool
  then Ok (blit (le_bytes width value) offset buf)
  else RangeError.

Definition writeUInt32LE (value : Z) (offset : nat) (buf : Buffer) :=
  writeUIntLE 4 value offset buf.

Definition writeUInt16LE (value : Z) (offset : nat) (buf : Buffer) :=
  writeUIntLE 2 value offset buf.

(** The value of a little-endian octet sequence. *)
Fixpoint le_value (bs : Buffer) : Z :=
  match bs with
  | [] => 0%Z
  | b :: bs' => (b + 256 * le_value bs')%Z
  end.

(** [buf.readUIntLE(offset, width)], the reader a consumer of the container
    applies to the header; [None] when the field is out of bounds. *)
Definition readUIntLE (width : nat) (offset : nat) (buf : Buffer) : option Z :=
  let bs := take width (drop offset buf) in
  if (length bs =? width)%nat then Some (le_value bs) else None.

Definition readUInt32LE (offset : nat) (buf : Buffer) := readUIntLE 4 offset buf.
Definition readUInt16LE (offset : nat) (buf : Buffer) := readUIntLE 2 offset buf.

(** The four-octet tag at [offset]. *)
Definition tag_at (offset : nat) (buf : Buffer) : Buffer :=
  take 4 (drop offset buf).

(** [createWavBuffer(pcmBuffer, sampleRate, channels)] *)
Definition createWavBuffer (pcmBuffer : Buffer) (sampleRate channels : Z)
  : result Buffer :=
  let bitsPerSample := 16%Z in
  let byteRate := (sampleRate * channels * (bitsPerSample / 8))%Z in
  let blockAlign := (channels * (bitsPerSample / 8))%Z in
  let dataSize := length pcmBuffer in
  let headerSize := 44 in
  let wavBuffer := Buffer_alloc (headerSize + dataSize) in
  (* RIFF header *)
  let wavBuffer := write "RIFF" 0 wavBuffer in
  wavBuffer ← writeUInt32LE (36 + Z.of_nat dataSize) 4 wavBuffer;
  let wavBuffer := write "WAVE" 8 wavBuffer in
  (* fmt sub-chunk *)
  let wavBuffer := write "fmt " 12 wavBuffer in
  wavBuffer ← writeUInt32LE 16 16 wavBuffer;
  wavBuffer ← writeUInt16LE 1 20 wavBuffer;
  wavBuffer ← writeUInt16LE channels 22 wavBuffer;
  wavBuffer ← writeUInt32LE sampleRate 24 wavBuffer;
  wavBuffer ← writeUInt32LE byteRate 28 wavBuffer;
  wavBuffer ← writeUInt16LE blockAlign 32 wavBuffer;
  wavBuffer ← writeUInt16LE bitsPerSample 34 wavBuffer;
  (* data sub-chunk *)
  let wavBuffer := write "data" 36 wavBuffer in
  wavBuffer ← writeUInt32LE (Z.of_nat dataSize) 40 wavBuffer;
  (* Copy PCM data *)
  Ok (copy pcmBuffer wavBuffer headerSize).

(** What a reader of the container finds for a payload [pcm] declared at
    rate [R] with [C] channels: the total length, every header field, and
    the payload after the 44 header octets. *)
Definition wav_container (pcm : Buffer) (R C : Z) (wav : Buffer) : Prop :=
  length wav = 44 + length pcm
  /\ tag_at 0 wav = string_bytes "RIFF"
  /\ readUInt32LE 4 wav = Some (36 + Z.of_nat (length pcm))%Z
  /\ tag_at 8 wav = string_bytes "WAVE"
  /\ tag_at 12 wav = string_bytes "fmt "
  /\ readUInt32LE 16 wav = Some 16%Z
  /\ readUInt16LE 20 wav = Some 1%Z
  /\ readUInt16LE 22 wav = Some C
  /\ readUInt32LE 24 wav = Some R
  /\ readUInt32LE 28 wav = Some (R * C * 2)%Z
  /\ readUInt16LE 32 wav = Some (C * 2)%Z
  /\ readUInt16LE 34 wav = Some 16%Z
  /\ tag_at 36 wav = string_bytes "data"
  /\ readUInt32LE 40 wav = Some (Z.of_nat (length pcm))
  /\ drop 44 wav = pcm.

(** The 44 header octets [createWavBuffer] is meant to produce. *)
Definition wav_header (R C : Z) (dataSize : nat) : Buffer :=
  string_bytes "RIFF" ++ le_bytes 4 (36 + Z.of_nat dataSize)
  ++ string_bytes "WAVE"
  ++ string_bytes "fmt " ++ le_bytes 4 16 ++ le_bytes 2 1 ++ le_bytes 2 C
  ++ le_bytes 4 R ++ le_bytes 4 (R * C * 2) ++ le_bytes 2 (C * 2)
  ++ le_bytes 2 16
  ++ string_bytes "data" ++ le_bytes 4 (Z.of_nat dataSize).

(** The encoder's contract as the specification words it, for a payload of
    [N] 16-bit samples. *)
Definition encodes (N : nat) (pcm : Buffer) (R C : Z) : Prop :=
  length pcm = 2 * N ->
  exists wav, createWavBuffer pcm R C = Ok wav /\ wav_container pcm R C wav.

(** A JavaScript number is an IEEE 754 double. *)
Abbreviation Number := PrimFloat.float (only parsing).

(** The number of a non-negative integer below [2^63]: the nearest double,
    the integer itself below [2^53]. *)
Definition Number_of_Z (z : Z) : Number := PrimFloat.of_uint63 (Uint63.of_Z z).

(** The argument object of [sendAudioToBackend]. *)
Record SendArgs := mkSendArgs {
  sa_userId : string;
  sa_guildId : string;
  sa_pcmBuffer : Buffer;
  sa_sampleRate : Z;
  sa_channels : Z;
  sa_durationMs : Number;
}.

(** The multipart form posted to the backend. *)
Record Form := mkForm {
  form_audio : Buffer;               (* field [audio], the WAV file *)
  form_filename : string * Z;        (* [`${userId}-${Date.now()}.wav`] *)
  form_userId : string;
  form_guildId : string;
  form_durationMs : option Z;        (* [String(Math.round(durationMs))] *)
  form_sampleRate : Z;
  form_channels : Z;
  form_timestamp : Z;                (* [new Date().toISOString()] *)
}.

(** [Math.round]: the nearest integer, halves towards plus infinity, computed
    exactly from sign, mantissa and exponent of the double; [None] for
    [NaN] and the infinities, which [Math.round] returns as they are. *)
Definition Math_round (x : Number) : option Z :=
  match FloatOps.Prim2SF x with
  | SpecFloat.S754_zero _ => Some 0%Z
  | SpecFloat.S754_finite s m e =>
      let n := if s then Z.neg m else Z.pos m in
      Some (if (0 <=? e)%Z then (n * 2 ^ e)%Z
            else ((2 * n + 2 ^ (- e)) / 2 ^ (1 - e))%Z)
  | _ => None
  end.

(** [sendAudioToBackend(args)] up to its first suspension: the PCM data is
    wrapped in a WAV container, the form is built and [axios.post] is issued
    with it.  The result is the form posted, or [RangeError] when the
    encoder raised and the returned promise is rejected without a request.
    The response (a log line when it arrives, a rejection when the request
    fails) is delivered later by the event loop. *)
Definition sendAudioToBackend (args : SendArgs) (now : Z) : result Form :=
  wavBuffer ← createWavBuffer (sa_pcmBuffer args) (sa_sampleRate args)
                              (sa_channels args);
  Ok {| form_audio := wavBuffer;
        form_filename := (sa_userId args, now);
        form_userId := sa_userId args;
        form_guildId := sa_guildId args;
        form_durationMs := Math_round (sa_durationMs args);
        form_sampleRate := sa_sampleRate args;
        form_channels := sa_channels args;
        form_timestamp := now |}.

End Api.


(* ===================================================================== *)
(** ** The per-guild recorder (voice/audioRecorder.js)                    *)
(* ===================================================================== *)

Module Recorder.
Import Api.

(** Discord identifiers are strings; timer handles and references to
    [userState] objects are numbered in order of creation. *)
Abbreviation UserId := string (only parsing).
Abbreviation GuildId := string (only parsing).
Abbreviation TimerId := nat (only parsing).
Abbreviation Ref := nat (only parsing).

(** [parseInt(process.env.SILENCE_DURATION_MS, 10) || 1000]: [env] is what
    [parseInt] returned, [None] standing for [NaN]; [NaN] and [0] are falsy. *)
Definition parse_SILENCE_DURATION_MS (env : option Z) : Z :=
  match env with
  | Some n => if (n =? 0)%Z then 1000%Z else n
  | None => 1000%Z
  end.

Definition SAMPLE_RATE : Z := 48000.
Definition CHANNELS : Z := 2.
Definition FRAME_DURATION : Z := 20.

(** A stream object owned by a speaker's state; [destroy()] marks it. *)
Record Stream := mkStream { stream_destroyed : bool }.

(** The [userState] object literal of [handleUserSpeaking], with the two
    stream fields assigned right after it ([None] is [undefined]). *)
Record UserState := mkUserState {
  userId : UserId;
  audioChunks : list Buffer;
  isSpeaking : bool;
  silenceTimer : option TimerId;
  subscription : option Stream;
  opusStream : option Stream;
  decoder : option Stream;
}.

Definition set_audioChunks (c : list Buffer) (s : UserState) : UserState :=
  mkUserState (userId s) c (isSpeaking s) (silenceTimer s) (subscription s)
              (opusStream s) (decoder s).
Definition set_isSpeaking (b : bool) (s : UserState) : UserState :=
  mkUserState (userId s) (audioChunks s) b (silenceTimer s) (subscription s)
              (opusStream s) (decoder s).
Definition set_silenceTimer (t : option TimerId) (s : UserState) : UserState :=
  mkUserState (userId s) (audioChunks s) (isSpeaking s) t (subscription s)
              (opusStream s) (decoder s).
Definition set_opusStream (o : option Stream) (s : UserState) : UserState :=
  mkUserState (userId s) (audioChunks s) (isSpeaking s) (silenceTimer s)
              (subscription s) o (decoder s).
Definition set_decoder (d : option Stream) (s : UserState) : UserState :=
  mkUserState (userId s) (audioChunks s) (isSpeaking s) (silenceTimer s)
              (subscription s) (opusStream s) d.

(** A pending timeout.  The only callback the recorder ever schedules is the
    silence callback of [_resetSilenceTimer]; a timer therefore carries what
    that closure captures: the [userState] object and the [userId]. *)
Record Timer := mkTimer {
  timer_id : TimerId;
  deadline : Z;
  timer_ref : Ref;
  timer_user : UserId;
}.

(** What the recorder does to the outside, in order.  [Received] and
    [Flushed] are trace marks (a chunk was buffered; a buffer was drained, at
    which time and with which contents); the others are calls or log lines
    of the source. *)
Inductive Event :=
| Subscribe (u : UserId)                       (* [receiver.subscribe] *)
| Received (u : UserId) (chunk : Buffer)
| Flushed (u : UserId) (time : Z) (pcmBuffer : Buffer)
| Skipped (u : UserId) (bytes : nat)           (* "Skipping short audio" *)
| SendAudio (args : SendArgs)                  (* [sendAudioToBackend(..)] *)
| Post (form : Form)                           (* [axios.post] issued *)
| Sent (u : UserId)                            (* "[API] Sent audio" *)
| SendFailed (u : UserId)                      (* "Failed to send audio" *)
| StreamClosed (u : UserId)                    (* "Opus stream closed" *)
| StreamError (u : UserId)                     (* decoder / opus error line *)
| CleanedUp (u : UserId).                      (* "Cleaned up user" *)

(** One [AudioRecorder] object together with everything its closures can
    reach: the [userState] objects and the runtime's clock and timers. *)
Record World := mkWorld {
  (* the fields of the AudioRecorder *)
  connection : nat;
  guildId : GuildId;
  users : list (UserId * Ref);       (* [this.users], in insertion order *)
  destroyed : bool;
  (* the userState objects, by reference *)
  heap : list UserState;
  (* module constant and runtime *)
  SILENCE_DURATION_MS : Z;
  now : Z;
  timers : list Timer;               (* pending, in creation order *)
  next_timer : TimerId;
  log : list Event;
}.

Definition set_users (x : list (UserId * Ref)) (w : World) : World :=
  mkWorld (connection w) (guildId w) x (destroyed w) (heap w)
          (SILENCE_DURATION_MS w) (now w) (timers w) (next_timer w) (log w).
Definition set_destroyed (x : bool) (w : World) : World :=
  mkWorld (connection w) (guildId w) (users w) x (heap w)
          (SILENCE_DURATION_MS w) (now w) (timers w) (next_timer w) (log w).
Definition set_heap (x : list UserState) (w : World) : World :=
  mkWorld (connection w) (guildId w) (users w) (destroyed w) x
          (SILENCE_DURATION_MS w) (now w) (timers w) (next_timer w) (log w).
Definition set_now (x : Z) (w : World) : World :=
  mkWorld (connection w) (guildId w) (users w) (destroyed w) (heap w)
          (SILENCE_DURATION_MS w) x (timers w) (next_timer w) (log w).
Definition set_timers (x : list Timer) (w : World) : World :=
  mkWorld (connection w) (guildId w) (users w) (destroyed w) (heap w)
          (SILENCE_DURATION_MS w) (now w) x (next_timer w) (log w).
Definition set_next_timer (x : TimerId) (w : World) : World :=
  mkWorld (connection w) (guildId w) (users w) (destroyed w) (heap w)
          (SILENCE_DURATION_MS w) (now w) (timers w) x (log w).
Definition add_log (e : Event) (w : World) : World :=
  mkWorld (connection w) (guildId w) (users w) (destroyed w) (heap w)
          (SILENCE_DURATION_MS w) (now w) (timers w) (next_timer w)
          (log w ++ [e]).

(** Mutate the object behind a reference. *)
Definition update (ref : Ref) (f : UserState -> UserState) (w : World) : World :=
  set_heap (alter f ref (heap w)) w.

(** [new AudioRecorder(connection, guildId)], in a runtime whose clock reads
    [t0] and whose environment gave [env] for the quiet period. *)
Definition new_AudioRecorder (env : option Z) (t0 : Z) (conn : nat)
  (guild : GuildId) : World :=
  {| connection := conn; guildId := guild; users := []; destroyed := false;
     heap := []; SILENCE_DURATION_MS := parse_SILENCE_DURATION_MS env;
     now := t0; timers := []; next_timer := 0; log := [] |}.

(** [this.users.get(userId)] *)
Fixpoint users_get (u : UserId) (m : list (UserId * Ref)) : option Ref :=
  match m with
  | [] => None
  | (u', r) :: m' => if decide (u = u') then Some r else users_get u m'
  end.

(** [clearTimeout(id)]: the timer is no longer pending; clearing a handle
    that already fired or was cleared does nothing. *)
Definition clearTimeout (id : TimerId) (w : World) : World :=
  set_timers (filter (fun t => timer_id t <> id) (timers w)) w.

(** The runtime treats a delay below 1 ms or above [2^31 - 1] ms as 1 ms. *)
Definition timeout_delay (ms : Z) : Z :=
  if ((ms <? 1)%Z || (2147483647 <? ms)%Z)%bool then 1%Z else ms.

(** [setTimeout(callback, ms)] for the silence callback capturing [ref] and
    [u]; returns the fresh handle. *)
Definition setTimeout (ref : Ref) (u : UserId) (ms : Z) (w : World)
  : TimerId * World :=
  let id := next_timer w in
  let t := {| timer_id := id; deadline := (now w + timeout_delay ms)%Z;
              timer_ref := ref; timer_user := u |} in
  (id, set_next_timer (S id) (set_timers (timers w ++ [t]) w)).

(** [_resetSilenceTimer(userId)] *)
Definition _resetSilenceTimer (userId : UserId) (w : World) : World :=
  match users_get userId (users w) with
  | None => w
  | Some ref =>
      match heap w !! ref with
      | None => w   (* the map only ever holds allocated objects *)
      | Some userState =>
          let w := match silenceTimer userState with
                   | Some t => clearTimeout t w
                   | None => w
                   end in
          let '(t, w) := setTimeout ref userId (SILENCE_DURATION_MS w) w in
          update ref (set_silenceTimer (Some t)) w
      end
  end.

(** [(SAMPLE_RATE * CHANNELS * 2 * 100) / 1000] *)
Definition minBytes : Z := (SAMPLE_RATE * CHANNELS * 2 * 100) / 1000.

(** [(pcmBuffer.length / (SAMPLE_RATE * CHANNELS * 2)) * 1000], in double
    precision as the source computes it. *)
Definition durationMs_of (bytes : nat) : Number :=
  PrimFloat.mul
    (PrimFloat.div (Number_of_Z (Z.of_nat bytes))
                   (Number_of_Z (SAMPLE_RATE * CHANNELS * 2)))
    (Number_of_Z 1000).

(** [_flushAndSend(userId)] up to its suspension at
    [await sendAudioToBackend(..)]. *)
Definition _flushAndSend (userId : UserId) (w : World) : World :=
  match users_get userId (users w) with
  | None => w
  | Some ref =>
      match heap w !! ref with
      | None => w   (* the map only ever holds allocated objects *)
      | Some userState =>
          match audioChunks userState with
          | [] => w
          | _ :: _ =>
              (* Grab the buffered audio and reset *)
              let chunks := audioChunks userState in
              let w := update ref (set_audioChunks []) w in
              (* Concatenate all PCM chunks into one buffer *)
              let pcmBuffer : Buffer := concat chunks in
              let w := add_log (Flushed userId (now w) pcmBuffer) w in
              if (Z.of_nat (length pcmBuffer) <? minBytes)%Z then
                add_log (Skipped userId (length pcmBuffer)) w
              else
                let durationMs := durationMs_of (length pcmBuffer) in
                let args := {| sa_userId := userId;
                               sa_guildId := guildId w;
                               sa_pcmBuffer := pcmBuffer;
                               sa_sampleRate := SAMPLE_RATE;
                               sa_channels := CHANNELS;
                               sa_durationMs := durationMs |} in
                let w := add_log (SendAudio args) w in
                match sendAudioToBackend args (now w) with
                | Ok form => add_log (Post form) w
                | RangeError => w
                end
          end
      end
  end.

(** The continuation of [_flushAndSend] after the upload settled: nothing on
    success, the [catch] branch's log line on rejection.  The success line
    is the one [sendAudioToBackend] prints. *)
Definition upload_settled (userId : UserId) (ok : bool) (w : World) : World :=
  if ok then add_log (Sent userId) w else add_log (SendFailed userId) w.

(** The decoder's ["data"] handler registered by [handleUserSpeaking] for the
    object [ref] of user [userId]. *)
Definition on_data (ref : Ref) (userId : UserId) (pcmChunk : Buffer)
  (w : World) : World :=
  if destroyed w then w
  else
    let w := update ref (fun s => set_audioChunks (audioChunks s ++ [pcmChunk]) s) w in
    let w := add_log (Received userId pcmChunk) w in
    let w := update ref (set_isSpeaking true) w in
    _resetSilenceTimer userId w.

(** The opus stream's ["close"] handler. *)
Definition on_close (userId : UserId) (w : World) : World :=
  _flushAndSend userId (add_log (StreamClosed userId) w).

(** The ["error"] handlers of the decoder and of the opus stream. *)
Definition on_error (userId : UserId) (w : World) : World :=
  add_log (StreamError userId) w.

(** The silence callback installed by [_resetSilenceTimer]. *)
Definition on_silence (ref : Ref) (userId : UserId) (w : World) : World :=
  _flushAndSend userId (update ref (set_isSpeaking false) w).

(** [handleUserSpeaking(userId, receiver)] *)
Definition handleUserSpeaking (userId : UserId) (w : World) : World :=
  if destroyed w then w
  else
    match users_get userId (users w) with
    | Some ref =>
        let w := update ref (set_isSpeaking true) w in
        _resetSilenceTimer userId w
    | None =>
        let userState := {| userId := userId; audioChunks := [];
                            isSpeaking := true; silenceTimer := None;
                            subscription := None;
                            opusStream := None; decoder := None |} in
        (* Subscribe to the user's audio stream *)
        let w := add_log (Subscribe userId) w in
        let userState := set_opusStream (Some (mkStream false)) userState in
        let userState := set_decoder (Some (mkStream false)) userState in
        (* the object comes into existence, with its handlers *)
        let ref := length (heap w) in
        let w := set_heap (heap w ++ [userState]) w in
        let w := set_users (users w ++ [(userId, ref)]) w in
        _resetSilenceTimer userId w
    end.

(** [stream?.destroy()] *)
Definition Stream_destroy (s : option Stream) : option Stream :=
  match s with
  | Some _ => Some (mkStream true)
  | None => None
  end.

(** One iteration of the loop of [destroy], for the entry [(userId, ref)]. *)
Definition destroy_user (w : World) (entry : UserId * Ref) : World :=
  let '(userId, ref) := entry in
  match heap w !! ref with
  | None => w   (* the map only ever holds allocated objects *)
  | Some userState =>
      let w := match silenceTimer userState with
               | Some t => clearTimeout t w
               | None => w
               end in
      (* Flush remaining audio *)
      let w := _flushAndSend userId w in
      (* Clean up streams *)
      let w := update ref (fun s => set_decoder (Stream_destroy (decoder s)) s) w in
      let w := update ref (fun s => set_opusStream (Stream_destroy (opusStream s)) s) w in
      add_log (CleanedUp userId) w
  end.

(** [destroy()] *)
Definition destroy (w : World) : World :=
  let w := set_destroyed true w in
  let w := fold_left destroy_user (users w) w in
  set_users [] w.

(** *** The event loop *)

(** The pending timer that fires next: the earliest deadline, the older
    timer first among equals. *)
Fixpoint earliest (ts : list Timer) : option Timer :=
  match ts with
  | [] => None
  | t :: ts' =>
      match earliest ts' with
      | Some t' => if (deadline t' <? deadline t)%Z then Some t' else Some t
      | None => Some t
      end
  end.

(** A timer fires: the clock has reached its deadline, it is no longer
    pending, and its callback runs. *)
Definition fire (t : Timer) (w : World) : World :=
  let w := set_now (Z.max (now w) (deadline t)) w in
  let w := set_timers (filter (fun t' => timer_id t' <> timer_id t) (timers w)) w in
  on_silence (timer_ref t) (timer_user t) w.

(** What the runtime and the voice library can deliver to one recorder. *)
Inductive Input :=
| SpeakingStart (u : UserId)             (* [receiver.speaking] "start" *)
| DecoderData (ref : Ref) (chunk : Buffer)
| StreamFault (ref : Ref)
| OpusClose (ref : Ref)
| TimerFires                             (* the next pending timer fires *)
| TimePasses (t : Z)                     (* the clock reaches [t] *)
| UploadSettled (u : UserId) (ok : bool)
| Destroy.

(** No pending timer is overdue at [t]. *)
Definition none_overdue (t : Z) (ts : list Timer) : bool :=
  forallb (fun tm => (t <=? deadline tm)%Z) ts.

(** The voice library destroys the opus stream of the object [ref]. *)
Definition opus_destroyed (ref : Ref) (w : World) : World :=
  update ref (fun s => set_opusStream (Stream_destroy (opusStream s)) s) w.

(** A stream that exists and has not been destroyed. *)
Definition stream_live (s : option Stream) : bool :=
  match s with
  | Some st => negb (stream_destroyed st)
  | None => false
  end.

(** Stream handlers exist for the objects allocated by
    [handleUserSpeaking] and only for them; the clock never runs backwards
    nor past the deadline of a timer that is still pending.  A stream that
    was destroyed delivers no more data.  A stream emits ["close"] once it
    is destroyed: where the recorder's [destroy()] has not done so, the
    voice library has when the handler runs.  An ["error"] runs the handler
    of the stream that failed; when the library then destroys the stream,
    its ["close"] is a separate input. *)
Definition step (w : World) (i : Input) : World :=
  match i with
  | SpeakingStart u => handleUserSpeaking u w
  | DecoderData ref chunk =>
      match heap w !! ref with
      | Some s =>
          if (stream_live (opusStream s) && stream_live (decoder s))%bool
          then on_data ref (userId s) chunk w
          else w
      | None => w
      end
  | StreamFault ref =>
      match heap w !! ref with
      | Some s => on_error (userId s) w
      | None => w
      end
  | OpusClose ref =>
      match heap w !! ref with
      | Some s =>
          on_close (userId s) (opus_destroyed ref w)
      | None => w
      end
  | TimerFires =>
      match earliest (timers w) with
      | Some t => fire t w
      | None => w
      end
  | TimePasses t =>
      if ((now w <=? t)%Z && none_overdue t (timers w))%bool
      then set_now t w else w
  | UploadSettled u ok => upload_settled u ok w
  | Destroy => destroy w
  end.

Definition run (w : World) (inputs : list Input) : World :=
  fold_left step inputs w.

(** The states a recorder can be in. *)
Definition reachable (w : World) : Prop :=
  exists env t0 conn guild inputs,
    w = run (new_AudioRecorder env t0 conn guild) inputs.

(** Let the clock run to [t]: every timer due by then fires, in order. *)
Fixpoint run_timers (fuel : nat) (t : Z) (w : World) : World :=
  match fuel with
  | O => w
  | S fuel' =>
      match earliest (timers w) with
      | Some tm =>
          if (deadline tm <=? t)%Z then run_timers fuel' t (fire tm w) else w
      | None => w
      end
  end.

Definition advance_to (t : Z) (w : World) : World :=
  let w := run_timers (length (timers w)) t w in
  set_now (Z.max (now w) t) w.

(** A chunk of speaker [ref] arrives at time [t]. *)
Definition deliver (ref : Ref) (u : UserId) (w : World) (arrival : Z * Buffer)
  : World :=
  on_data ref u (snd arrival) (advance_to (fst arrival) w).

(** *** Observations *)

(** The pending timers whose callback is for speaker [u]. *)
Definition timers_of (u : UserId) (w : World) : list Timer :=
  filter (fun t => timer_user t = u) (timers w).

(** The flushes of speaker [u] in a trace: time and drained buffer. *)
Fixpoint flushes_of (u : UserId) (l : list Event) : list (Z * Buffer) :=
  match l with
  | [] => []
  | Flushed u' t b :: l' =>
      if decide (u' = u) then (t, b) :: flushes_of u l' else flushes_of u l'
  | _ :: l' => flushes_of u l'
  end.

(** The chunks of speaker [u] the recorder buffered, in arrival order. *)
Fixpoint received_of (u : UserId) (l : list Event) : list Buffer :=
  match l with
  | [] => []
  | Received u' c :: l' =>
      if decide (u' = u) then c :: received_of u l' else received_of u l'
  | _ :: l' => received_of u l'
  end.

(** The calls of [sendAudioToBackend] for speaker [u] in a trace. *)
Fixpoint uploads_of (u : UserId) (l : list Event) : list SendArgs :=
  match l with
  | [] => []
  | SendAudio a :: l' =>
      if decide (sa_userId a = u) then a :: uploads_of u l' else uploads_of u l'
  | _ :: l' => uploads_of u l'
  end.

(** The number of stream subscriptions taken for speaker [u]. *)
Fixpoint subscriptions_of (u : UserId) (l : list Event) : nat :=
  match l with
  | [] => 0
  | Subscribe u' :: l' =>
      if decide (u' = u) then S (subscriptions_of u l') else subscriptions_of u l'
  | _ :: l' => subscriptions_of u l'
  end.

(** The speaker an event is about. *)
Definition event_user (e : Event) : UserId :=
  match e with
  | Subscribe u | Received u _ | Flushed u _ _ | Skipped u _ | Sent u
  | SendFailed u | StreamClosed u | StreamError u | CleanedUp u => u
  | SendAudio a => sa_userId a
  | Post f => form_userId f
  end.

Definition is_Subscribe (e : Event) : Prop :=
  match e with Subscribe _ => True | _ => False end.

(** [w'] extends the trace of [w] by events that all satisfy [P]. *)
Definition emits (P : Event -> Prop) (w w' : World) : Prop :=
  exists l, log w' = log w ++ l /\ Forall P l.

(** Events about [u] other than a subscription. *)
Definition chatter (u : UserId) (e : Event) : Prop :=
  event_user e = u /\ ~ is_Subscribe e.

(** The user identifiers of the allocated objects. *)
Definition objects (w : World) : list UserId := userId <$> heap w.

(** One subscription was taken per allocated object. *)
Definition subscriptions_match (w : World) : Prop :=
  forall u, subscriptions_of u (log w)
            = length (filter (fun u' => u' = u) (objects w)).

(** The time of the last of the arrivals, [t] when there is none. *)
Definition last_time (t : Z) (arrivals : list (Z * list Z)) : Z :=
  fold_left (fun _ a => fst a) arrivals t.

(** Arrival times are in order from [t] on with every gap below [q]. *)
Fixpoint gaps_below (q : Z) (t : Z) (arrivals : list (Z * Buffer)) : Prop :=
  match arrivals with
  | [] => True
  | (t', _) :: rest => (t <= t' < t + q)%Z /\ gaps_below q t' rest
  end.

(** Coalescing as the specification words it, for the chunks
    [first :: rest] of the speaker [u] with state object [ref], arriving at
    a recorder in the state [w]: when every gap between consecutive chunks
    is shorter than the configured quiet period, exactly one flush occurs,
    one quiet period after the last chunk, and the flushed buffer is the
    concatenation of the chunks in arrival order. *)
Definition coalesces (w : World) (ref : Ref) (u : UserId)
  (first : Z * Buffer) (rest : list (Z * Buffer)) : Prop :=
  let q := SILENCE_DURATION_MS w in
  gaps_below q (fst first) rest ->
  forall T, (last_time (fst first) rest + q <= T)%Z ->
    flushes_of u (log (advance_to T (fold_left (deliver ref u) (first :: rest) w)))
    = flushes_of u (log w)
      ++ [((last_time (fst first) rest + q)%Z,
           concat (snd first :: (snd <$> rest)))].

(** The audio of speaker [u] that is buffered and not yet flushed. *)
Fixpoint pending (u : UserId) (h : list UserState) : list Z :=
  match h with
  | [] => []
  | s :: h' =>
      (if decide (userId s = u) then concat (audioChunks s) else [])
      ++ pending u h'
  end.

(** Every byte the recorder buffered for a speaker is in exactly one place:
    in one of the flushed buffers, in the order of flushing, or still in the
    speaker's buffer. *)
Definition accounted (w : World) : Prop :=
  forall u, concat (received_of u (log w))
            = concat (flushes_of u (log w)).*2 ++ pending u (heap w).

(** The calls of [sendAudioToBackend] are, in order, the flushed buffers at
    or above the floor: one call for each, none for the others. *)
Definition uploads_match (w : World) : Prop :=
  forall u, sa_pcmBuffer <$> uploads_of u (log w)
            = filter (fun b => (minBytes <= Z.of_nat (length b))%Z)
                     (flushes_of u (log w)).*2.

(** The registry refers to allocated objects of the right speaker, and no
    two objects are of the same speaker. *)
Definition registry_ok (w : World) : Prop :=
  NoDup (objects w)
  /\ forall u r, users_get u (users w) = Some r ->
                 exists s, heap w !! r = Some s /\ userId s = u.

(** The timer a reset for [u] installs in state [w]. *)
Definition silence_timer (u : UserId) (r : Ref) (w : World) : Timer :=
  {| timer_id := next_timer w;
     deadline := (now w + timeout_delay (SILENCE_DURATION_MS w))%Z;
     timer_ref := r; timer_user := u |}.

(** The timers left pending and installed by a reset for [u]. *)
Definition reset_timers (u : UserId) (r : Ref) (w : World) : list Timer :=
  filter (fun t => timer_user t <> u) (timers w) ++ [silence_timer u r w].

(** *** Well-formed states *)

(** What the registry and the timers depend on in an object: whose it is
    and which timer handle it stores. *)
Definition skel (h : list UserState) : list (UserId * option TimerId) :=
  (fun s => (userId s, silenceTimer s)) <$> h.

(** The registry holds exactly the allocated objects (none once destroyed),
    one per speaker; every pending timer is the one handle stored in the
    object of its speaker; stored handles are distinct and older than the
    next handle; no pending timer is overdue. *)
Record wf (w : World) : Prop := mk_wf {
  wf_keys : NoDup (users w).*1;
  wf_entry : forall u r, (u, r) ∈ users w ->
             exists st, skel (heap w) !! r = Some (u, st);
  wf_live : destroyed w = false ->
            forall r u st, skel (heap w) !! r = Some (u, st) -> (u, r) ∈ users w;
  wf_objects : NoDup (skel (heap w)).*1;
  wf_dead : destroyed w = true -> users w = [] /\ timers w = [];
  wf_timer_ids : NoDup (timer_id <$> timers w);
  wf_owner : forall t, t ∈ timers w ->
             skel (heap w) !! timer_ref t = Some (timer_user t, Some (timer_id t));
  wf_fresh : forall r u id, skel (heap w) !! r = Some (u, Some id) ->
             id < next_timer w;
  wf_handles : forall r r' u u' id,
             skel (heap w) !! r = Some (u, Some id) ->
             skel (heap w) !! r' = Some (u', Some id) -> r = r';
  wf_time : forall t, t ∈ timers w -> (now w <= deadline t)%Z;
}.

(** The part of a state [wf] speaks about. *)
Definition shape (w : World) :=
  (users w, destroyed w, skel (heap w), timers w, next_timer w, now w).

(** The session of [u], whose state object is [r], has been destroyed: its
    registry entry is removed, no timer is pending for it, its buffer is
    empty and both its streams are destroyed. *)
Definition session_destroyed (u : UserId) (r : Ref) (w : World) : Prop :=
  users_get u (users w) = None
  /\ timers_of u w = []
  /\ exists s, heap w !! r = Some s /\ audioChunks s = []
       /\ opusStream s = Some (mkStream true)
       /\ decoder s = Some (mkStream true).

(** What [destroy] leaves of a state object. *)
Definition torn_down (s : UserState) : UserState :=
  set_opusStream (Stream_destroy (opusStream s))
    (set_decoder (Stream_destroy (decoder s)) (set_audioChunks [] s)).

(** *** Example states *)

(** A recorder that just subscribed to "alice". *)
Definition demo_subscribed : World :=
  handleUserSpeaking "alice" (new_AudioRecorder None 0 0 "guild").

(** The state object of "alice" in [demo_subscribed]. *)
Definition demo_idle_state : UserState :=
  {| userId := "alice"; audioChunks := []; isSpeaking := true;
     silenceTimer := Some 0; subscription := None;
     opusStream := Some (mkStream false); decoder := Some (mkStream false) |}.

(** The same after one four-byte chunk arrived. *)
Definition demo_buffered : World :=
  on_data 0 "alice" [1; 2; 3; 4]%Z demo_subscribed.

(** The state object of "alice" in [demo_buffered]. *)
Definition demo_state : UserState :=
  {| userId := "alice"; audioChunks := [[1; 2; 3; 4]%Z]; isSpeaking := true;
     silenceTimer := Some 1; subscription := None;
     opusStream := Some (mkStream false); decoder := Some (mkStream false) |}.

(** The same after the quiet period elapsed and the buffer was flushed. *)
Definition demo_flushed : World := advance_to 5000 demo_buffered.

(** A recorder configured with a quiet period of 3000000000 ms, more than a
    timer of the runtime can wait, that just subscribed to "alice". *)
Definition demo_long_quiet : World :=
  handleUserSpeaking "alice"
    (new_AudioRecorder (Some 3000000000%Z) 0 0 "guild").

End Recorder.

(* ===================================================================== *)
(** ** The voice manager (voice/voiceManager.js)                          *)
(* ===================================================================== *)

Module Manager.
Import Recorder.

(** The states of a voice connection of the voice library. *)
Inductive Status := Signalling | Connecting | Ready | Disconnected | Destroyed.

#[export] Instance Status_eq_dec : EqDecision Status.
Proof. solve_decision. Defined.

(** A connection object of the voice library, with the listeners
    [joinVoiceChannel] registers on it.  Each listener is the closure of one
    call of [joinVoiceChannel] and is represented by what it captures: the
    guild identifier for the ["destroyed"] and ["disconnected"] handlers,
    the recorder object for the receiver's ["start"] handler. *)
Record VoiceConnection := mkConnection {
  conn_guild : GuildId;
  conn_channel : string;
  status : Status;
  on_destroyed : list GuildId;
  on_disconnected : list GuildId;
  on_speaking_start : list nat;
}.

Definition set_status (x : Status) (c : VoiceConnection) : VoiceConnection :=
  mkConnection (conn_guild c) (conn_channel c) x (on_destroyed c)
               (on_disconnected c) (on_speaking_start c).
Definition set_channel (x : string) (c : VoiceConnection) : VoiceConnection :=
  mkConnection (conn_guild c) x (status c) (on_destroyed c)
               (on_disconnected c) (on_speaking_start c).
Definition add_listeners (g : GuildId) (rec : nat) (c : VoiceConnection)
  : VoiceConnection :=
  mkConnection (conn_guild c) (conn_channel c) (status c)
               (on_destroyed c ++ [g]) (on_disconnected c ++ [g])
               (on_speaking_start c ++ [rec]).

(** What the manager does, in order. *)
Inductive Action :=
| ConnectionCreated (c : nat)         (* the library made a new connection *)
| ConnectionDestroyed (c : nat)       (* [connection.destroy()] took effect *)
| RecorderCreated (g : GuildId) (rec : nat)   (* [recorders.set(g, ..)] *)
| RecorderDestroyed (rec : nat)       (* [recorder.destroy()] was called *)
| EntryDeleted (g : GuildId)          (* [recorders.delete(g)] removed one *)
| Connected (g : GuildId)             (* "[Voice] Connected to .." *)
| DestroyedLine (g : GuildId).        (* "[Voice] Connection destroyed .." *)

(** The module's [recorders] map, the voice library's registry of tracked
    connections, and the connection and recorder objects they refer to. *)
Record State := mkState {
  connections : list VoiceConnection;
  voiceConnections : gmap string nat;
  recs : list World;
  recorders : gmap string nat;
  trace : list Action;
  silence_env : option Z;         (* what [parseInt] made of the setting *)
  clock : Z;
}.

Definition set_connections (x : list VoiceConnection) (st : State) : State :=
  mkState x (voiceConnections st) (recs st) (recorders st) (trace st)
          (silence_env st) (clock st).
Definition set_voiceConnections (x : gmap string nat) (st : State) : State :=
  mkState (connections st) x (recs st) (recorders st) (trace st)
          (silence_env st) (clock st).
Definition set_recs (x : list World) (st : State) : State :=
  mkState (connections st) (voiceConnections st) x (recorders st) (trace st)
          (silence_env st) (clock st).
Definition set_recorders (x : gmap string nat) (st : State) : State :=
  mkState (connections st) (voiceConnections st) (recs st) x (trace st)
          (silence_env st) (clock st).
Definition act (a : Action) (st : State) : State :=
  mkState (connections st) (voiceConnections st) (recs st) (recorders st)
          (trace st ++ [a]) (silence_env st) (clock st).

Definition initial (env : option Z) (t0 : Z) : State :=
  mkState [] ∅ [] ∅ [] env t0.

(** [getVoiceConnection(guildId)] *)
Definition getVoiceConnection (g : GuildId) (st : State) : option nat :=
  voiceConnections st !! g.

(** [recorders.get(g)?.destroy()] *)
Definition recorders_get_destroy (g : GuildId) (st : State) : State :=
  match recorders st !! g with
  | None => st
  | Some rec =>
      match recs st !! rec with
      | None => st   (* the map only ever holds allocated recorders *)
      | Some w => set_recs (<[rec := destroy w]> (recs st))
                           (act (RecorderDestroyed rec) st)
      end
  end.

(** [recorders.delete(g)] *)
Definition recorders_delete (g : GuildId) (st : State) : State :=
  match recorders st !! g with
  | None => st
  | Some _ => set_recorders (delete g (recorders st)) (act (EntryDeleted g) st)
  end.

(** The ["destroyed"] listener registered by [joinVoiceChannel] for [g]. *)
Definition destroyed_listener (st : State) (g : GuildId) : State :=
  act (DestroyedLine g) (recorders_delete g (recorders_get_destroy g st)).

(** [connection.destroy()] of the voice library: it throws ([None]) on a
    connection that is already destroyed; otherwise the connection is no
    longer tracked, enters the state [Destroyed], and its ["destroyed"]
    listeners run, in order, before the call returns. *)
Definition connection_destroy (c : nat) (st : State) : option State :=
  match connections st !! c with
  | None => None
  | Some vc =>
      if decide (status vc = Destroyed) then None
      else
        let st := if decide (voiceConnections st !! conn_guild vc = Some c)
                  then set_voiceConnections
                         (delete (conn_guild vc) (voiceConnections st)) st
                  else st in
        let st := set_connections
                    (<[c := set_status Destroyed vc]> (connections st)) st in
        let st := act (ConnectionDestroyed c) st in
        Some (fold_left destroyed_listener (on_destroyed vc) st)
  end.

(** The library's [joinVoiceChannel({channelId, guildId, ..})]: a tracked
    connection of the guild is reused, otherwise a new one is made and
    tracked. *)
Definition djsJoinVoiceChannel (channel : string) (g : GuildId) (st : State)
  : nat * State :=
  match voiceConnections st !! g with
  | Some c =>
      (c, set_connections
            (alter (fun vc =>
                      set_channel channel
                        (if decide (status vc = Disconnected)
                         then set_status Signalling vc else vc))
                   c (connections st)) st)
  | None =>
      let c := length (connections st) in
      let vc := {| conn_guild := g; conn_channel := channel;
                   status := Signalling; on_destroyed := [];
                   on_disconnected := []; on_speaking_start := [] |} in
      (c, act (ConnectionCreated c)
            (set_voiceConnections (<[g := c]> (voiceConnections st))
               (set_connections (connections st ++ [vc]) st)))
  end.

(** [joinVoiceChannel(voiceChannel, guild)] up to
    [await entersState(connection, Ready, 20_000)]: the connection awaited,
    or [None] when the call threw. *)
Definition join_begin (channel : string) (g : GuildId) (st : State)
  : option (nat * State) :=
  (* Destroy existing connection if any *)
  st ← match getVoiceConnection g st with
       | Some existingConnection =>
           st ← connection_destroy existingConnection st;
           Some (recorders_delete g (recorders_get_destroy g st))
       | None => Some st
       end;
  Some (djsJoinVoiceChannel channel g st).

(** The rest of [joinVoiceChannel] once the connection is ready. *)
Definition join_ready (c : nat) (g : GuildId) (st : State) : State :=
  let st := act (Connected g) st in
  (* Create a recorder for this guild *)
  let rec := length (recs st) in
  let recorder := new_AudioRecorder (silence_env st) (clock st) c g in
  let st := set_recs (recs st ++ [recorder]) st in
  let st := act (RecorderCreated g rec)
                (set_recorders (<[g := rec]> (recorders st)) st) in
  (* the connection is ready; the receiver's "start" listener and the
     connection's listeners are registered *)
  set_connections
    (alter (fun vc => add_listeners g rec (set_status Ready vc)) c
           (connections st)) st.

(** The [catch] branch of [joinVoiceChannel]: the half-open connection is
    destroyed and the error is thrown on. *)
Definition join_failed (c : nat) (st : State) : State :=
  match connection_destroy c st with
  | Some st' => st'
  | None => st
  end.

(** [joinVoiceChannel] in one piece, for a call during whose wait nothing
    else is handled; [ready] tells whether the connection became ready in
    time.  Calls that wait while other events are handled are the subject of
    [Bot.happens]. *)
Definition joinVoiceChannel (channel : string) (g : GuildId) (ready : bool)
  (st : State) : option nat * State :=
  match join_begin channel g st with
  | None => (None, st)
  | Some (c, st) =>
      if ready then (Some c, join_ready c g st) else (None, join_failed c st)
  end.

(** [leaveVoiceChannel(guildId)] *)
Definition leaveVoiceChannel (g : GuildId) (st : State) : bool * State :=
  match getVoiceConnection g st with
  | Some c =>
      let st := recorders_delete g (recorders_get_destroy g st) in
      match connection_destroy c st with
      | Some st' => (true, st')
      | None => (true, st)
      end
  | None => (false, st)
  end.

(** The ["disconnected"] listener for [g] on connection [c], when neither
    recovery signal arrived in time. *)
Definition disconnected_unrecovered (c : nat) (g : GuildId) (st : State)
  : State :=
  match connection_destroy c st with
  | Some st => recorders_delete g (recorders_get_destroy g st)
  | None => st
  end.

(** The receiver of connection [c] signals that [u] started speaking. *)
Definition speaking_start (c : nat) (u : UserId) (st : State) : State :=
  match connections st !! c with
  | None => st
  | Some vc =>
      fold_left (fun st rec =>
                   set_recs (alter (handleUserSpeaking u) rec (recs st)) st)
                (on_speaking_start vc) st
  end.

(** The runtime delivers [i] (stream data, a timer, ..) to recorder [rec]. *)
Definition recorder_step (rec : nat) (i : Input) (st : State) : State :=
  set_recs (alter (fun w => step w i) rec (recs st)) st.

(** Group [g] has an entry: a live tracked connection [c] whose
    ["destroyed"] listeners are those of joins of [g], and a recorder [rec]
    in a state [w] a recorder can be in. *)
Definition has_entry (st : State) (g : GuildId) (c rec : nat)
  (vc : VoiceConnection) (w : World) : Prop :=
  voiceConnections st !! g = Some c
  /\ connections st !! c = Some vc
  /\ status vc <> Destroyed
  /\ conn_guild vc = g
  /\ Forall (fun g' => g' = g) (on_destroyed vc)
  /\ recorders st !! g = Some rec
  /\ recs st !! rec = Some w
  /\ reachable w.

(** Several actions in a row. *)
Definition acts (l : list Action) (st : State) : State :=
  mkState (connections st) (voiceConnections st) (recs st) (recorders st)
          (trace st ++ l) (silence_env st) (clock st).

(** The state in which the entry of [g] has been torn down: the connection
    destroyed and no longer tracked, the recorder destroyed, the entry
    removed, each done once, and every ["destroyed"] listener has run. *)
Definition torn (st : State) (g : GuildId) (c rec : nat)
  (vc : VoiceConnection) (w : World) : State :=
  mkState (<[c := set_status Destroyed vc]> (connections st))
          (delete g (voiceConnections st))
          (<[rec := destroy w]> (recs st))
          (delete g (recorders st))
          (trace st ++ [ConnectionDestroyed c; RecorderDestroyed rec;
                        EntryDeleted g]
                    ++ replicate (length (on_destroyed vc)) (DestroyedLine g))
          (silence_env st) (clock st).

(** *** Example states *)

(** One successful join of "guild". *)
Definition demo_joined : State :=
  (joinVoiceChannel "general" "guild" true (initial None 0)).2.

(** "alice" spoke one chunk in that guild. *)
Definition demo_recording : State :=
  recorder_step 0 (DecoderData 0 [1; 2; 3; 4]%Z)
    (speaking_start 0 "alice" demo_joined).

(** The connection of "guild" in [demo_recording]. *)
Definition demo_connection : VoiceConnection :=
  {| conn_guild := "guild"; conn_channel := "general"; status := Ready;
     on_destroyed := ["guild"]; on_disconnected := ["guild"];
     on_speaking_start := [0] |}.

End Manager.

(* ===================================================================== *)
(** ** The range of the container's header                                *)
(* ===================================================================== *)

Module Format.
Import Api.

(** The declared format fits the fields of the header: the channel count
    and the block align 16 bits, the rates and the sizes 32 bits. *)
Definition fits_header (dataSize : nat) (sampleRate channels : Z) : Prop :=
  (0 <= channels /\ channels * 2 <= 65535
   /\ 0 <= sampleRate <= 4294967295
   /\ sampleRate * channels * 2 <= 4294967295
   /\ 36 + Z.of_nat dataSize <= 4294967295)%Z.

End Format.

(* ===================================================================== *)
(** ** Further observations on a recorder                                 *)
(* ===================================================================== *)

Module Session.
Import Api Recorder.

(** The lines a recorder can still print after [destroy()]: the outcome of
    an upload that was in flight, and the close and error lines of streams
    that end later. *)
Definition passive (e : Event) : Prop :=
  match e with
  | Sent _ | SendFailed _ | StreamClosed _ | StreamError _ => True
  | _ => False
  end.

(** Once the recorder is destroyed, so is the opus stream of every state
    object. *)
Definition streams_dead (w : World) : Prop :=
  destroyed w = true ->
  forall r s, heap w !! r = Some s ->
    Stream_destroy (opusStream s) = opusStream s.

(** Audio is buffered only under a pending silence timer: whenever the
    buffer of an object is not empty, a timer whose callback captured that
    object is pending. *)
Definition armed (w : World) : Prop :=
  forall r s, heap w !! r = Some s -> audioChunks s <> [] ->
    exists t, t ∈ timers w /\ timer_ref t = r.

(** No pending timer is due later than one (effective) quiet period from
    now. *)
Definition timely (w : World) : Prop :=
  forall t, t ∈ timers w ->
    (deadline t <= now w + timeout_delay (SILENCE_DURATION_MS w))%Z.

(** What [destroy()] flushes for a speaker whose object is [s]: the
    buffer, when there is one, at the time of the call. *)
Definition last_flush (t : Z) (s : UserState) : list (Z * list Z) :=
  match audioChunks s with
  | [] => []
  | _ :: _ => [(t, concat (audioChunks s))]
  end.

(** What the trace must show for an upload event when the events [l] came
    before or with it, in a recorder of guild [g]: a call of
    [sendAudioToBackend] carries a flushed buffer at or above the floor, in
    the recorder's fixed format and for its guild; a request carries the
    container of such a buffer, stamped with the time of the flush. *)
Definition delivered (g : GuildId) (l : list Event) (e : Event) : Prop :=
  match e with
  | SendAudio a =>
      sa_guildId a = g /\ sa_sampleRate a = SAMPLE_RATE
      /\ sa_channels a = CHANNELS
      /\ (minBytes <= Z.of_nat (length (sa_pcmBuffer a)))%Z
      /\ exists t, (t, sa_pcmBuffer a) ∈ flushes_of (sa_userId a) l
  | Post f =>
      exists pcm,
        (form_timestamp f, pcm) ∈ flushes_of (form_userId f) l
        /\ (minBytes <= Z.of_nat (length pcm))%Z
        /\ createWavBuffer pcm SAMPLE_RATE CHANNELS = Ok (form_audio f)
        /\ form_guildId f = g /\ form_sampleRate f = SAMPLE_RATE
        /\ form_channels f = CHANNELS
        /\ form_filename f = (form_userId f, form_timestamp f)
  | _ => True
  end.

(** [w'] continues [w] with events whose uploads are all of buffers flushed
    among them. *)
Definition continues (w w' : World) : Prop :=
  guildId w' = guildId w
  /\ exists l, log w' = log w ++ l
       /\ forall l0, Forall (delivered (guildId w) (l0 ++ l)) l.

(** The speaker an input is about, when it is about one: the speaker
    signalled, the owner of the stream, the speaker of the upload, the
    speaker whose timer fires next. *)
Definition input_speaker (w : World) (i : Input) : option UserId :=
  match i with
  | SpeakingStart u | UploadSettled u _ => Some u
  | DecoderData ref _ | StreamFault ref | OpusClose ref =>
      userId <$> heap w !! ref
  | TimerFires => timer_user <$> earliest (timers w)
  | TimePasses _ | Destroy => None
  end.

(** *** Example states *)

(** "alice" speaks 19200 bytes, exactly the floor, and the quiet period
    elapses. *)
Definition demo_utterance : World :=
  run (new_AudioRecorder None 0 0 "guild")
    [SpeakingStart "alice";
     DecoderData 0 (replicate (Z.to_nat 19200) 7%Z);
     TimerFires].

End Session.

(* ===================================================================== *)
(** ** The manager over time                                              *)
(* ===================================================================== *)

Module Bot.
Import Api Recorder Manager.

(** [recorders.get(g)?.destroy(); recorders.delete(g);], the two lines
    [joinVoiceChannel], [leaveVoiceChannel] and both listeners share. *)
Definition teardown (g : GuildId) (st : State) : State :=
  recorders_delete g (recorders_get_destroy g st).

(** The manager together with the calls of [joinVoiceChannel] that are
    suspended at [await entersState(connection, Ready, 20_000)]: for each,
    the connection it waits for and its guild. *)
Record Bot := mkBot {
  manager : State;
  awaiting : list (nat * GuildId);
}.

(** What can happen to the manager.  Commands call [joinVoiceChannel] and
    [leaveVoiceChannel]; the voice library moves connections between states,
    destroys them and reports speakers; waits time out; the runtime delivers
    stream events, timers and upload results to the recorders.
    [recorder.destroy()] is called by the manager only. *)
Inductive Happening :=
| JoinCalled (channel : string) (g : GuildId)
| Enters (c : nat) (x : Status)    (* the library moves [c] to the state [x];
                                      at [Ready] the joins waiting resume *)
| ReadyTimesOut (c : nat)          (* [entersState(c, Ready, ..)] rejects *)
| ReconnectTimesOut (c : nat)      (* the wait of the "disconnected"
                                      listeners of [c] rejects *)
| Destroys (c : nat)               (* the library destroys [c] itself *)
| LeaveCalled (g : GuildId)
| StartsSpeaking (c : nat) (u : UserId)
| Delivers (rec : nat) (i : Input)
| ClockReads (t : Z).

Definition set_clock (t : Z) (st : State) : State :=
  mkState (connections st) (voiceConnections st) (recs st) (recorders st)
          (trace st) (silence_env st) t.

(** The library moves connection [c] to the state [x]. *)
Definition enters (c : nat) (x : Status) (st : State) : State :=
  set_connections (alter (set_status x) c (connections st)) st.

Definition waits_for (c : nat) (p : nat * GuildId) : Prop := p.1 = c.

#[export] Instance waits_for_dec c p : Decision (waits_for c p).
Proof. unfold waits_for. apply _. Defined.

Definition happens (b : Bot) (h : Happening) : Bot :=
  let st := manager b in
  match h with
  | JoinCalled channel g =>
      match join_begin channel g st with
      | Some (c, st') => mkBot st' (awaiting b ++ [(c, g)])
      | None => b
      end
  | Enters c x =>
      match connections st !! c with
      | Some vc =>
          (* a destroyed connection stays destroyed, and a connection is
             destroyed by [destroy()] only *)
          if decide (status vc = Destroyed) then b
          else if decide (x = Destroyed) then b
          else if decide (x = Ready) then
            mkBot (fold_left (fun st p => join_ready c p.2 st)
                     (filter (waits_for c) (awaiting b))
                     (enters c Ready st))
                  (filter (fun p => ~ waits_for c p) (awaiting b))
          else mkBot (enters c x st) (awaiting b)
      | None => b
      end
  | ReadyTimesOut c =>
      mkBot (fold_left (fun st _ => join_failed c st)
               (filter (waits_for c) (awaiting b)) st)
            (filter (fun p => ~ waits_for c p) (awaiting b))
  | ReconnectTimesOut c =>
      match connections st !! c with
      | Some vc =>
          (* the wait rejects only while the connection has not left the
             state [Disconnected]; on a destroyed one the listener's
             [connection.destroy()] throws *)
          if decide (status vc = Disconnected) then
            mkBot (fold_left (fun st g => disconnected_unrecovered c g st)
                     (on_disconnected vc) st)
                  (awaiting b)
          else b
      | None => b
      end
  | Destroys c =>
      match connection_destroy c st with
      | Some st' => mkBot st' (awaiting b)
      | None => b
      end
  | LeaveCalled g => mkBot (leaveVoiceChannel g st).2 (awaiting b)
  | StartsSpeaking c u => mkBot (speaking_start c u st) (awaiting b)
  | Delivers rec i =>
      match i with
      | Destroy => b
      | _ => mkBot (recorder_step rec i st) (awaiting b)
      end
  | ClockReads t =>
      if (clock st <=? t)%Z then mkBot (set_clock t st) (awaiting b) else b
  end.

Definition bot_run (b : Bot) (hs : list Happening) : Bot :=
  fold_left happens hs b.

Definition start (env : option Z) (t0 : Z) : Bot := mkBot (initial env t0) [].

(** The states the bot can be in. *)
Definition bot_reachable (b : Bot) : Prop :=
  exists env t0 hs, b = bot_run (start env t0) hs.

(** The two registries, the connections and the recorders agree. *)
Record consistent (b : Bot) : Prop := mk_consistent {
  (* a tracked connection is live and of the guild it is tracked for *)
  tracked_live : forall g c, voiceConnections (manager b) !! g = Some c ->
    exists vc, connections (manager b) !! c = Some vc
               /\ status vc <> Destroyed /\ conn_guild vc = g;
  (* a live connection is tracked *)
  live_tracked : forall c vc, connections (manager b) !! c = Some vc ->
    status vc <> Destroyed ->
    voiceConnections (manager b) !! conn_guild vc = Some c;
  (* a connection carries the listeners of no join or of one *)
  listeners : forall c vc, connections (manager b) !! c = Some vc ->
    on_disconnected vc = on_destroyed vc
    /\ (on_destroyed vc = [] \/ on_destroyed vc = [conn_guild vc]);
  (* an entry is a live recorder of the guild, on the guild's connection *)
  entries : forall g rec, recorders (manager b) !! g = Some rec ->
    exists c vc w,
      voiceConnections (manager b) !! g = Some c
      /\ connections (manager b) !! c = Some vc
      /\ on_destroyed vc = [g] /\ on_speaking_start vc = [rec]
      /\ recs (manager b) !! rec = Some w
      /\ destroyed w = false /\ guildId w = g;
  (* a recorder is in a state it can be in, and registered while live *)
  recorders_ok : forall rec w, recs (manager b) !! rec = Some w ->
    reachable w
    /\ (destroyed w = false -> recorders (manager b) !! guildId w = Some rec);
  (* a join waits for a connection of its guild that has no listener yet *)
  awaiting_ok : forall c g, (c, g) ∈ awaiting b ->
    exists vc, connections (manager b) !! c = Some vc
               /\ conn_guild vc = g
               /\ on_destroyed vc = [] /\ on_speaking_start vc = [];
  awaiting_once : NoDup (awaiting b).*1;
}.

(** *** Example states *)

(** One join of "guild" that became ready, and "alice" starts speaking. *)
Definition demo_bot : Bot :=
  bot_run (start None 0)
    [JoinCalled "general" "guild"; Enters 0 Ready; StartsSpeaking 0 "alice"].

(** The same after the connection was lost. *)
Definition demo_bot_disconnected : Bot :=
  happens demo_bot (Enters 0 Disconnected).

(** A join of "guild" that still waits for its connection. *)
Definition demo_bot_waiting : Bot :=
  bot_run (start None 0) [JoinCalled "general" "guild"].

(** Two joins of "guild" overlap: the second starts while the first waits,
    and its connection becomes ready; the first still waits. *)
Definition demo_bot_overlap : Bot :=
  bot_run (start None 0)
    [JoinCalled "general" "guild"; JoinCalled "other" "guild";
     Enters 1 Ready].

(** The connection of "guild" in [demo_bot_disconnected]. *)
Definition demo_lost_connection : VoiceConnection :=
  {| conn_guild := "guild"; conn_channel := "general"; status := Disconnected;
     on_destroyed := ["guild"]; on_disconnected := ["guild"];
     on_speaking_start := [0] |}.

End Bot.

(* ===================================================================== *)
(** ** The slash commands (commands/join.js, commands/leave.js)           *)
(* ===================================================================== *)

Module Commands.
Import Api Recorder Manager Bot.

(** The voice channel of the member who ran the command, with what
    [permissionsFor(client.user)] answers for the two permissions asked. *)
Record VoiceChannel := mkVoiceChannel {
  channel_id : string;
  channel_name : string;
  has_Connect : bool;
  has_Speak : bool;
}.

(** A chat-input interaction in a guild: [interaction.guild.id] and
    [interaction.member.voice.channel] ([None] is [null]). *)
Record Interaction := mkInteraction {
  guild_id : GuildId;
  member_voice_channel : option VoiceChannel;
}.

(** The texts of the replies. *)
Inductive Message :=
| NeedVoiceChannel              (* "You need to be in a voice channel first!" *)
| NeedPermissions               (* "I need permissions to join and speak .." *)
| Joined (name : string)        (* "Joined **name** and recording audio streams!" *)
| FailedToJoin                  (* "Failed to join the voice channel." *)
| LeftChannel                   (* "Left the voice channel. Recording stopped." *)
| NotInVoiceChannel.            (* "I'm not in a voice channel!" *)

(** The argument of [interaction.reply]. *)
Record Reply := mkReply {
  content : Message;
  ephemeral : bool;
}.

(** Where [execute] of the join command stands when its synchronous part
    is over: it has replied and returned, or it is suspended at
    [await joinVoiceChannel(..)], which waits for the connection [c]. *)
Inductive JoinProgress :=
| Replied (reply : Reply)
| Joining (voiceChannel : VoiceChannel) (c : nat).

(** [execute(interaction)] of the join command up to its first suspension.
    A call of [joinVoiceChannel] that throws before it waits lands in the
    [catch] block. *)
Definition join_execute (interaction : Interaction) (b : Bot)
  : JoinProgress * Bot :=
  match member_voice_channel interaction with
  | None => (Replied (mkReply NeedVoiceChannel true), b)
  | Some voiceChannel =>
      (* Check bot permissions *)
      if (negb (has_Connect voiceChannel) || negb (has_Speak voiceChannel))%bool
      then (Replied (mkReply NeedPermissions true), b)
      else
        match join_begin (channel_id voiceChannel) (guild_id interaction)
                (manager b) with
        | Some (c, _) =>
            (Joining voiceChannel c,
             happens b (JoinCalled (channel_id voiceChannel)
                          (guild_id interaction)))
        | None => (Replied (mkReply FailedToJoin true), b)
        end
  end.

(** The rest of [execute] once [joinVoiceChannel] has settled, as the
    replies it attempts, in order.  [joined] tells whether
    [joinVoiceChannel] returned or threw, [delivered] whether the reply of
    the [try] block went through: when that reply is rejected, the [catch]
    block runs as well. *)
Definition join_execute_resume (voiceChannel : VoiceChannel)
  (joined delivered : bool) : list Reply :=
  if joined then
    mkReply (Joined (channel_name voiceChannel)) false
    :: (if delivered then [] else [mkReply FailedToJoin true])
  else [mkReply FailedToJoin true].

(** [execute(interaction)] of the leave command. *)
Definition leave_execute (interaction : Interaction) (st : State)
  : Reply * State :=
  let (connection, st') := leaveVoiceChannel (guild_id interaction) st in
  if connection then (mkReply LeftChannel false, st')
  else (mkReply NotInVoiceChannel true, st').

(** *** Example interactions *)

Definition demo_channel : VoiceChannel :=
  {| channel_id := "42"; channel_name := "general";
     has_Connect := true; has_Speak := true |}.

Definition demo_interaction : Interaction :=
  {| guild_id := "guild"; member_voice_channel := Some demo_channel |}.

End Commands.
Section WavFacts.
Import Api.

Lemma blit_length src off dst : length (blit src off dst) = length dst.
Proof.
  revert src off. induction dst as [|d dst IH]; intros src off; simpl; [done|].
  destruct off; [destruct src|]; simpl; auto.
Qed.

Lemma blit_nil off dst : blit [] off dst = dst.
Proof.
  revert off. induction dst as [|d dst IH]; intros [|off]; simpl; auto.
  by rewrite IH.
Qed.

Lemma blit_replicate_exact (src : Buffer) :
  blit src 0 (replicate (length src) 0%Z) = src.
Proof. induction src as [|s src IH]; simpl; [done|]. by rewrite IH. Qed.

Lemma le_value_bytes (width : nat) (v : Z) :
  (0 <= v < 2 ^ (8 * Z.of_nat width))%Z -> le_value (le_bytes width v) = v.
Proof.
  revert v. induction width as [|w IH]; intros v Hv.
  - simpl in *. lia.
  - cbn [le_bytes le_value].
    rewrite IH.
    + pose proof (Z.div_mod v 256). lia.
    + replace (8 * Z.of_nat (S w))%Z with (8 + 8 * Z.of_nat w)%Z in Hv by lia.
      rewrite Z.pow_add_r in Hv by lia.
      change (2 ^ 8)%Z with 256%Z in Hv.
      split; [apply Z.div_pos; lia|].
      apply Z.div_lt_upper_bound; lia.
Qed.

End WavFacts.

Section WavTheorems.
Import Api.

Lemma writeUIntLE_ok width v off buf :
  (0 <= v <= 2 ^ (8 * Z.of_nat width) - 1)%Z ->
  off + width <= length buf ->
  writeUIntLE width v off buf = Ok (blit (le_bytes width v) off buf).
Proof.
  intros Hv Hoff. unfold writeUIntLE.
  destruct (Z.leb_spec 0 v); [|lia].
  destruct (Z.leb_spec v (2 ^ (8 * Z.of_nat width) - 1)); [|lia].
  destruct (Nat.leb_spec (off + width) (length buf)); [|lia].
  done.
Qed.

Lemma createWavBuffer_ok (pcm : Buffer) (R C : Z) :
  (0 <= C)%Z -> (C * 2 <= 65535)%Z ->
  (0 <= R <= 4294967295)%Z -> (R * C * 2 <= 4294967295)%Z ->
  (36 + Z.of_nat (length pcm) <= 4294967295)%Z ->
  createWavBuffer pcm R C = Ok (wav_header R C (length pcm) ++ pcm).
Proof.
  intros HC HC2 HR HRC HN.
  unfold createWavBuffer, writeUInt32LE, writeUInt16LE, write, copy.
  change (16 / 8)%Z with 2%Z.
  repeat (rewrite writeUIntLE_ok;
          [ cbn [mbind result_bind]
          | change (2 ^ (8 * Z.of_nat 4) - 1)%Z with 4294967295%Z;
            change (2 ^ (8 * Z.of_nat 2) - 1)%Z with 65535%Z; lia
          | rewrite ?blit_length; unfold Buffer_alloc;
            rewrite length_replicate; lia ]).
  f_equal. unfold Buffer_alloc, wav_header.
  rewrite replicate_add.
  cbn [replicate string_bytes list_ascii_of_string map blit le_bytes app].
  by rewrite !blit_nil, blit_replicate_exact.
Qed.

Lemma wav_header_container (pcm : Buffer) (R C : Z) :
  (0 <= C)%Z -> (C * 2 <= 65535)%Z ->
  (0 <= R <= 4294967295)%Z -> (R * C * 2 <= 4294967295)%Z ->
  (36 + Z.of_nat (length pcm) <= 4294967295)%Z ->
  wav_container pcm R C (wav_header R C (length pcm) ++ pcm).
Proof.
  intros HC HC2 HR HRC HN.
  unfold wav_container, wav_header, readUInt32LE, readUInt16LE, readUIntLE,
    tag_at.
  cbn [app string_bytes list_ascii_of_string map le_bytes firstn skipn length
       Nat.eqb].
  repeat split; try reflexivity; f_equal.
  - apply (le_value_bytes 4). change (2 ^ (8 * Z.of_nat 4))%Z with 4294967296%Z. lia.
  - apply (le_value_bytes 2). change (2 ^ (8 * Z.of_nat 2))%Z with 65536%Z. lia.
  - apply (le_value_bytes 4). change (2 ^ (8 * Z.of_nat 4))%Z with 4294967296%Z. lia.
  - apply (le_value_bytes 4). change (2 ^ (8 * Z.of_nat 4))%Z with 4294967296%Z. lia.
  - apply (le_value_bytes 2). change (2 ^ (8 * Z.of_nat 2))%Z with 65536%Z. lia.
  - apply (le_value_bytes 4). change (2 ^ (8 * Z.of_nat 4))%Z with 4294967296%Z. lia.
Qed.

(** C2 (as amended).  When the declared format fits the header's fields
    (channel count and block align in 16 bits; sample rate, byte rate and
    the size fields in 32 bits), encoding [N] 16-bit samples gives exactly
    [44 + 2 N] octets: a header declaring PCM format code 1, [C] channels,
    rate [R], byte rate [R * C * 2], block align [C * 2], 16 bits per sample
    and a data size of [2 N], followed by the payload unchanged; reading the
    header back yields [R], [C] and [2 N]. *)
Theorem createWavBuffer_roundtrip (N : nat) (pcm : Buffer) (R C : Z) :
  length pcm = 2 * N ->
  (0 <= C)%Z -> (C * 2 <= 65535)%Z ->
  (0 <= R <= 4294967295)%Z -> (R * C * 2 <= 4294967295)%Z ->
  (36 + Z.of_nat (2 * N) <= 4294967295)%Z ->
  exists wav,
    createWavBuffer pcm R C = Ok wav
    /\ wav_container pcm R C wav
    /\ length wav = 44 + 2 * N
    /\ readUInt32LE 24 wav = Some R
    /\ readUInt16LE 22 wav = Some C
    /\ readUInt32LE 40 wav = Some (Z.of_nat (2 * N)).
Proof.
  intros Hlen HC HC2 HR HRC HN. rewrite <- Hlen in HN.
  exists (wav_header R C (length pcm) ++ pcm).
  pose proof (wav_header_container pcm R C HC HC2 HR HRC HN) as Hc.
  split; [by apply createWavBuffer_ok|].
  split; [done|].
  destruct Hc as (Hl & _ & _ & _ & _ & _ & _ & Hch & Hr & _ & _ & _ & _ & Hd & _).
  rewrite <- Hlen. auto.
Qed.

Lemma createWavBuffer_roundtrip_witness :
  exists wav,
    createWavBuffer [1; 2; 3; 4]%Z 48000 2 = Ok wav
    /\ wav_container [1; 2; 3; 4]%Z 48000 2 wav
    /\ length wav = 44 + 2 * 2
    /\ readUInt32LE 24 wav = Some 48000%Z
    /\ readUInt16LE 22 wav = Some 2%Z
    /\ readUInt32LE 40 wav = Some (Z.of_nat (2 * 2)).
Proof.
  apply (createWavBuffer_roundtrip 2 [1; 2; 3; 4]%Z 48000 2);
    [reflexivity | lia | lia | lia | lia | simpl; lia].
Defined.

(** C2, counterexample.  One 16-bit sample declared at 3 GHz mono: the rate
    fits its 32-bit field but the byte rate does not, the write of the byte
    rate raises a range error and no buffer is produced. *)
Lemma createWavBuffer_not_total :
  ~ encodes 1 [0; 0]%Z 3000000000 1.
Proof.
  unfold encodes. intros H. destruct (H eq_refl) as (wav & Hw & _).
  vm_compute in Hw. discriminate Hw.
Qed.

End WavTheorems.

(* ===================================================================== *)
(** ** Facts about the recorder                                           *)
(* ===================================================================== *)

Section RecorderFacts.
Import Api Recorder.

Implicit Types (w : World) (u : UserId) (r : Ref) (s : UserState).

(** *** Objects and the registry *)

Lemma skel_alter (f : UserState -> UserState) r h :
  (forall s, userId (f s) = userId s) ->
  (forall s, silenceTimer (f s) = silenceTimer s) ->
  skel (alter f r h) = skel h.
Proof.
  intros Hu Ht. unfold skel.
  rewrite (list_fmap_alter _ f id).
  - by rewrite list_alter_id.
  - apply Forall_forall. intros s _. simpl. by rewrite Hu, Ht.
Qed.

Lemma skel_lookup h r u st :
  skel h !! r = Some (u, st) <->
  exists s, h !! r = Some s /\ userId s = u /\ silenceTimer s = st.
Proof.
  unfold skel. rewrite list_lookup_fmap. split.
  - destruct (h !! r) as [s|]; simpl; [|discriminate].
    intros [= <- <-]. eauto.
  - intros (s & -> & <- & <-). done.
Qed.

Lemma wf_ext w w' : shape w = shape w' -> wf w -> wf w'.
Proof.
  unfold shape. intros [= Hu Hd Hs Ht Hn Hc] [].
  constructor; rewrite <- ?Hu, <- ?Hd, <- ?Hs, <- ?Ht, <- ?Hn, <- ?Hc; done.
Qed.

Lemma users_get_Some (m : list (UserId * Ref)) u r :
  NoDup m.*1 -> users_get u m = Some r <-> (u, r) ∈ m.
Proof.
  induction m as [|[u' r'] m IH]; simpl; intros Hnd.
  - split; [done|]. by intros ?%elem_of_nil.
  - apply NoDup_cons in Hnd as [Hnotin Hnd].
    destruct (decide (u = u')) as [->|Hne].
    + split.
      * intros [= ->]. apply elem_of_cons; auto.
      * intros [[= ->]|Hin]%elem_of_cons; [done|].
        exfalso. apply Hnotin. apply list_elem_of_fmap. by exists (u', r).
    + rewrite IH by done. split.
      * intros. apply elem_of_cons; auto.
      * intros [[= -> ->]|Hin]%elem_of_cons; [done|done].
Qed.

Lemma users_get_None (m : list (UserId * Ref)) u :
  users_get u m = None <-> u ∉ m.*1.
Proof.
  induction m as [|[u' r'] m IH]; simpl.
  - split; [intros _; apply not_elem_of_nil | done].
  - destruct (decide (u = u')) as [->|Hne].
    + split; [done|]. intros H. exfalso. apply H. apply elem_of_cons; auto.
    + rewrite IH. rewrite not_elem_of_cons. tauto.
Qed.


Lemma filter_ext_elem {A} (P Q : A -> Prop) `{!forall x, Decision (P x)}
  `{!forall x, Decision (Q x)} (l : list A) :
  (forall x, x ∈ l -> (P x <-> Q x)) -> filter P l = filter Q l.
Proof.
  induction l as [|x l IH]; intros Hall; [done|].
  rewrite !filter_cons.
  assert (P x <-> Q x) as Hx by (apply Hall; apply elem_of_cons; auto).
  rewrite IH by (intros y Hy; apply Hall; apply elem_of_cons; auto).
  destruct (decide (P x)), (decide (Q x)); tauto.
Qed.

Lemma filter_all {A} (P : A -> Prop) `{!forall x, Decision (P x)} (l : list A) :
  (forall x, x ∈ l -> P x) -> filter P l = l.
Proof.
  induction l as [|x l IH]; intros Hall; [done|].
  rewrite filter_cons_True by (apply Hall; apply elem_of_cons; auto).
  rewrite IH; [done|]. intros y Hy. apply Hall. apply elem_of_cons; auto.
Qed.

Lemma filter_none {A} (P : A -> Prop) `{!forall x, Decision (P x)} (l : list A) :
  (forall x, x ∈ l -> ~ P x) -> filter P l = [].
Proof.
  induction l as [|x l IH]; intros Hall; [done|].
  rewrite filter_cons_False by (apply Hall; apply elem_of_cons; auto).
  apply IH. intros y Hy. apply Hall. apply elem_of_cons; auto.
Qed.

Lemma wf_same_user w r r' u st st' :
  wf w -> skel (heap w) !! r = Some (u, st) ->
  skel (heap w) !! r' = Some (u, st') -> r = r'.
Proof.
  intros Hwf H1 H2.
  apply (NoDup_lookup ((skel (heap w)).*1) r r' u).
  - by apply wf_objects.
  - by rewrite list_lookup_fmap, H1.
  - by rewrite list_lookup_fmap, H2.
Qed.

Lemma wf_users_get w u r :
  wf w -> users_get u (users w) = Some r ->
  destroyed w = false /\ exists st, skel (heap w) !! r = Some (u, st).
Proof.
  intros Hwf Hget.
  apply users_get_Some in Hget; [|by apply wf_keys].
  split; [|by apply wf_entry].
  destruct (destroyed w) eqn:Hd; [|done].
  destruct (wf_dead w Hwf Hd) as [Hu _]. rewrite Hu in Hget.
  by apply elem_of_nil in Hget.
Qed.

Lemma wf_users_get_live w u r st :
  wf w -> destroyed w = false -> skel (heap w) !! r = Some (u, st) ->
  users_get u (users w) = Some r.
Proof.
  intros Hwf Hd Hs. apply users_get_Some; [by apply wf_keys|].
  by eapply wf_live.
Qed.

(** A pending timer belongs to a speaker exactly when it is the handle the
    speaker's object stores. *)
Lemma wf_timer_user w t r u st :
  wf w -> t ∈ timers w -> skel (heap w) !! r = Some (u, st) ->
  timer_user t = u <-> st = Some (timer_id t).
Proof.
  intros Hwf Ht Hs. pose proof (wf_owner w Hwf t Ht) as Ho. split.
  - intros Hu. rewrite Hu in Ho.
    assert (timer_ref t = r) as Hr by (eapply wf_same_user; eauto).
    rewrite Hr in Ho. congruence.
  - intros ->.
    assert (timer_ref t = r) as Hr by (eapply wf_handles; eauto).
    rewrite Hr in Ho. congruence.
Qed.

Lemma clear_stored w r u st :
  wf w -> skel (heap w) !! r = Some (u, st) ->
  match st with
  | Some id => filter (fun t => timer_id t <> id) (timers w)
  | None => timers w
  end = filter (fun t => timer_user t <> u) (timers w).
Proof.
  intros Hwf Hs. destruct st as [id|].
  - apply filter_ext_elem. intros t Ht.
    pose proof (wf_timer_user w t r u (Some id) Hwf Ht Hs) as H.
    split; intros Hne Heq; apply Hne.
    + apply H in Heq. congruence.
    + apply H. congruence.
  - symmetry. apply filter_all. intros t Ht Hu.
    by apply (wf_timer_user w t r u None Hwf Ht Hs) in Hu.
Qed.

Lemma reset_spec w u r :
  wf w -> users_get u (users w) = Some r ->
  _resetSilenceTimer u w =
  set_heap (alter (set_silenceTimer (Some (next_timer w))) r (heap w))
    (set_next_timer (S (next_timer w)) (set_timers (reset_timers u r w) w)).
Proof.
  intros Hwf Hget. unfold _resetSilenceTimer. rewrite Hget.
  destruct (wf_users_get w u r Hwf Hget) as (_ & st & Hs).
  pose proof (clear_stored w r u st Hwf Hs) as Hc.
  apply skel_lookup in Hs as (s & Hh & _ & Hst). rewrite Hh, Hst.
  unfold reset_timers. rewrite <- Hc.
  destruct st as [id|]; reflexivity.
Qed.


Lemma skel_set_timer h r x r' :
  skel (alter (set_silenceTimer x) r h) !! r' =
  if decide (r = r') then (fun p => (p.1, x)) <$> skel h !! r'
  else skel h !! r'.
Proof.
  unfold skel.
  rewrite (list_fmap_alter _ (set_silenceTimer x) (fun p => (p.1, x)))
    by (apply Forall_forall; done).
  destruct (decide (r = r')) as [->|Hne].
  - by rewrite list_lookup_alter_eq.
  - by rewrite list_lookup_alter_ne.
Qed.

Lemma skel_set_timer_fst h r x :
  (skel (alter (set_silenceTimer x) r h)).*1 = (skel h).*1.
Proof.
  unfold skel. rewrite <- !list_fmap_compose.
  rewrite (list_fmap_alter _ (set_silenceTimer x) id)
    by (apply Forall_forall; done).
  by rewrite list_alter_id.
Qed.

Lemma timeout_delay_pos ms : (1 <= timeout_delay ms)%Z.
Proof.
  unfold timeout_delay.
  destruct (Z.ltb_spec ms 1); simpl; [lia|].
  destruct (Z.ltb_spec 2147483647 ms); lia.
Qed.

Lemma timeout_delay_id ms :
  (1 <= ms <= 2147483647)%Z -> timeout_delay ms = ms.
Proof.
  intros H. unfold timeout_delay.
  destruct (Z.ltb_spec ms 1); [lia|].
  destruct (Z.ltb_spec 2147483647 ms); [lia|done].
Qed.

Lemma wf_timer_fresh w t : wf w -> t ∈ timers w -> timer_id t < next_timer w.
Proof. intros Hwf Ht. eapply wf_fresh; [done|]. by apply wf_owner. Qed.

Lemma NoDup_fmap_filter {A B} (f : A -> B) (P : A -> Prop)
  `{!forall x, Decision (P x)} (l : list A) :
  NoDup (f <$> l) -> NoDup (f <$> filter P l).
Proof.
  intros Hnd. apply (sublist_NoDup (f <$> filter P l) (f <$> l)); [exact Hnd|].
  apply fmap_sublist, sublist_filter.
Qed.

Lemma wf_reset w u r :
  wf w -> users_get u (users w) = Some r -> wf (_resetSilenceTimer u w).
Proof.
  intros Hwf Hget. rewrite (reset_spec w u r Hwf Hget).
  destruct (wf_users_get w u r Hwf Hget) as (Hd & st & Hs).
  set (n := next_timer w).
  constructor; simpl.
  - by apply wf_keys.
  - intros u' r' Hin. destruct (wf_entry w Hwf u' r' Hin) as [st' Hs'].
    rewrite skel_set_timer. case_decide; rewrite Hs'; simpl; eauto.
  - intros _ r' u' st'. rewrite skel_set_timer.
    case_decide; [|by apply wf_live].
    destruct (skel (heap w) !! r') as [[u0 st0]|] eqn:E; simpl; [|done].
    intros [= <- <-]. by eapply wf_live.
  - rewrite skel_set_timer_fst. by apply wf_objects.
  - congruence.
  - unfold reset_timers. rewrite fmap_app. apply NoDup_app. split_and!.
    + apply NoDup_fmap_filter, wf_timer_ids, Hwf.
    + intros id Hin Hin2. simpl in Hin2. apply list_elem_of_singleton in Hin2.
      apply list_elem_of_fmap in Hin as (t & -> & Ht).
      apply list_elem_of_filter in Ht as [_ Ht].
      pose proof (wf_timer_fresh w t Hwf Ht). lia.
    + simpl. apply NoDup_singleton.
  - intros t Ht. unfold reset_timers in Ht.
    apply elem_of_app in Ht as [Ht|Ht].
    + apply list_elem_of_filter in Ht as [Hne Ht].
      pose proof (wf_owner w Hwf t Ht) as Ho.
      rewrite skel_set_timer. case_decide as Hr; [|done].
      exfalso. apply Hne. rewrite <- Hr in Ho. congruence.
    + apply list_elem_of_singleton in Ht as ->. simpl.
      rewrite skel_set_timer, decide_True by done. by rewrite Hs.
  - intros r' u' id. rewrite skel_set_timer. case_decide.
    + destruct (skel (heap w) !! r') as [[u0 st0]|]; simpl; [|done].
      intros [= <- <-]. lia.
    + intros H'. apply (wf_fresh w Hwf) in H'. lia.
  - intros r1 r2 u1 u2 id. rewrite !skel_set_timer.
    destruct (decide (r = r1)) as [<-|H1], (decide (r = r2)) as [<-|H2];
      [done|..].
    + rewrite Hs. simpl. intros [= <- <-] H'.
      apply (wf_fresh w Hwf) in H'. lia.
    + rewrite Hs. simpl. intros H' [= <- <-].
      apply (wf_fresh w Hwf) in H'. lia.
    + by apply wf_handles.
  - intros t Ht. unfold reset_timers in Ht.
    apply elem_of_app in Ht as [Ht|Ht].
    + apply list_elem_of_filter in Ht as [_ Ht]. by apply wf_time.
    + apply list_elem_of_singleton in Ht as ->. simpl.
      pose proof (timeout_delay_pos (SILENCE_DURATION_MS w)). lia.
Qed.


Lemma wf_reset_any w u : wf w -> wf (_resetSilenceTimer u w).
Proof.
  intros Hwf. destruct (users_get u (users w)) as [r|] eqn:Hget.
  - by eapply wf_reset.
  - unfold _resetSilenceTimer. by rewrite Hget.
Qed.

(** *** Operations that leave registry and timers alone *)

Lemma shape_update w r (f : UserState -> UserState) :
  (forall s, userId (f s) = userId s) ->
  (forall s, silenceTimer (f s) = silenceTimer s) ->
  shape (update r f w) = shape w.
Proof. intros Hu Ht. unfold shape, update. simpl. by rewrite skel_alter. Qed.

Lemma shape_add_log w e : shape (add_log e w) = shape w.
Proof. done. Qed.

Lemma shape_flush u w : shape (_flushAndSend u w) = shape w.
Proof.
  unfold _flushAndSend.
  repeat case_match; try done;
    rewrite ?shape_add_log; by apply shape_update.
Qed.

Lemma wf_update w r (f : UserState -> UserState) :
  (forall s, userId (f s) = userId s) ->
  (forall s, silenceTimer (f s) = silenceTimer s) ->
  wf w -> wf (update r f w).
Proof. intros Hu Ht. apply wf_ext. symmetry. by apply shape_update. Qed.

Lemma wf_add_log w e : wf w -> wf (add_log e w).
Proof. by apply wf_ext. Qed.

Lemma wf_flush u w : wf w -> wf (_flushAndSend u w).
Proof. apply wf_ext. symmetry. apply shape_flush. Qed.

Lemma wf_on_data r u c w : wf w -> wf (on_data r u c w).
Proof.
  intros Hwf. unfold on_data. destruct (destroyed w); [done|].
  apply wf_reset_any, wf_update, wf_add_log, wf_update; done.
Qed.

Lemma wf_on_close u w : wf w -> wf (on_close u w).
Proof. intros Hwf. by apply wf_flush, wf_add_log. Qed.

Lemma wf_on_silence r u w : wf w -> wf (on_silence r u w).
Proof. intros Hwf. by apply wf_flush, wf_update. Qed.

Lemma wf_upload_settled u ok w : wf w -> wf (upload_settled u ok w).
Proof. intros Hwf. unfold upload_settled. destruct ok; by apply wf_add_log. Qed.

Lemma shape_opus_destroyed r w : shape (opus_destroyed r w) = shape w.
Proof. by apply shape_update. Qed.

Lemma wf_opus_destroyed r w : wf w -> wf (opus_destroyed r w).
Proof. by apply wf_update. Qed.

(** *** A new speaker *)

Lemma wf_new_user w u :
  wf w -> destroyed w = false -> users_get u (users w) = None ->
  wf (set_users (users w ++ [(u, length (heap w))])
        (set_heap (heap w ++ [ {| userId := u; audioChunks := [];
                                   isSpeaking := true; silenceTimer := None;
                                   subscription := None;
                                   opusStream := Some (mkStream false);
                                   decoder := Some (mkStream false) |} ])
           (add_log (Subscribe u) w))).
Proof.
  intros Hwf Hd Hnone.
  apply users_get_None in Hnone.
  assert (length (skel (heap w)) = length (heap w)) as Hlen
    by (unfold skel; by rewrite length_fmap).
  assert (u ∉ (skel (heap w)).*1) as Hfresh.
  { intros Hin. apply list_elem_of_fmap in Hin as ([u' st] & -> & Hin).
    apply list_elem_of_lookup in Hin as [r Hr].
    apply Hnone. apply list_elem_of_fmap.
    exists (u', r). split; [done|]. by eapply wf_live. }
  constructor; simpl; unfold skel; rewrite ?fmap_app; simpl;
    fold (skel (heap w)).
  - apply NoDup_app. split_and!; [by apply wf_keys | | apply NoDup_singleton].
    intros x Hx Hx'. apply list_elem_of_singleton in Hx' as ->. done.
  - intros u' r' [Hin|Hin]%elem_of_app.
    + destruct (wf_entry w Hwf u' r' Hin) as [st Hs].
      exists st. by apply lookup_app_l_Some.
    + apply list_elem_of_singleton in Hin as [= -> ->].
      exists None. rewrite lookup_app_r by lia.
      by rewrite Hlen, Nat.sub_diag.
  - intros _ r' u' st Hl. apply elem_of_app.
    destruct (decide (r' < length (heap w))) as [Hlt|Hge].
    + left. rewrite lookup_app_l in Hl by lia. by eapply wf_live.
    + right. rewrite lookup_app_r in Hl by lia.
      destruct (r' - length (skel (heap w))) as [|k] eqn:E; simpl in Hl; [|done].
      injection Hl as <- <-. apply list_elem_of_singleton. f_equal. lia.
  - apply NoDup_app. split_and!; [by apply wf_objects | | apply NoDup_singleton].
    intros x Hx Hx'. apply list_elem_of_singleton in Hx' as ->. done.
  - congruence.
  - by apply wf_timer_ids.
  - intros t Ht. apply lookup_app_l_Some. by apply wf_owner.
  - intros r' u' id Hl.
    destruct (decide (r' < length (heap w))) as [Hlt|Hge].
    + rewrite lookup_app_l in Hl by lia. by eapply wf_fresh.
    + rewrite lookup_app_r in Hl by lia.
      destruct (r' - length (skel (heap w))) as [|k]; simpl in Hl; done.
  - intros r1 r2 u1 u2 id H1 H2.
    destruct (decide (r1 < length (heap w))) as [Hlt1|Hge1];
      [rewrite lookup_app_l in H1 by lia|
       rewrite lookup_app_r in H1 by lia;
       destruct (r1 - length (skel (heap w))) as [|k]; simpl in H1; done].
    destruct (decide (r2 < length (heap w))) as [Hlt2|Hge2];
      [rewrite lookup_app_l in H2 by lia|
       rewrite lookup_app_r in H2 by lia;
       destruct (r2 - length (skel (heap w))) as [|k]; simpl in H2; done].
    by eapply wf_handles.
  - by apply wf_time.
Qed.

Lemma wf_handleUserSpeaking u w : wf w -> wf (handleUserSpeaking u w).
Proof.
  intros Hwf. unfold handleUserSpeaking.
  destruct (destroyed w) eqn:Hd; [done|].
  destruct (users_get u (users w)) as [r|] eqn:Hget.
  - by apply wf_reset_any, wf_update.
  - apply wf_reset_any. exact (wf_new_user w u Hwf Hd Hget).
Qed.


(** *** Timers firing and time passing *)

Lemma earliest_spec ts t :
  earliest ts = Some t ->
  t ∈ ts /\ forall t', t' ∈ ts -> (deadline t <= deadline t')%Z.
Proof.
  revert t. induction ts as [|a ts IH]; simpl; intros t; [done|].
  destruct (earliest ts) as [b|] eqn:E.
  - destruct (IH b eq_refl) as [Hin Hmin].
    destruct (Z.ltb_spec (deadline b) (deadline a)); intros [= <-].
    + split; [apply elem_of_cons; auto|].
      intros t' [->|Ht']%elem_of_cons; [lia|auto].
    + split; [apply elem_of_cons; auto|].
      intros t' [->|Ht']%elem_of_cons; [lia|].
      specialize (Hmin t' Ht'). lia.
  - intros [= <-]. destruct ts as [|c ts]; [|simpl in E; repeat case_match; done].
    split; [apply elem_of_cons; auto|].
    intros t' [->|Ht']%elem_of_cons; [lia|]. by apply elem_of_nil in Ht'.
Qed.

Lemma earliest_None ts : earliest ts = None -> ts = [].
Proof. destruct ts; simpl; [done|]. repeat case_match; done. Qed.

(** The state in which a fired timer's callback runs. *)
Lemma wf_fired w t :
  wf w -> earliest (timers w) = Some t ->
  wf (set_timers (filter (fun t' => timer_id t' <> timer_id t) (timers w))
        (set_now (Z.max (now w) (deadline t)) w)).
Proof.
  intros Hwf [Ht Hmin]%earliest_spec.
  constructor; simpl; try by apply Hwf.
  - intros Hd. destruct (wf_dead w Hwf Hd) as [-> Hts]. rewrite Hts. done.
  - apply NoDup_fmap_filter, wf_timer_ids, Hwf.
  - intros t' [_ Ht']%list_elem_of_filter. by apply wf_owner.
  - intros t' [_ Ht']%list_elem_of_filter.
    pose proof (wf_time w Hwf t' Ht'). specialize (Hmin t' Ht'). lia.
Qed.

Lemma wf_fire w t : wf w -> earliest (timers w) = Some t -> wf (fire t w).
Proof.
  intros Hwf He. unfold fire.
  exact (wf_on_silence _ _ _ (wf_fired w t Hwf He)).
Qed.

Lemma none_overdue_spec t ts :
  none_overdue t ts = true <-> forall tm, tm ∈ ts -> (t <= deadline tm)%Z.
Proof.
  unfold none_overdue. rewrite forallb_forall. split.
  - intros H tm Htm. apply Z.leb_le, H. by apply list_elem_of_In.
  - intros H tm Htm. apply Z.leb_le, H. by apply list_elem_of_In.
Qed.

Lemma wf_set_now w t :
  wf w -> (forall tm, tm ∈ timers w -> (t <= deadline tm)%Z) -> wf (set_now t w).
Proof. intros Hwf Ht. constructor; simpl; try by apply Hwf. done. Qed.

(** *** Teardown *)

Lemma shape_destroy_user w u r :
  shape (destroy_user w (u, r)) =
  (users w, destroyed w, skel (heap w),
   match heap w !! r with
   | Some s => match silenceTimer s with
               | Some id => filter (fun t => timer_id t <> id) (timers w)
               | None => timers w
               end
   | None => timers w
   end, next_timer w, now w).
Proof.
  unfold destroy_user. destruct (heap w !! r) as [s|]; [|done].
  rewrite shape_add_log.
  rewrite !shape_update by done.
  rewrite shape_flush. by destruct (silenceTimer s).
Qed.

Lemma destroy_loop_shape (m : list (UserId * Ref)) w :
  users (fold_left destroy_user m w) = users w
  /\ destroyed (fold_left destroy_user m w) = destroyed w
  /\ skel (heap (fold_left destroy_user m w)) = skel (heap w)
  /\ next_timer (fold_left destroy_user m w) = next_timer w
  /\ now (fold_left destroy_user m w) = now w.
Proof.
  revert w. induction m as [|[u r] m IH]; intros w; [done|].
  cbn [fold_left].
  destruct (IH (destroy_user w (u, r))) as (H1 & H2 & H3 & H4 & H5).
  pose proof (shape_destroy_user w u r) as Hs. unfold shape in Hs.
  injection Hs as E1 E2 E3 _ E4 E5.
  rewrite H1, H2, H3, H4, H5. done.
Qed.

(** Every pending timer whose handle is stored in an object the loop visits
    is cleared. *)
Lemma destroy_loop_timers (m : list (UserId * Ref)) w :
  (forall t, t ∈ timers w ->
     exists u r u', (u, r) ∈ m
       /\ skel (heap w) !! r = Some (u', Some (timer_id t))) ->
  timers (fold_left destroy_user m w) = [].
Proof.
  revert w. induction m as [|[u r] m IH]; intros w Hown; simpl.
  - destruct (timers w) as [|t ts]; [done|].
    destruct (Hown t) as (? & ? & ? & Hin & _); [apply elem_of_cons; auto|].
    by apply elem_of_nil in Hin.
  - apply IH. intros t Ht.
    pose proof (shape_destroy_user w u r) as Hs. unfold shape in Hs.
    injection Hs as _ _ E3 E4 _ _. rewrite E3. rewrite E4 in Ht.
    assert (t ∈ timers w
            /\ forall u', skel (heap w) !! r <> Some (u', Some (timer_id t)))
      as [Ht0 Hne].
    { unfold skel. rewrite list_lookup_fmap.
      destruct (heap w !! r) as [s|] eqn:Eh; simpl; [|done].
      destruct (silenceTimer s) as [id|] eqn:Es.
      - apply list_elem_of_filter in Ht as [Hid Ht]. split; [done|]. congruence.
      - split; [done|]. congruence. }
    destruct (Hown t Ht0) as (u1 & r1 & u1' & Hin & Hl).
    apply elem_of_cons in Hin as [[= -> ->]|Hin]; [|eauto 6].
    by apply Hne in Hl.
Qed.

Lemma destroy_timers w : wf w -> timers (destroy w) = [].
Proof.
  intros Hwf. unfold destroy. simpl.
  apply destroy_loop_timers. simpl. intros t Ht.
  exists (timer_user t), (timer_ref t), (timer_user t).
  split; [|by apply wf_owner].
  destruct (destroyed w) eqn:Hd.
  - destruct (wf_dead w Hwf Hd) as [_ E]. rewrite E in Ht.
    by apply elem_of_nil in Ht.
  - eapply wf_live; [done..|]. by apply wf_owner.
Qed.

Lemma wf_destroy w : wf w -> wf (destroy w).
Proof.
  intros Hwf. pose proof (destroy_timers w Hwf) as Hts. revert Hts.
  unfold destroy.
  destruct (destroy_loop_shape (users (set_destroyed true w)) (set_destroyed true w))
    as (H1 & H2 & H3 & H4 & H5). simpl in *. intros Hts.
  constructor; simpl; rewrite ?H3, ?H4, ?H5, ?Hts; try by apply Hwf.
  - apply NoDup_nil_2.
  - intros u r Hin. by apply elem_of_nil in Hin.
  - rewrite H2. done.
  - done.
  - apply NoDup_nil_2.
  - intros t Hin. by apply elem_of_nil in Hin.
  - intros t Hin. by apply elem_of_nil in Hin.
Qed.

(** *** Every reachable state is well formed *)

Lemma wf_new env t0 conn guild : wf (new_AudioRecorder env t0 conn guild).
Proof.
  constructor; simpl; try done; try apply NoDup_nil_2.
  - intros u r Hin. by apply elem_of_nil in Hin.
  - intros t Hin. by apply elem_of_nil in Hin.
  - intros t Hin. by apply elem_of_nil in Hin.
Qed.

Lemma wf_step w i : wf w -> wf (step w i).
Proof.
  intros Hwf. destruct i; simpl.
  - by apply wf_handleUserSpeaking.
  - destruct (heap w !! ref); [|done].
    case_match; [by apply wf_on_data | done].
  - destruct (heap w !! ref); [by apply wf_add_log | done].
  - destruct (heap w !! ref); [|done].
    by apply wf_on_close, wf_opus_destroyed.
  - destruct (earliest (timers w)) eqn:E; [by apply wf_fire | done].
  - destruct (Z.leb_spec (now w) t); simpl; [|done].
    destruct (none_overdue t (timers w)) eqn:E; [|done].
    apply wf_set_now; [done|]. by apply none_overdue_spec.
  - by apply wf_upload_settled.
  - by apply wf_destroy.
Qed.

Lemma wf_run inputs w : wf w -> wf (run w inputs).
Proof.
  revert w. induction inputs as [|i inputs IH]; intros w Hwf; simpl; [done|].
  apply IH. by apply wf_step.
Qed.

Lemma reachable_wf w : reachable w -> wf w.
Proof. intros (env & t0 & conn & guild & inputs & ->). apply wf_run, wf_new. Qed.

Lemma reachable_step w i : reachable w -> reachable (step w i).
Proof.
  intros (env & t0 & conn & guild & inputs & ->).
  exists env, t0, conn, guild, (inputs ++ [i]).
  unfold run. by rewrite fold_left_app.
Qed.


(** *** Traces *)

Lemma emits_same P w w' : log w' = log w -> emits P w w'.
Proof. intros H. exists []. by rewrite app_nil_r. Qed.

Lemma emits_trans P w1 w2 w3 : emits P w1 w2 -> emits P w2 w3 -> emits P w1 w3.
Proof.
  intros (l1 & E1 & F1) (l2 & E2 & F2). exists (l1 ++ l2).
  split; [by rewrite E2, E1, app_assoc | by apply Forall_app].
Qed.

Lemma emits_weaken (P Q : Event -> Prop) w w' :
  (forall e, P e -> Q e) -> emits P w w' -> emits Q w w'.
Proof.
  intros H (l & E & F). exists l. split; [done|].
  eapply Forall_impl; eauto.
Qed.

Lemma emits_add_log (P : Event -> Prop) e w : P e -> emits P w (add_log e w).
Proof. intros H. exists [e]. split; [done|]. by apply Forall_singleton. Qed.

Lemma log_reset u w : log (_resetSilenceTimer u w) = log w.
Proof.
  unfold _resetSilenceTimer, setTimeout, clearTimeout.
  repeat case_match; simplify_eq; done.
Qed.

Local Ltac chat := split; [reflexivity | simpl; tauto].

Lemma emits_flush u w : emits (chatter u) w (_flushAndSend u w).
Proof.
  unfold _flushAndSend.
  destruct (users_get u (users w)) as [r|]; [|by apply emits_same].
  destruct (heap w !! r) as [s|]; [|by apply emits_same].
  destruct (audioChunks s) as [|c cs]; [by apply emits_same|].
  assert (forall w0 e, log w0 = log w -> chatter u e ->
            emits (chatter u) w (add_log e w0)) as Hone.
  { intros w0 e E He. apply (emits_trans _ w w0); [by apply emits_same|].
    by apply emits_add_log. }
  assert (forall w0 e1 e2, log w0 = log w -> chatter u e1 -> chatter u e2 ->
            emits (chatter u) w (add_log e2 (add_log e1 w0))) as Htwo.
  { intros w0 e1 e2 E H1 H2.
    apply (emits_trans _ w (add_log e1 w0)); [by apply Hone|].
    by apply emits_add_log. }
  case_match; [apply Htwo; [done | chat | chat]|].
  unfold sendAudioToBackend. simpl.
  destruct (createWavBuffer _ _ _); simpl.
  - eapply emits_trans; [|apply emits_add_log; chat].
    apply Htwo; [done | chat | chat].
  - apply Htwo; [done | chat | chat].
Qed.

Lemma emits_on_data r u c w : emits (chatter u) w (on_data r u c w).
Proof.
  unfold on_data. destruct (destroyed w); [by apply emits_same|].
  eapply emits_trans; [|apply emits_same, log_reset].
  exists [Received u c]. split; [done|]. apply Forall_singleton. chat.
Qed.

Lemma emits_on_silence r u w : emits (chatter u) w (on_silence r u w).
Proof.
  unfold on_silence.
  eapply emits_trans; [|apply emits_flush]. by apply emits_same.
Qed.

Lemma emits_on_close u w : emits (chatter u) w (on_close u w).
Proof.
  unfold on_close.
  eapply emits_trans; [|apply emits_flush]. apply emits_add_log. chat.
Qed.

Lemma emits_fire t w : emits (chatter (timer_user t)) w (fire t w).
Proof.
  unfold fire. eapply emits_trans; [|apply emits_on_silence]. by apply emits_same.
Qed.

Lemma emits_destroy_user w u r :
  emits (chatter u) w (destroy_user w (u, r)).
Proof.
  unfold destroy_user. destruct (heap w !! r) as [s|]; [|by apply emits_same].
  eapply emits_trans; [|apply emits_add_log; chat].
  eapply emits_trans; [|by apply emits_same].
  eapply emits_trans; [|by apply emits_same].
  eapply emits_trans; [|apply emits_flush].
  destruct (silenceTimer s); by apply emits_same.
Qed.

Lemma emits_destroy w : emits (fun e => ~ is_Subscribe e) w (destroy w).
Proof.
  unfold destroy.
  eapply emits_trans; [|by apply emits_same].
  eapply emits_trans; [apply (emits_same _ w (set_destroyed true w)); done|].
  generalize (users (set_destroyed true w)) as m.
  generalize (set_destroyed true w) as w0. clear w.
  intros w0 m. revert w0.
  induction m as [|[u r] m IH]; intros w0; simpl; [by apply emits_same|].
  eapply emits_trans; [|apply IH].
  eapply emits_weaken; [|apply emits_destroy_user]. by intros e [_ ?].
Qed.

Lemma emits_upload_settled u ok w : emits (chatter u) w (upload_settled u ok w).
Proof. unfold upload_settled. destruct ok; apply emits_add_log; chat. Qed.

(** The observers distribute over the extension of a trace. *)
Lemma flushes_of_app u l1 l2 :
  flushes_of u (l1 ++ l2) = flushes_of u l1 ++ flushes_of u l2.
Proof.
  induction l1 as [|e l1 IH]; simpl; [done|].
  destruct e; try done. case_decide; simpl; by rewrite IH.
Qed.

Lemma received_of_app u l1 l2 :
  received_of u (l1 ++ l2) = received_of u l1 ++ received_of u l2.
Proof.
  induction l1 as [|e l1 IH]; simpl; [done|].
  destruct e; try done. case_decide; simpl; by rewrite IH.
Qed.

Lemma uploads_of_app u l1 l2 :
  uploads_of u (l1 ++ l2) = uploads_of u l1 ++ uploads_of u l2.
Proof.
  induction l1 as [|e l1 IH]; simpl; [done|].
  destruct e; try done. case_decide; simpl; by rewrite IH.
Qed.

Lemma subscriptions_of_app u l1 l2 :
  subscriptions_of u (l1 ++ l2) = subscriptions_of u l1 + subscriptions_of u l2.
Proof.
  induction l1 as [|e l1 IH]; simpl; [done|].
  destruct e; try done. case_decide; simpl; by rewrite IH.
Qed.

Lemma subscriptions_of_quiet u l :
  Forall (fun e => ~ is_Subscribe e) l -> subscriptions_of u l = 0.
Proof.
  induction 1 as [|e l He _ IH]; simpl; [done|].
  destruct e; simpl in *; done.
Qed.

Lemma flushes_of_other u l :
  Forall (fun e => event_user e <> u) l -> flushes_of u l = [].
Proof.
  induction 1 as [|e l He _ IH]; simpl; [done|].
  destruct e; simpl in *; try done. by rewrite decide_False.
Qed.




(** *** One timer per speaker *)

Lemma length_le_1_same_image {A B} (f : A -> B) (l : list A) :
  NoDup (f <$> l) -> (forall x y, x ∈ l -> y ∈ l -> f x = f y) -> length l <= 1.
Proof.
  destruct l as [|a [|b l]]; simpl; [lia | lia |].
  intros Hnd Hsame. exfalso.
  apply NoDup_cons in Hnd as [Hnotin _]. apply Hnotin.
  assert (a ∈ a :: b :: l) as Ha by (apply elem_of_cons; auto).
  assert (b ∈ a :: b :: l) as Hb
    by (apply elem_of_cons; right; apply elem_of_cons; auto).
  rewrite (Hsame a b Ha Hb). apply elem_of_cons; auto.
Qed.

Lemma wf_one_timer w u : wf w -> length (timers_of u w) <= 1.
Proof.
  intros Hwf. unfold timers_of.
  apply (length_le_1_same_image timer_id).
  - apply NoDup_fmap_filter, wf_timer_ids, Hwf.
  - intros t1 t2 [Hu1 Ht1]%list_elem_of_filter [Hu2 Ht2]%list_elem_of_filter.
    pose proof (wf_owner w Hwf t1 Ht1) as H1.
    pose proof (wf_owner w Hwf t2 Ht2) as H2.
    rewrite Hu1 in H1. rewrite Hu2 in H2.
    assert (timer_ref t1 = timer_ref t2) as Hr by (eapply wf_same_user; eauto).
    rewrite Hr in H1. congruence.
Qed.

Lemma filter_filter_neg {A} (P : A -> Prop) `{!forall x, Decision (P x)}
  (l : list A) : filter P (filter (fun x => ~ P x) l) = [].
Proof.
  induction l as [|x l IH]; [done|].
  rewrite (filter_cons (fun x => ~ P x)). case_decide; [|done].
  by rewrite filter_cons_False.
Qed.

Lemma timers_of_reset w u r :
  wf w -> users_get u (users w) = Some r ->
  timers_of u (_resetSilenceTimer u w) = [silence_timer u r w].
Proof.
  intros Hwf Hget. rewrite (reset_spec w u r Hwf Hget).
  unfold timers_of, reset_timers. simpl.
  rewrite filter_app, (filter_filter_neg (fun t => timer_user t = u)).
  by rewrite filter_cons_True, filter_nil.
Qed.

Lemma timers_of_on_data w u r s c :
  wf w -> destroyed w = false -> heap w !! r = Some s -> userId s = u ->
  timers_of u (on_data r u c w) = [silence_timer u r w].
Proof.
  intros Hwf Hd Hh Hu. unfold on_data. rewrite Hd.
  match goal with |- timers_of u (_resetSilenceTimer u ?w0) = _ =>
    assert (wf w0) as Hwf0
      by (apply wf_update, wf_add_log, wf_update; done);
    assert (users_get u (users w0) = Some r) as Hget0
  end.
  { simpl. eapply wf_users_get_live; [done..|].
    apply skel_lookup. eauto. }
  by rewrite (timers_of_reset _ u r Hwf0 Hget0).
Qed.

Lemma timers_of_handleUserSpeaking w u :
  wf w -> destroyed w = false ->
  exists r, users_get u (users (handleUserSpeaking u w)) = Some r
            /\ timers_of u (handleUserSpeaking u w) = [silence_timer u r w].
Proof.
  intros Hwf Hd. unfold handleUserSpeaking. rewrite Hd.
  destruct (users_get u (users w)) as [r|] eqn:Hget.
  - exists r.
    assert (wf (update r (set_isSpeaking true) w)) as Hwf0 by by apply wf_update.
    split.
    + by rewrite (reset_spec _ u r Hwf0 Hget).
    + exact (timers_of_reset _ u r Hwf0 Hget).
  - exists (length (heap w)).
    pose proof (wf_new_user w u Hwf Hd Hget) as Hwf0.
    match type of Hwf0 with wf ?w0 =>
      assert (users_get u (users w0) = Some (length (heap w))) as Hget0
    end.
    { apply users_get_Some; [by apply wf_keys|]. simpl.
      apply elem_of_app. right. by apply list_elem_of_singleton. }
    split.
    + etrans; [|exact Hget0]. f_equal.
      etrans; [exact (f_equal users (reset_spec _ u _ Hwf0 Hget0))|done].
    + exact (timers_of_reset _ u _ Hwf0 Hget0).
Qed.

(** C7.  In every state a recorder can reach, each speaker has at most one
    pending silence timer; and whenever a chunk arrives for a tracked speaker
    or a speaker-started signal is handled, the speaker's previous timer is
    gone and the one freshly installed timer is all that is pending for that
    speaker, however many such calls have been made. *)
Theorem at_most_one_live_timer (env : option Z) (t0 : Z) (conn : nat)
  (guild : GuildId) (inputs : list Input) (u : UserId) :
  let w := run (new_AudioRecorder env t0 conn guild) inputs in
  length (timers_of u w) <= 1
  /\ (forall r s chunk,
        destroyed w = false -> heap w !! r = Some s -> userId s = u ->
        timers_of u (on_data r u chunk w) = [silence_timer u r w])
  /\ (destroyed w = false ->
      exists r, timers_of u (handleUserSpeaking u w) = [silence_timer u r w]).
Proof.
  intros w.
  assert (wf w) as Hwf by apply wf_run, wf_new.
  split_and!.
  - by apply wf_one_timer.
  - intros r s chunk Hd Hh Hu. by eapply timers_of_on_data.
  - intros Hd. destruct (timers_of_handleUserSpeaking w u Hwf Hd) as (r & _ & H).
    eauto.
Qed.


Lemma at_most_one_live_timer_witness :
  length (timers_of "alice"
            (run (new_AudioRecorder None 0 0 "guild")
               [SpeakingStart "alice"; DecoderData 0 [1; 2; 3; 4]%Z;
                SpeakingStart "alice"; DecoderData 0 [5; 6]%Z])) <= 1.
Proof.
  exact (proj1 (at_most_one_live_timer None 0 0 "guild"
                  [SpeakingStart "alice"; DecoderData 0 [1; 2; 3; 4]%Z;
                   SpeakingStart "alice"; DecoderData 0 [5; 6]%Z] "alice")).
Defined.

(** *** One subscription per speaker *)

Lemma objects_skel w : objects w = (skel (heap w)).*1.
Proof. unfold objects, skel. by rewrite <- list_fmap_compose. Qed.

Lemma objects_of_shape w w' : shape w' = shape w -> objects w' = objects w.
Proof. unfold shape. intros [= _ _ Hs _ _ _]. by rewrite !objects_skel, Hs. Qed.

Lemma objects_reset u w : objects (_resetSilenceTimer u w) = objects w.
Proof.
  unfold _resetSilenceTimer, setTimeout, clearTimeout.
  repeat case_match; simplify_eq; try done;
    rewrite !objects_skel; simpl; by rewrite skel_set_timer_fst.
Qed.

Lemma objects_on_data r u c w : objects (on_data r u c w) = objects w.
Proof.
  unfold on_data. destruct (destroyed w); [done|].
  rewrite objects_reset. apply objects_of_shape.
  rewrite shape_update, shape_add_log, shape_update; done.
Qed.

Lemma objects_fire t w : objects (fire t w) = objects w.
Proof.
  unfold fire, on_silence.
  etrans; [apply objects_of_shape, shape_flush|].
  etrans; [apply objects_of_shape, shape_update; done|]. done.
Qed.

Lemma objects_destroy w : objects (destroy w) = objects w.
Proof.
  unfold destroy. rewrite !objects_skel. simpl.
  by destruct (destroy_loop_shape (users w) (set_destroyed true w))
    as (_ & _ & -> & _).
Qed.

Lemma count_NoDup {A} `{!EqDecision A} (l : list A) (x : A) :
  NoDup l -> length (filter (fun y => y = x) l) <= 1.
Proof.
  intros Hnd. apply (length_le_1_same_image id).
  - rewrite list_fmap_id. by apply NoDup_filter.
  - intros a b [-> _]%list_elem_of_filter [-> _]%list_elem_of_filter. done.
Qed.

Lemma count_NoDup_elem {A} `{!EqDecision A} (l : list A) (x : A) :
  NoDup l -> x ∈ l -> length (filter (fun y => y = x) l) = 1.
Proof.
  intros Hnd Hin. pose proof (count_NoDup l x Hnd).
  assert (x ∈ filter (fun y => y = x) l) as Hx by by apply list_elem_of_filter.
  destruct (filter (fun y => y = x) l); [by apply elem_of_nil in Hx|simpl in *; lia].
Qed.

Lemma subscriptions_match_quiet w w' :
  objects w' = objects w -> emits (fun e => ~ is_Subscribe e) w w' ->
  subscriptions_match w -> subscriptions_match w'.
Proof.
  intros Ho (l & El & Hl) Hm u.
  rewrite El, subscriptions_of_app, Ho, (subscriptions_of_quiet u l Hl), Hm. lia.
Qed.

Lemma chatter_quiet u w w' :
  emits (chatter u) w w' -> emits (fun e => ~ is_Subscribe e) w w'.
Proof. apply emits_weaken. by intros e [_ ?]. Qed.

Lemma subscriptions_match_handle u w :
  subscriptions_match w -> subscriptions_match (handleUserSpeaking u w).
Proof.
  intros Hm. unfold handleUserSpeaking.
  destruct (destroyed w); [done|].
  destruct (users_get u (users w)) as [r|] eqn:Hget.
  - apply (subscriptions_match_quiet w).
    + rewrite objects_reset. apply objects_of_shape. by apply shape_update.
    + apply emits_same. by rewrite log_reset.
    + done.
  - intros u'. rewrite log_reset, objects_reset. simpl.
    unfold objects. simpl. rewrite subscriptions_of_app, fmap_app, filter_app.
    rewrite length_app. fold (objects w). rewrite <- Hm. f_equal.
    simpl. rewrite filter_cons. destruct (decide (u = u')); done.
Qed.

Lemma subscriptions_match_step w i :
  subscriptions_match w -> subscriptions_match (step w i).
Proof.
  intros Hm. destruct i; simpl.
  - by apply subscriptions_match_handle.
  - destruct (heap w !! ref); [|done]. case_match; [|done].
    apply (subscriptions_match_quiet w);
      [apply objects_on_data | eapply chatter_quiet, emits_on_data | done].
  - destruct (heap w !! ref) as [s|]; [|done].
    apply (subscriptions_match_quiet w); [done | | done].
    apply emits_add_log. simpl. tauto.
  - destruct (heap w !! ref); [|done].
    apply (subscriptions_match_quiet w);
      [| eapply chatter_quiet, (emits_on_close _ (opus_destroyed ref w)) | done].
    unfold on_close. apply objects_of_shape.
    by rewrite shape_flush, shape_add_log, shape_opus_destroyed.
  - destruct (earliest (timers w)); [|done].
    apply (subscriptions_match_quiet w);
      [apply objects_fire | eapply chatter_quiet, emits_fire | done].
  - case_match; [|done].
    apply (subscriptions_match_quiet w); [done | by apply emits_same | done].
  - apply (subscriptions_match_quiet w);
      [| eapply chatter_quiet, emits_upload_settled | done].
    unfold upload_settled. by destruct ok.
  - apply (subscriptions_match_quiet w);
      [apply objects_destroy | apply emits_destroy | done].
Qed.

Lemma subscriptions_match_run inputs w :
  subscriptions_match w -> subscriptions_match (run w inputs).
Proof.
  revert w. induction inputs as [|i inputs IH]; intros w Hm; simpl; [done|].
  by apply IH, subscriptions_match_step.
Qed.

Lemma handleUserSpeaking_registered w u r :
  wf w -> users_get u (users w) = Some r ->
  handleUserSpeaking u w
  = _resetSilenceTimer u (update r (set_isSpeaking true) w).
Proof.
  intros Hwf Hget. unfold handleUserSpeaking.
  destruct (wf_users_get w u r Hwf Hget) as [-> _]. by rewrite Hget.
Qed.

Lemma log_handleUserSpeaking u w :
  log (handleUserSpeaking u w)
  = log w ++ (if destroyed w then []
              else match users_get u (users w) with
                   | Some _ => []
                   | None => [Subscribe u]
                   end).
Proof.
  unfold handleUserSpeaking. destruct (destroyed w); [by rewrite app_nil_r|].
  destruct (users_get u (users w)); rewrite log_reset; simpl;
    by rewrite ?app_nil_r.
Qed.

Lemma log_step w i : exists l, log (step w i) = log w ++ l.
Proof.
  assert (forall P w', emits P w w' -> exists l, log w' = log w ++ l) as He
    by (intros P w' (l & ? & _); eauto).
  destruct i; cbn [step].
  - rewrite log_handleUserSpeaking. eauto.
  - destruct (heap w !! ref); [|exists []; by rewrite app_nil_r].
    case_match; [|exists []; by rewrite app_nil_r].
    eapply He, emits_on_data.
  - destruct (heap w !! ref); [|exists []; by rewrite app_nil_r].
    unfold on_error. simpl. eauto.
  - destruct (heap w !! ref); [|exists []; by rewrite app_nil_r].
    apply (He (chatter (userId u))).
    eapply emits_trans; [|apply emits_on_close]. by apply emits_same.
  - destruct (earliest (timers w)); [|exists []; by rewrite app_nil_r].
    eapply He, emits_fire.
  - case_match; exists []; by rewrite app_nil_r.
  - eapply He, emits_upload_settled.
  - eapply He, emits_destroy.
Qed.

Lemma log_run inputs w : exists l, log (run w inputs) = log w ++ l.
Proof.
  revert w. induction inputs as [|i inputs IH]; intros w; simpl.
  - exists []. by rewrite app_nil_r.
  - destruct (IH (step w i)) as [l2 ->]. destruct (log_step w i) as [l1 ->].
    exists (l1 ++ l2). by rewrite app_assoc.
Qed.

(** C8.  A recorder that has not been destroyed handles a speaker-started
    signal, after any history.  The speaker is registered afterwards, and
    from then on, whatever follows (further speaker-started signals
    included), the trace holds exactly one subscription to the speaker's
    stream.  The signal for a speaker not yet registered is the one that
    subscribes.  The signal for a registered speaker, who has exactly one
    subscription already, adds nothing to the trace, allocates no state
    object and leaves the registry as it is: in the speaker's state object
    it sets the activity flag and stores the new timer handle, and the
    speaker's previous timer is replaced by one due an (effective) quiet
    period from now. *)
Theorem no_duplicate_subscription (env : option Z) (t0 : Z) (conn : nat)
  (guild : GuildId) (inputs : list Input) (u : UserId) :
  let w := run (new_AudioRecorder env t0 conn guild) inputs in
  destroyed w = false ->
  let w1 := handleUserSpeaking u w in
  (exists r, users_get u (users w1) = Some r)
  /\ (forall more, subscriptions_of u (log (run w1 more)) = 1)
  /\ (users_get u (users w) = None ->
      subscriptions_of u (log w) = 0 /\ log w1 = log w ++ [Subscribe u])
  /\ (forall r s, users_get u (users w) = Some r -> heap w !! r = Some s ->
        subscriptions_of u (log w) = 1
        /\ log w1 = log w
        /\ users w1 = users w
        /\ length (heap w1) = length (heap w)
        /\ heap w1 !! r
           = Some (set_silenceTimer (Some (next_timer w)) (set_isSpeaking true s))
        /\ timers w1 = reset_timers u r w).
Proof.
  intros w Hd w1.
  assert (wf w) as Hwf by apply wf_run, wf_new.
  assert (subscriptions_match w) as Hm
    by (apply subscriptions_match_run; intros u'; done).
  assert (forall w', wf w' -> subscriptions_match w' ->
            subscriptions_of u (log w') <= 1) as Hle.
  { intros w' Hwf' Hm'. rewrite Hm'. apply count_NoDup.
    rewrite objects_skel. by apply wf_objects. }
  assert (forall w' r, wf w' -> subscriptions_match w' ->
            users_get u (users w') = Some r ->
            subscriptions_of u (log w') = 1) as Hone.
  { intros w' r Hwf' Hm' Hget. rewrite Hm'. apply count_NoDup_elem.
    - rewrite objects_skel. by apply wf_objects.
    - destruct (wf_users_get w' u r Hwf' Hget) as (_ & st & Hs).
      rewrite objects_skel. apply list_elem_of_fmap. exists (u, st).
      split; [done|]. by eapply list_elem_of_lookup_2. }
  assert (wf w1) as Hwf1 by by apply wf_handleUserSpeaking.
  assert (subscriptions_match w1) as Hm1 by by apply subscriptions_match_handle.
  destruct (timers_of_handleUserSpeaking w u Hwf Hd) as (r1 & Hget1 & _).
  fold w1 in Hget1.
  split; [by exists r1|]. split; [|split].
  - intros more.
    pose proof (Hle (run w1 more) (wf_run more w1 Hwf1)
                  (subscriptions_match_run more w1 Hm1)) as Hupper.
    destruct (log_run more w1) as [l Hl]. rewrite Hl in Hupper |- *.
    rewrite subscriptions_of_app in Hupper |- *.
    rewrite (Hone w1 r1 Hwf1 Hm1 Hget1) in Hupper |- *. lia.
  - intros Hnone. unfold w1. rewrite log_handleUserSpeaking, Hd, Hnone.
    split; [|done].
    pose proof (Hone w1 r1 Hwf1 Hm1 Hget1) as H1. unfold w1 in H1.
    rewrite log_handleUserSpeaking, Hd, Hnone, subscriptions_of_app in H1.
    simpl in H1. rewrite decide_True in H1 by done. lia.
  - intros r s Hget Hh.
    assert (w1 = _resetSilenceTimer u (update r (set_isSpeaking true) w)) as Hw1
      by by apply handleUserSpeaking_registered.
    assert (wf (update r (set_isSpeaking true) w)) as Hwf0 by by apply wf_update.
    assert (log w1 = log w) as Hlog by (rewrite Hw1, log_reset; done).
    split_and!.
    + by apply (Hone w r).
    + done.
    + rewrite Hw1, (reset_spec _ u r Hwf0 Hget). done.
    + rewrite Hw1, (reset_spec _ u r Hwf0 Hget). simpl.
      by rewrite !length_alter.
    + rewrite Hw1, (reset_spec _ u r Hwf0 Hget). simpl.
      rewrite !list_lookup_alter_eq, Hh. done.
    + rewrite Hw1, (reset_spec _ u r Hwf0 Hget). done.
Qed.

Lemma no_duplicate_subscription_witness :
  subscriptions_of "alice"
    (log (run (handleUserSpeaking "alice"
                 (run (new_AudioRecorder None 0 0 "guild")
                    [SpeakingStart "bob"; DecoderData 0 [1; 2; 3; 4]%Z]))
            [SpeakingStart "alice"; DecoderData 1 [5; 6]%Z;
             SpeakingStart "alice"; TimerFires; SpeakingStart "alice"])) = 1.
Proof.
  assert (destroyed (run (new_AudioRecorder None 0 0 "guild")
                       [SpeakingStart "bob"; DecoderData 0 [1; 2; 3; 4]%Z])
          = false) as Hd by (vm_compute; reflexivity).
  exact (proj1 (proj2 (no_duplicate_subscription None 0 0 "guild"
                         [SpeakingStart "bob"; DecoderData 0 [1; 2; 3; 4]%Z]
                         "alice" Hd))
           [SpeakingStart "alice"; DecoderData 1 [5; 6]%Z;
            SpeakingStart "alice"; TimerFires; SpeakingStart "alice"]).
Defined.

Example three_signals_one_subscription :
  subscriptions_of "alice"
    (log (run (new_AudioRecorder None 0 0 "guild")
            [SpeakingStart "alice"; SpeakingStart "alice";
             DecoderData 0 [1; 2; 3; 4]%Z; SpeakingStart "alice"])) = 1.
Proof. vm_compute. reflexivity. Qed.

(** *** Flushing *)

Lemma flush_noop u w :
  (forall r s, users_get u (users w) = Some r -> heap w !! r = Some s ->
               audioChunks s = []) ->
  _flushAndSend u w = w.
Proof.
  intros H. unfold _flushAndSend.
  destruct (users_get u (users w)) as [r|]; [|done].
  destruct (heap w !! r) as [s|] eqn:E; [|done].
  by rewrite (H r s eq_refl E).
Qed.

Lemma alter_fixed {A} (f : A -> A) (l : list A) i x :
  l !! i = Some x -> f x = x -> alter f i l = l.
Proof.
  intros Hl Hf. apply list_eq. intros j.
  destruct (decide (i = j)) as [<-|Hne].
  - rewrite list_lookup_alter_eq, Hl. simpl. by rewrite Hf.
  - by rewrite list_lookup_alter_ne.
Qed.

Lemma flush_heap u w r s :
  users_get u (users w) = Some r -> heap w !! r = Some s ->
  heap (_flushAndSend u w) = alter (set_audioChunks []) r (heap w).
Proof.
  intros Hget Hh. unfold _flushAndSend. rewrite Hget, Hh.
  destruct (audioChunks s) as [|c cs] eqn:E.
  - symmetry. eapply alter_fixed; [done|].
    destruct s; simpl in *; by subst.
  - repeat case_match; done.
Qed.

Lemma flush_buffer u w r s :
  users_get u (users w) = Some r -> heap w !! r = Some s ->
  heap (_flushAndSend u w) !! r = Some (set_audioChunks [] s).
Proof.
  intros Hget Hh. rewrite (flush_heap u w r s Hget Hh).
  by rewrite list_lookup_alter_eq, Hh.
Qed.

Lemma flush_users u w : users (_flushAndSend u w) = users w.
Proof. pose proof (shape_flush u w) as H. unfold shape in H. congruence. Qed.

Lemma flush_timers u w : timers (_flushAndSend u w) = timers w.
Proof. pose proof (shape_flush u w) as H. unfold shape in H. congruence. Qed.

Lemma flush_now u w : now (_flushAndSend u w) = now w.
Proof. pose proof (shape_flush u w) as H. unfold shape in H. congruence. Qed.

Lemma flush_destroyed u w : destroyed (_flushAndSend u w) = destroyed w.
Proof. pose proof (shape_flush u w) as H. unfold shape in H. congruence. Qed.

Lemma flush_leaves_empty u w r s :
  users_get u (users w) = Some r ->
  heap (_flushAndSend u w) !! r = Some s -> audioChunks s = [].
Proof.
  intros Hget Hh. destruct (heap w !! r) as [s0|] eqn:E.
  - rewrite (flush_buffer u w r s0 Hget E) in Hh. by injection Hh as <-.
  - assert (_flushAndSend u w = w) as Hw
      by (unfold _flushAndSend; by rewrite Hget, E).
    rewrite Hw in Hh. congruence.
Qed.

Lemma flush_idempotent u w :
  _flushAndSend u (_flushAndSend u w) = _flushAndSend u w.
Proof.
  apply flush_noop. intros r s. rewrite flush_users. apply flush_leaves_empty.
Qed.



(** The events of a flush that drains a buffer. *)
Lemma flush_log u w r s :
  users_get u (users w) = Some r -> heap w !! r = Some s ->
  audioChunks s <> [] ->
  log (_flushAndSend u w) =
  log w ++ Flushed u (now w) (concat (audioChunks s))
        :: if (Z.of_nat (length (concat (audioChunks s))) <? minBytes)%Z
           then [Skipped u (length (concat (audioChunks s)))]
           else
             let args :=
               {| sa_userId := u; sa_guildId := guildId w;
                  sa_pcmBuffer := concat (audioChunks s);
                  sa_sampleRate := SAMPLE_RATE; sa_channels := CHANNELS;
                  sa_durationMs :=
                    durationMs_of (length (concat (audioChunks s))) |} in
             SendAudio args ::
             match sendAudioToBackend args (now w) with
             | Ok form => [Post form]
             | RangeError => []
             end.
Proof.
  intros Hget Hh Hne. unfold _flushAndSend. rewrite Hget, Hh.
  destruct (audioChunks s) as [|c cs] eqn:E; [done|].
  case_match; simpl; [by rewrite <- app_assoc|].
  case_match; simpl; by rewrite <- !app_assoc.
Qed.

Lemma flush_flushes u w r s :
  users_get u (users w) = Some r -> heap w !! r = Some s ->
  audioChunks s <> [] ->
  flushes_of u (log (_flushAndSend u w))
  = flushes_of u (log w) ++ [(now w, concat (audioChunks s))].
Proof.
  intros Hget Hh Hne. rewrite (flush_log u w r s Hget Hh Hne).
  rewrite flushes_of_app. cbn [flushes_of]. rewrite decide_True by done.
  do 2 f_equal. case_match; [done|].
  cbn [flushes_of]. by case_match.
Qed.

(** C3.  The floor is [sampleRate * channels * 2 / 10 = 19200] bytes.  A
    flush that drains fewer bytes logs the skip and nothing else: no call of
    [sendAudioToBackend], no request, and the flush completes normally.  A
    flush that drains at least that many bytes calls [sendAudioToBackend]
    exactly once, with the drained buffer and the recorder's format; the
    call encodes the buffer and, for a buffer that fits the container's size
    field, issues exactly one request carrying the container. *)
Theorem minimum_duration_floor (w : World) (u : UserId) (r : Ref)
  (s : UserState) :
  users_get u (users w) = Some r -> heap w !! r = Some s ->
  audioChunks s <> [] ->
  let pcm := concat (audioChunks s) in
  let w' := _flushAndSend u w in
  minBytes = (SAMPLE_RATE * CHANNELS * 2 / 10)%Z /\ minBytes = 19200%Z
  /\ ((Z.of_nat (length pcm) < minBytes)%Z ->
        log w' = log w ++ [Flushed u (now w) pcm; Skipped u (length pcm)]
        /\ uploads_of u (log w') = uploads_of u (log w))
  /\ ((minBytes <= Z.of_nat (length pcm))%Z ->
        exists args posts,
          log w' = log w ++ [Flushed u (now w) pcm; SendAudio args] ++ posts
          /\ uploads_of u (log w') = uploads_of u (log w) ++ [args]
          /\ sa_userId args = u /\ sa_guildId args = guildId w
          /\ sa_pcmBuffer args = pcm
          /\ sa_sampleRate args = 48000%Z /\ sa_channels args = 2%Z
          /\ posts = match sendAudioToBackend args (now w) with
                     | Ok form => [Post form]
                     | RangeError => []
                     end
          /\ ((36 + Z.of_nat (length pcm) <= 4294967295)%Z ->
              exists form,
                posts = [Post form]
                /\ form_audio form = wav_header 48000 2 (length pcm) ++ pcm)).
Proof.
  intros Hget Hh Hne pcm w'.
  pose proof (flush_log u w r s Hget Hh Hne) as Hlog.
  fold pcm in Hlog. fold w' in Hlog.
  split; [reflexivity|]. split; [reflexivity|]. split.
  - intros Hlt. apply Z.ltb_lt in Hlt. rewrite Hlt in Hlog.
    split; [done|]. rewrite Hlog, uploads_of_app. simpl. by rewrite app_nil_r.
  - intros Hge. apply Z.ltb_ge in Hge. rewrite Hge in Hlog.
    eexists _, _. split; [exact Hlog|].
    split.
    { rewrite Hlog, uploads_of_app. simpl. rewrite decide_True by done.
      f_equal. f_equal. unfold sendAudioToBackend. simpl.
      by destruct (createWavBuffer _ _ _). }
    split_and!; try reflexivity.
    intros Hfit. unfold sendAudioToBackend. simpl.
    rewrite createWavBuffer_ok; [| unfold SAMPLE_RATE, CHANNELS; lia..|done].
    simpl. eexists. split; reflexivity.
Qed.

Lemma minimum_duration_floor_witness :
  log (_flushAndSend "alice" demo_buffered)
  = log demo_buffered
    ++ [Flushed "alice" (now demo_buffered) (concat (audioChunks demo_state));
        Skipped "alice" (length (concat (audioChunks demo_state)))]
  /\ uploads_of "alice" (log (_flushAndSend "alice" demo_buffered))
     = uploads_of "alice" (log demo_buffered).
Proof.
  assert (users_get "alice" (users demo_buffered) = Some 0) as H1
    by (vm_compute; reflexivity).
  assert (heap demo_buffered !! 0 = Some demo_state) as H2
    by (vm_compute; reflexivity).
  assert (audioChunks demo_state <> []) as H3 by discriminate.
  destruct (minimum_duration_floor demo_buffered "alice" 0 demo_state H1 H2 H3)
    as (_ & _ & Hshort & _).
  apply Hshort. vm_compute. reflexivity.
Defined.

(** *** Teardown, again *)

Lemma destroy_done w : users w = [] -> destroyed w = true -> destroy w = w.
Proof. intros Hu Hd. unfold destroy. destruct w; simpl in *; by subst. Qed.

Lemma destroy_users w : users (destroy w) = [].
Proof. done. Qed.

Lemma destroy_destroyed w : destroyed (destroy w) = true.
Proof.
  unfold destroy. simpl.
  by destruct (destroy_loop_shape (users w) (set_destroyed true w))
    as (_ & -> & _).
Qed.

(** C6.  A second [destroy()] on a recorder is a no-op: the state, and with
    it the trace of flushes and uploads, is the one the first call left. *)
Theorem destroy_idempotent (w : World) : destroy (destroy w) = destroy w.
Proof. apply destroy_done; [apply destroy_users | apply destroy_destroyed]. Qed.

(** *** A chunk arrives *)

Lemma reset_fields u w :
  users (_resetSilenceTimer u w) = users w
  /\ destroyed (_resetSilenceTimer u w) = destroyed w
  /\ now (_resetSilenceTimer u w) = now w
  /\ SILENCE_DURATION_MS (_resetSilenceTimer u w) = SILENCE_DURATION_MS w
  /\ guildId (_resetSilenceTimer u w) = guildId w.
Proof.
  unfold _resetSilenceTimer, setTimeout, clearTimeout.
  repeat case_match; simplify_eq; done.
Qed.

Lemma reset_chunks u w r :
  audioChunks <$> heap (_resetSilenceTimer u w) !! r
  = audioChunks <$> heap w !! r.
Proof.
  assert (forall x r0 (h : list UserState),
            audioChunks <$> alter (set_silenceTimer x) r0 h !! r
            = audioChunks <$> h !! r) as Halter.
  { intros x r0 h. destruct (decide (r0 = r)) as [->|Hne].
    - rewrite list_lookup_alter_eq. by destruct (h !! r).
    - by rewrite list_lookup_alter_ne. }
  unfold _resetSilenceTimer, setTimeout, clearTimeout.
  repeat case_match; simplify_eq; simpl; by rewrite ?Halter.
Qed.

Lemma on_data_live r u c w :
  destroyed w = false ->
  on_data r u c w
  = _resetSilenceTimer u
      (update r (set_isSpeaking true)
         (add_log (Received u c)
            (update r (fun s => set_audioChunks (audioChunks s ++ [c]) s) w))).
Proof. intros Hd. unfold on_data. by rewrite Hd. Qed.

Lemma on_data_fields r u c w :
  users (on_data r u c w) = users w
  /\ destroyed (on_data r u c w) = destroyed w
  /\ now (on_data r u c w) = now w
  /\ SILENCE_DURATION_MS (on_data r u c w) = SILENCE_DURATION_MS w
  /\ guildId (on_data r u c w) = guildId w.
Proof.
  unfold on_data. destruct (destroyed w) eqn:Hd; [done|].
  match goal with |- context [_resetSilenceTimer u ?w0] =>
    destruct (reset_fields u w0) as (-> & -> & -> & -> & ->) end.
  done.
Qed.

Lemma on_data_log r u c w :
  destroyed w = false -> log (on_data r u c w) = log w ++ [Received u c].
Proof. intros Hd. rewrite on_data_live by done. by rewrite log_reset. Qed.

Lemma on_data_chunks r u c w s :
  destroyed w = false -> heap w !! r = Some s ->
  audioChunks <$> heap (on_data r u c w) !! r = Some (audioChunks s ++ [c]).
Proof.
  intros Hd Hh. rewrite on_data_live by done. rewrite reset_chunks. simpl.
  by rewrite !list_lookup_alter_eq, Hh.
Qed.

Lemma upload_settled_fields u ok w :
  users (upload_settled u ok w) = users w
  /\ destroyed (upload_settled u ok w) = destroyed w
  /\ now (upload_settled u ok w) = now w
  /\ heap (upload_settled u ok w) = heap w
  /\ timers (upload_settled u ok w) = timers w
  /\ flushes_of u (log (upload_settled u ok w)) = flushes_of u (log w)
  /\ uploads_of u (log (upload_settled u ok w)) = uploads_of u (log w).
Proof.
  unfold upload_settled.
  destruct ok; simpl; rewrite flushes_of_app, uploads_of_app; simpl;
    by rewrite !app_nil_r.
Qed.

(** *** What a flush leaves of a session *)

Lemma wf_refs w : wf w -> NoDup (users w).*2.
Proof.
  intros Hwf. apply NoDup_fmap_2_strong.
  - intros [u1 r1] [u2 r2] H1 H2. simpl. intros <-.
    destruct (wf_entry w Hwf u1 r1 H1) as [st1 E1].
    destruct (wf_entry w Hwf u2 r1 H2) as [st2 E2].
    congruence.
  - eapply NoDup_fmap_1, wf_keys, Hwf.
Qed.

Lemma destroy_user_heap w u r s r' :
  users_get u (users w) = Some r -> heap w !! r' = Some s ->
  users (destroy_user w (u, r)) = users w
  /\ heap (destroy_user w (u, r)) !! r'
     = Some (if decide (r' = r) then torn_down s else s).
Proof.
  intros Hget Hh. unfold destroy_user.
  destruct (heap w !! r) as [s0|] eqn:E.
  - set (w0 := match silenceTimer s0 with
               | Some t => clearTimeout t w
               | None => w
               end).
    assert (users w0 = users w /\ heap w0 = heap w) as [Hu0 Hh0]
      by (unfold w0; by destruct (silenceTimer s0)).
    assert (users_get u (users w0) = Some r) as Hget0 by by rewrite Hu0.
    assert (heap w0 !! r = Some s0) as E0 by by rewrite Hh0.
    simpl. rewrite flush_users. split; [done|].
    rewrite (flush_heap u w0 r s0 Hget0 E0), Hh0.
    destruct (decide (r' = r)) as [->|Hne].
    + rewrite !list_lookup_alter_eq, E. simpl.
      assert (s0 = s) as -> by congruence. done.
    + by rewrite !list_lookup_alter_ne.
  - split; [done|]. rewrite Hh. f_equal.
    destruct (decide (r' = r)) as [->|Hne]; [congruence|done].
Qed.

Lemma destroy_loop_heap (m : list (UserId * Ref)) w r' s :
  (forall u r, (u, r) ∈ m -> users_get u (users w) = Some r) ->
  NoDup m.*2 -> heap w !! r' = Some s ->
  heap (fold_left destroy_user m w) !! r'
  = Some (if decide (r' ∈ m.*2) then torn_down s else s).
Proof.
  revert w s. induction m as [|[u r] m IH]; intros w s Hm Hnd Hh.
  - simpl. by rewrite Hh.
  - cbn [fold_left]. rewrite fmap_cons in Hnd. simpl in Hnd.
    apply NoDup_cons in Hnd as [Hnotin Hnd].
    assert (users_get u (users w) = Some r) as Hget
      by (apply Hm; apply elem_of_cons; auto).
    destruct (destroy_user_heap w u r s r' Hget Hh) as [Hu1 Hh1].
    assert (forall u0 r0, (u0, r0) ∈ m ->
              users_get u0 (users (destroy_user w (u, r))) = Some r0) as Hm1.
    { intros u0 r0 Hin. rewrite Hu1. apply Hm. apply elem_of_cons; auto. }
    rewrite (IH _ _ Hm1 Hnd Hh1).
    f_equal. rewrite fmap_cons. simpl.
    destruct (decide (r' = r)) as [->|Hne].
    + rewrite decide_False by done.
      rewrite decide_True; [done|]. apply elem_of_cons; auto.
    + destruct (decide (r' ∈ m.*2)) as [Hin|Hnin].
      * rewrite decide_True; [done|]. apply elem_of_cons; auto.
      * rewrite decide_False; [done|].
        intros [?|?]%elem_of_cons; done.
Qed.

Lemma destroy_heap w u r s :
  wf w -> users_get u (users w) = Some r -> heap w !! r = Some s ->
  heap (destroy w) !! r = Some (torn_down s).
Proof.
  intros Hwf Hget Hh. unfold destroy. simpl.
  rewrite (destroy_loop_heap (users w) (set_destroyed true w) r s).
  - rewrite decide_True; [done|].
    apply list_elem_of_fmap. exists (u, r). split; [done|].
    apply users_get_Some; [by apply wf_keys | done].
  - intros u0 r0 Hin. simpl. apply users_get_Some; [by apply wf_keys | done].
  - by apply wf_refs.
  - done.
Qed.

Lemma fire_own_timer w t u r s :
  wf w -> t ∈ timers w -> timer_user t = u ->
  users_get u (users w) = Some r -> heap w !! r = Some s ->
  timer_ref t = r
  /\ users (fire t w) = users w
  /\ heap (fire t w) !! r = Some (set_audioChunks [] (set_isSpeaking false s))
  /\ timers (fire t w)
     = filter (fun t' => timer_id t' <> timer_id t) (timers w)
  /\ timers_of u (fire t w) = [].
Proof.
  intros Hwf Ht Hu Hget Hh.
  destruct (wf_users_get w u r Hwf Hget) as (_ & st & Hs).
  pose proof (wf_owner w Hwf t Ht) as Ho. rewrite Hu in Ho.
  assert (timer_ref t = r) as Hr by (eapply wf_same_user; eauto).
  split; [done|]. unfold fire, on_silence. rewrite Hr, Hu.
  rewrite flush_users, flush_timers. split; [done|]. split; [|split; [done|]].
  - match goal with |- heap (_flushAndSend u ?w0) !! r = _ =>
      rewrite (flush_buffer u w0 r (set_isSpeaking false s)) end; [done|done|].
    simpl. by rewrite list_lookup_alter_eq, Hh.
  - unfold timers_of. rewrite flush_timers. simpl.
    apply filter_none. intros t' [Hid Ht']%list_elem_of_filter Hu'.
    apply Hid.
    pose proof (proj1 (wf_timer_user w t' r u st Hwf Ht' Hs) Hu').
    pose proof (proj1 (wf_timer_user w t r u st Hwf Ht Hs) Hu).
    congruence.
Qed.

Lemma demo_buffered_reachable : reachable demo_buffered.
Proof.
  exists None, 0%Z, 0, "guild",
    [SpeakingStart "alice"; DecoderData 0 [1; 2; 3; 4]%Z].
  vm_compute. reflexivity.
Defined.

(** C5 (as amended).  A flush triggered by the silence timeout or by the
    closure of the speaker's stream empties the speaker's buffer.  The flush
    on silence timeout does not destroy the session: the speaker stays
    registered, the state object keeps both stream handles as they are (an
    open stream stays open, for the speaker's next utterance), only the
    buffer and the activity flag change, and no silence timer is pending
    for the speaker afterwards. *)
Theorem flush_keeps_session (w : World) (u : UserId) (r : Ref) (s : UserState) :
  reachable w -> users_get u (users w) = Some r -> heap w !! r = Some s ->
  (forall t, earliest (timers w) = Some t -> timer_user t = u ->
     let w' := step w TimerFires in
     users w' = users w
     /\ heap w' !! r = Some (set_audioChunks [] (set_isSpeaking false s))
     /\ timers_of u w' = [])
  /\ (exists s', heap (step w (OpusClose r)) !! r = Some s'
                 /\ audioChunks s' = []).
Proof.
  intros Hreach Hget Hh. pose proof (reachable_wf w Hreach) as Hwf.
  split.
  - intros t He Hu w'. unfold w'. cbn [step]. rewrite He.
    apply earliest_spec in He as [Ht _].
    by destruct (fire_own_timer w t u r s Hwf Ht Hu Hget Hh) as (_ & ? & ? & _ & ?).
  - cbn [step]. rewrite Hh.
    assert (userId s = u) as ->.
    { destruct (wf_users_get w u r Hwf Hget) as (_ & st & Hs).
      apply skel_lookup in Hs as (s0 & Hh0 & Hu0 & _). congruence. }
    eexists. split.
    + unfold on_close. apply flush_buffer; [done|].
      cbn [heap add_log opus_destroyed update set_heap].
      by rewrite list_lookup_alter_eq, Hh.
    + done.
Qed.

Lemma flush_keeps_session_witness :
  (users (step demo_buffered TimerFires) = users demo_buffered
   /\ heap (step demo_buffered TimerFires) !! 0
      = Some (set_audioChunks [] (set_isSpeaking false demo_state))
   /\ timers_of "alice" (step demo_buffered TimerFires) = [])
  /\ (exists s', heap (step demo_buffered (OpusClose 0)) !! 0 = Some s'
                 /\ audioChunks s' = []).
Proof.
  assert (users_get "alice" (users demo_buffered) = Some 0) as H1
    by (vm_compute; reflexivity).
  assert (heap demo_buffered !! 0 = Some demo_state) as H2
    by (vm_compute; reflexivity).
  assert (earliest (timers demo_buffered)
          = Some {| timer_id := 1; deadline := 1000; timer_ref := 0;
                    timer_user := "alice" |}) as H3
    by (vm_compute; reflexivity).
  destruct (flush_keeps_session demo_buffered "alice" 0 demo_state
              demo_buffered_reachable H1 H2) as [Ht Hc].
  split; [exact (Ht _ H3 eq_refl) | exact Hc].
Defined.

(** C5, counterexample.  "alice" has subscribed and spoken one chunk.  When
    her silence timer fires, and likewise when her stream closes instead,
    the buffer is flushed but she is still in the registry: the session is
    not destroyed. *)
Lemma flush_does_not_destroy_session :
  ~ session_destroyed "alice" 0 (step demo_buffered TimerFires)
  /\ ~ session_destroyed "alice" 0 (step demo_buffered (OpusClose 0)).
Proof.
  split; intros [H _]; vm_compute in H; discriminate H.
Qed.


(** *** Chunks coalesce into one utterance *)

Lemma flush_quiet u w :
  SILENCE_DURATION_MS (_flushAndSend u w) = SILENCE_DURATION_MS w.
Proof. unfold _flushAndSend. repeat case_match; done. Qed.

Lemma flush_heap_other w u' r s :
  wf w -> heap w !! r = Some s -> userId s <> u' ->
  heap (_flushAndSend u' w) !! r = Some s.
Proof.
  intros Hwf Hh Hne.
  destruct (users_get u' (users w)) as [r'|] eqn:Hget.
  - destruct (wf_users_get w u' r' Hwf Hget) as (_ & st & Hs).
    apply skel_lookup in Hs as (s' & Hh' & Hu' & _).
    rewrite (flush_heap u' w r' s' Hget Hh').
    rewrite list_lookup_alter_ne; [done|]. intros ->. congruence.
  - rewrite flush_noop; [done|]. intros r0 s0 H. congruence.
Qed.

Lemma fire_fields t w :
  users (fire t w) = users w
  /\ destroyed (fire t w) = destroyed w
  /\ SILENCE_DURATION_MS (fire t w) = SILENCE_DURATION_MS w
  /\ now (fire t w) = Z.max (now w) (deadline t)
  /\ timers (fire t w)
     = filter (fun t' => timer_id t' <> timer_id t) (timers w).
Proof.
  unfold fire, on_silence.
  rewrite flush_users, flush_destroyed, flush_quiet, flush_now, flush_timers.
  done.
Qed.

Lemma filter_filter_implied {A} (P Q : A -> Prop)
  `{!forall x, Decision (P x)} `{!forall x, Decision (Q x)} (l : list A) :
  (forall x, x ∈ l -> P x -> Q x) -> filter P (filter Q l) = filter P l.
Proof.
  induction l as [|x l IH]; intros Himp; [done|].
  assert (forall y, y ∈ l -> P y -> Q y) as Himp'
    by (intros y Hy; apply Himp; apply elem_of_cons; auto).
  rewrite (filter_cons Q). destruct (decide (Q x)) as [HQ|HQ].
  - rewrite !filter_cons. by rewrite IH.
  - rewrite IH by done. rewrite filter_cons_False; [done|].
    intros HP. apply HQ. apply Himp; [apply elem_of_cons; auto | done].
Qed.

(** A timer of another speaker fires: nothing of [u] changes. *)
Lemma fire_other w t u r s :
  wf w -> earliest (timers w) = Some t -> timer_user t <> u ->
  heap w !! r = Some s -> userId s = u ->
  heap (fire t w) !! r = Some s
  /\ timers_of u (fire t w) = timers_of u w
  /\ flushes_of u (log (fire t w)) = flushes_of u (log w).
Proof.
  intros Hwf He Hne Hh Hu.
  pose proof (wf_fired w t Hwf He) as Hwf2.
  destruct (earliest_spec _ _ He) as [Ht _].
  pose proof (wf_owner w Hwf t Ht) as Ho.
  assert (timer_ref t <> r) as Hr.
  { intros Heq. rewrite Heq in Ho.
    apply skel_lookup in Ho as (s' & Hh' & Hu' & _). congruence. }
  split_and!.
  - unfold fire, on_silence. apply flush_heap_other.
    + refine (wf_update _ (timer_ref t) (set_isSpeaking false) _ _ Hwf2); done.
    + simpl. by rewrite list_lookup_alter_ne.
    + congruence.
  - destruct (fire_fields t w) as (_ & _ & _ & _ & Hts).
    unfold timers_of. rewrite Hts.
    apply filter_filter_implied. intros t' Ht' Hu' Hid.
    pose proof (wf_owner w Hwf t' Ht') as Ho'. rewrite Hid in Ho'.
    assert (timer_ref t' = timer_ref t) as Hrr by (eapply wf_handles; eauto).
    rewrite Hrr in Ho'. congruence.
  - destruct (emits_fire t w) as (l & El & Fl).
    rewrite El, flushes_of_app, (flushes_of_other u l), app_nil_r; [done|].
    eapply Forall_impl; [exact Fl|]. intros e [He' _]. congruence.
Qed.

(** The timer of [u] fires. *)
Lemma fire_self w t u r s :
  wf w -> earliest (timers w) = Some t -> timer_user t = u ->
  destroyed w = false -> heap w !! r = Some s -> userId s = u ->
  heap (fire t w) !! r = Some (set_audioChunks [] (set_isSpeaking false s))
  /\ timers_of u (fire t w) = []
  /\ flushes_of u (log (fire t w))
     = flushes_of u (log w)
       ++ match audioChunks s with
          | [] => []
          | _ :: _ => [(Z.max (now w) (deadline t), concat (audioChunks s))]
          end.
Proof.
  intros Hwf He Ht Hd Hh Hu.
  destruct (earliest_spec _ _ He) as [Hin _].
  assert (users_get u (users w) = Some r) as Hget.
  { eapply wf_users_get_live; [done..|]. apply skel_lookup. eauto. }
  destruct (fire_own_timer w t u r s Hwf Hin Ht Hget Hh)
    as (Hr & _ & Hheap & _ & Hts).
  split; [done|]. split; [done|].
  unfold fire, on_silence. rewrite Hr, Ht.
  match goal with |- flushes_of u (log (_flushAndSend u ?w0)) = _ =>
    set (w3 := w0) end.
  assert (heap w3 !! r = Some (set_isSpeaking false s)) as Hh3
    by (unfold w3; simpl; by rewrite list_lookup_alter_eq, Hh).
  destruct (audioChunks s) as [|c cs] eqn:Ec.
  - rewrite flush_noop, app_nil_r; [done|].
    intros r0 s0 Hg0 Hh0.
    assert (r0 = r) as -> by (unfold w3 in Hg0; simpl in Hg0; congruence).
    rewrite Hh3 in Hh0. injection Hh0 as <-. done.
  - rewrite (flush_flushes u w3 r (set_isSpeaking false s) Hget Hh3).
    + simpl. by rewrite Ec.
    + simpl. by rewrite Ec.
Qed.

(** What the running of due timers does to a speaker [u] whose pending
    timers, if any, are not yet due. *)
Lemma run_timers_other fuel T w u r s :
  wf w -> heap w !! r = Some s -> userId s = u ->
  (forall t, t ∈ timers_of u w -> (T < deadline t)%Z) ->
  wf (run_timers fuel T w)
  /\ heap (run_timers fuel T w) !! r = Some s
  /\ timers_of u (run_timers fuel T w) = timers_of u w
  /\ flushes_of u (log (run_timers fuel T w)) = flushes_of u (log w)
  /\ destroyed (run_timers fuel T w) = destroyed w
  /\ SILENCE_DURATION_MS (run_timers fuel T w) = SILENCE_DURATION_MS w
  /\ (now w <= now (run_timers fuel T w) <= Z.max (now w) T)%Z.
Proof.
  revert w. induction fuel as [|fuel IH]; intros w Hwf Hh Hu Hlate; simpl.
  { split_and!; try done; lia. }
  destruct (earliest (timers w)) as [tm|] eqn:He; [|split_and!; try done; lia].
  destruct (Z.leb_spec (deadline tm) T) as [Hdue|Hnot];
    [|split_and!; try done; lia].
  destruct (earliest_spec _ _ He) as [Hin _].
  assert (timer_user tm <> u) as Hne.
  { intros Heq. specialize (Hlate tm). unfold timers_of in Hlate.
    rewrite list_elem_of_filter in Hlate. specialize (Hlate (conj Heq Hin)). lia. }
  destruct (fire_other w tm u r s Hwf He Hne Hh Hu) as (Hh1 & Ht1 & Hf1).
  destruct (fire_fields tm w) as (_ & Hd1 & Hq1 & Hn1 & _).
  destruct (IH (fire tm w)) as (H1 & H2 & H3 & H4 & H5 & H6 & H7);
    [by apply wf_fire | done | done | by rewrite Ht1 |].
  rewrite H2, H3, H4, H5, H6, Ht1, Hf1, Hd1, Hq1. rewrite Hn1 in H7.
  split_and!; try done; lia.
Qed.

(** The same for a speaker whose buffer is empty: a timer of the speaker may
    fire, and flushes nothing. *)
Lemma run_timers_idle fuel T w u r s :
  wf w -> destroyed w = false ->
  heap w !! r = Some s -> userId s = u -> audioChunks s = [] ->
  wf (run_timers fuel T w)
  /\ (exists s', heap (run_timers fuel T w) !! r = Some s'
        /\ userId s' = u /\ audioChunks s' = [])
  /\ flushes_of u (log (run_timers fuel T w)) = flushes_of u (log w)
  /\ destroyed (run_timers fuel T w) = false
  /\ SILENCE_DURATION_MS (run_timers fuel T w) = SILENCE_DURATION_MS w
  /\ (now w <= now (run_timers fuel T w) <= Z.max (now w) T)%Z.
Proof.
  revert w s.
  induction fuel as [|fuel IH]; intros w s Hwf Hd Hh Hu Hc; simpl.
  { split_and!; eauto; lia. }
  destruct (earliest (timers w)) as [tm|] eqn:He; [|split_and!; eauto; lia].
  destruct (Z.leb_spec (deadline tm) T) as [Hdue|Hnot];
    [|split_and!; eauto; lia].
  destruct (fire_fields tm w) as (_ & Hd1 & Hq1 & Hn1 & _).
  assert (exists s1, heap (fire tm w) !! r = Some s1 /\ userId s1 = u
                     /\ audioChunks s1 = []
                     /\ flushes_of u (log (fire tm w)) = flushes_of u (log w))
    as (s1 & Hh1 & Hu1 & Hc1 & Hf1).
  { destruct (decide (timer_user tm = u)) as [Heq|Hne].
    - destruct (fire_self w tm u r s Hwf He Heq Hd Hh Hu) as (H1 & _ & H3).
      rewrite Hc, app_nil_r in H3. eauto.
    - destruct (fire_other w tm u r s Hwf He Hne Hh Hu) as (H1 & _ & H3).
      eauto. }
  destruct (IH (fire tm w) s1) as (H1 & H2 & H3 & H4 & H5 & H6);
    [by apply wf_fire | congruence | done | done | done |].
  rewrite H3, H5, Hf1, Hq1. rewrite Hn1 in H6.
  split_and!; try done; lia.
Qed.

Lemma fire_length w t :
  t ∈ timers w -> length (timers (fire t w)) < length (timers w).
Proof.
  intros Ht. destruct (fire_fields t w) as (_ & _ & _ & _ & ->).
  apply (length_filter_lt _ _ t); [done|]. intros H. by apply H.
Qed.

(** The quiet period elapses for a speaker with audio buffered: the one
    timer of the speaker fires at its deadline and the buffer is flushed,
    once. *)
Lemma run_timers_flush fuel T w u r s tu :
  wf w -> destroyed w = false ->
  heap w !! r = Some s -> userId s = u -> audioChunks s <> [] ->
  timers_of u w = [tu] -> (deadline tu <= T)%Z ->
  length (timers w) <= fuel ->
  flushes_of u (log (run_timers fuel T w))
  = flushes_of u (log w) ++ [(deadline tu, concat (audioChunks s))].
Proof.
  revert w.
  induction fuel as [|fuel IH]; intros w Hwf Hd Hh Hu Hc Hts Hdue Hfuel.
  { assert (tu ∈ timers w) as Hin.
    { assert (tu ∈ timers_of u w) as H by (rewrite Hts; apply elem_of_cons; auto).
      unfold timers_of in H. by apply list_elem_of_filter in H as [_ ?]. }
    destruct (timers w); [by apply elem_of_nil in Hin | simpl in Hfuel; lia]. }
  assert (tu ∈ timers_of u w) as Htu by (rewrite Hts; apply elem_of_cons; auto).
  unfold timers_of in Htu. apply list_elem_of_filter in Htu as [Htu_u Htu_in].
  simpl. destruct (earliest (timers w)) as [tm|] eqn:He.
  2:{ apply earliest_None in He. rewrite He in Htu_in.
      by apply elem_of_nil in Htu_in. }
  destruct (earliest_spec _ _ He) as [Hin Hmin].
  pose proof (Hmin tu Htu_in) as Hle.
  destruct (Z.leb_spec (deadline tm) T) as [_|Hnot]; [|lia].
  destruct (fire_fields tm w) as (_ & Hd1 & _ & _ & _).
  destruct (decide (timer_user tm = u)) as [Heq|Hne].
  - assert (tm = tu) as ->.
    { assert (tm ∈ timers_of u w) as H
        by (unfold timers_of; by apply list_elem_of_filter).
      rewrite Hts in H. by apply list_elem_of_singleton in H. }
    destruct (fire_self w tu u r s Hwf He Heq Hd Hh Hu) as (H1 & H2 & H3).
    destruct (run_timers_idle fuel T (fire tu w) u r _
                (wf_fire w tu Hwf He) ltac:(congruence) H1 Hu eq_refl)
      as (_ & _ & -> & _).
    rewrite H3. destruct (audioChunks s) as [|c cs] eqn:Ec; [done|].
    pose proof (wf_time w Hwf tu Htu_in). do 3 f_equal. lia.
  - destruct (fire_other w tm u r s Hwf He Hne Hh Hu) as (H1 & H2 & H3).
    rewrite <- H3. apply IH; try done.
    + by apply wf_fire.
    + congruence.
    + congruence.
    + pose proof (fire_length w tm Hin). lia.
Qed.


Lemma reset_object u w r :
  exists f : UserState -> UserState,
    heap (_resetSilenceTimer u w) !! r = f <$> heap w !! r
    /\ (forall s, userId (f s) = userId s)
    /\ (forall s, audioChunks (f s) = audioChunks s).
Proof.
  assert (forall x r0 (h : list UserState),
            exists f : UserState -> UserState,
              alter (set_silenceTimer x) r0 h !! r = f <$> h !! r
              /\ (forall s, userId (f s) = userId s)
              /\ (forall s, audioChunks (f s) = audioChunks s)) as Halter.
  { intros x r0 h. destruct (decide (r0 = r)) as [->|Hne].
    - exists (set_silenceTimer x). by rewrite list_lookup_alter_eq.
    - exists id. rewrite list_lookup_alter_ne by done.
      split; [by destruct (h !! r)|done]. }
  assert (exists f : UserState -> UserState,
            heap w !! r = f <$> heap w !! r
            /\ (forall s, userId (f s) = userId s)
            /\ (forall s, audioChunks (f s) = audioChunks s)) as Hid.
  { exists id. split; [by destruct (heap w !! r)|done]. }
  unfold _resetSilenceTimer, setTimeout, clearTimeout.
  repeat case_match; simplify_eq; simpl; first [exact Hid | apply Halter].
Qed.

Lemma on_data_object r u c w s :
  destroyed w = false -> heap w !! r = Some s ->
  exists s2, heap (on_data r u c w) !! r = Some s2
             /\ userId s2 = userId s
             /\ audioChunks s2 = audioChunks s ++ [c].
Proof.
  intros Hd Hh. rewrite on_data_live by done.
  match goal with |- context [_resetSilenceTimer u ?w0] =>
    destruct (reset_object u w0 r) as (f & -> & Hfu & Hfc) end.
  simpl. rewrite !list_lookup_alter_eq, Hh. simpl.
  eexists. split; [done|]. by rewrite Hfu, Hfc.
Qed.

Lemma wf_run_timers fuel T w : wf w -> wf (run_timers fuel T w).
Proof.
  revert w. induction fuel as [|fuel IH]; intros w Hwf; simpl; [done|].
  destruct (earliest (timers w)) as [tm|] eqn:He; [|done].
  destruct (deadline tm <=? T)%Z; [|done]. by apply IH, wf_fire.
Qed.

(** With fuel for every pending timer, no timer due by [T] stays pending. *)
Lemma run_timers_done fuel T w :
  length (timers w) <= fuel ->
  forall t, t ∈ timers (run_timers fuel T w) -> (T < deadline t)%Z.
Proof.
  revert w. induction fuel as [|fuel IH]; intros w Hfuel t Ht; simpl in Ht.
  { destruct (timers w); [by apply elem_of_nil in Ht | simpl in Hfuel; lia]. }
  destruct (earliest (timers w)) as [tm|] eqn:He.
  - destruct (earliest_spec _ _ He) as [Hin Hmin].
    destruct (Z.leb_spec (deadline tm) T) as [Hdue|Hnot].
    + apply (IH (fire tm w)); [|done].
      pose proof (fire_length w tm Hin). lia.
    + specialize (Hmin t Ht). lia.
  - apply earliest_None in He. rewrite He in Ht. by apply elem_of_nil in Ht.
Qed.

Lemma wf_advance_to T w : wf w -> wf (advance_to T w).
Proof.
  intros Hwf. unfold advance_to.
  pose proof (wf_run_timers (length (timers w)) T w Hwf) as Hwf1.
  apply wf_set_now; [done|]. intros tm Htm.
  pose proof (run_timers_done (length (timers w)) T w (le_n _) tm Htm).
  pose proof (wf_time _ Hwf1 tm Htm). lia.
Qed.

Lemma advance_to_other T w u r s :
  wf w -> heap w !! r = Some s -> userId s = u ->
  (forall t, t ∈ timers_of u w -> (T < deadline t)%Z) -> (now w <= T)%Z ->
  wf (advance_to T w)
  /\ heap (advance_to T w) !! r = Some s
  /\ timers_of u (advance_to T w) = timers_of u w
  /\ flushes_of u (log (advance_to T w)) = flushes_of u (log w)
  /\ destroyed (advance_to T w) = destroyed w
  /\ SILENCE_DURATION_MS (advance_to T w) = SILENCE_DURATION_MS w
  /\ now (advance_to T w) = T.
Proof.
  intros Hwf Hh Hu Hlate Hnow.
  destruct (run_timers_other (length (timers w)) T w u r s Hwf Hh Hu Hlate)
    as (_ & H2 & H3 & H4 & H5 & H6 & H7).
  split; [by apply wf_advance_to|].
  unfold advance_to, timers_of in *. simpl. split_and!; try done. lia.
Qed.

Lemma advance_to_idle T w u r s :
  wf w -> destroyed w = false ->
  heap w !! r = Some s -> userId s = u -> audioChunks s = [] ->
  (now w <= T)%Z ->
  wf (advance_to T w)
  /\ (exists s', heap (advance_to T w) !! r = Some s'
        /\ userId s' = u /\ audioChunks s' = [])
  /\ flushes_of u (log (advance_to T w)) = flushes_of u (log w)
  /\ destroyed (advance_to T w) = false
  /\ SILENCE_DURATION_MS (advance_to T w) = SILENCE_DURATION_MS w
  /\ now (advance_to T w) = T.
Proof.
  intros Hwf Hd Hh Hu Hc Hnow.
  destruct (run_timers_idle (length (timers w)) T w u r s Hwf Hd Hh Hu Hc)
    as (_ & H2 & H3 & H4 & H5 & H6).
  split; [by apply wf_advance_to|].
  unfold advance_to. simpl. split_and!; try done. lia.
Qed.

(** A chunk of [u] arrives at time [t] in a state whose clock reads [t]:
    it joins the buffer and the speaker's one timer is due one quiet period
    later. *)
Lemma on_data_arrival r u c w s :
  wf w -> destroyed w = false -> heap w !! r = Some s -> userId s = u ->
  (1 <= SILENCE_DURATION_MS w <= 2147483647)%Z ->
  wf (on_data r u c w)
  /\ destroyed (on_data r u c w) = false
  /\ (exists s2 tu,
        heap (on_data r u c w) !! r = Some s2 /\ userId s2 = u
        /\ audioChunks s2 = audioChunks s ++ [c]
        /\ timers_of u (on_data r u c w) = [tu]
        /\ deadline tu = (now w + SILENCE_DURATION_MS w)%Z)
  /\ now (on_data r u c w) = now w
  /\ SILENCE_DURATION_MS (on_data r u c w) = SILENCE_DURATION_MS w
  /\ flushes_of u (log (on_data r u c w)) = flushes_of u (log w).
Proof.
  intros Hwf Hd Hh Hu Hq.
  destruct (on_data_fields r u c w) as (_ & Hd2 & Hn2 & Hq2 & _).
  destruct (on_data_object r u c w s Hd Hh) as (s2 & Hh2 & Hu2 & Hc2).
  split; [by apply wf_on_data|]. split; [congruence|]. split.
  - exists s2, (silence_timer u r w). split_and!; try done; [congruence| |].
    + by eapply timers_of_on_data.
    + simpl. by rewrite timeout_delay_id.
  - split_and!; try done.
    rewrite on_data_log, flushes_of_app by done. simpl. by rewrite app_nil_r.
Qed.

Lemma deliver_loop r u (rest : list (Z * list Z)) :
  forall w t s tu,
    wf w -> destroyed w = false ->
    heap w !! r = Some s -> userId s = u ->
    timers_of u w = [tu] ->
    deadline tu = (t + SILENCE_DURATION_MS w)%Z -> now w = t ->
    (1 <= SILENCE_DURATION_MS w <= 2147483647)%Z ->
    gaps_below (SILENCE_DURATION_MS w) t rest ->
    let w' := fold_left (deliver r u) rest w in
    wf w' /\ destroyed w' = false
    /\ (exists s' tu',
          heap w' !! r = Some s' /\ userId s' = u
          /\ audioChunks s' = audioChunks s ++ (snd <$> rest)
          /\ timers_of u w' = [tu']
          /\ deadline tu' = (last_time t rest + SILENCE_DURATION_MS w)%Z)
    /\ now w' = last_time t rest
    /\ SILENCE_DURATION_MS w' = SILENCE_DURATION_MS w
    /\ flushes_of u (log w') = flushes_of u (log w).
Proof.
  induction rest as [|[t' c] rest IH];
    intros w t s tu Hwf Hd Hh Hu Hts Hdl Hnow Hq Hgaps w'.
  - unfold w'. simpl. split_and!; try done.
    exists s, tu. by rewrite app_nil_r.
  - destruct Hgaps as [Hgap Hgaps].
    assert (forall t0, t0 ∈ timers_of u w -> (t' < deadline t0)%Z) as Hlate.
    { intros t0. rewrite Hts. intros ->%list_elem_of_singleton. lia. }
    destruct (advance_to_other t' w u r s Hwf Hh Hu Hlate ltac:(lia))
      as (Hwf1 & Hh1 & _ & Hf1 & Hd1 & Hq1 & Hn1).
    destruct (on_data_arrival r u c (advance_to t' w) s Hwf1
                ltac:(congruence) Hh1 Hu ltac:(lia))
      as (Hwf2 & Hd2 & (s2 & tu2 & Hh2 & Hu2 & Hc2 & Hts2 & Hdl2)
          & Hn2 & Hq2 & Hf2).
    change (fold_left (deliver r u) ((t', c) :: rest) w)
      with (fold_left (deliver r u) rest (deliver r u w (t', c))) in w'.
    change (deliver r u w (t', c)) with (on_data r u c (advance_to t' w)) in w'.
    set (w2 := on_data r u c (advance_to t' w)) in *.
    assert (SILENCE_DURATION_MS w2 = SILENCE_DURATION_MS w) as Hq2' by congruence.
    destruct (IH w2 t' s2 tu2 Hwf2 Hd2 Hh2 Hu2 Hts2)
      as (G1 & G2 & (s' & tu' & G3 & G4 & G5 & G6 & G7) & G8 & G9 & G10).
    + rewrite Hdl2, Hn1, Hq2'. by rewrite Hq1.
    + congruence.
    + rewrite Hq2'. lia.
    + by rewrite Hq2'.
    + fold w' in G1, G2, G3, G6, G8, G9, G10.
      split_and!; try done.
      * exists s', tu'. split_and!; try done.
        -- rewrite G5, Hc2. simpl. by rewrite <- app_assoc.
        -- rewrite G7, Hq2'. done.
      * congruence.
      * congruence.
Qed.

(** C1 (as amended).  The quiet period is one a timer of the runtime can
    wait for: between 1 ms and [2^31 - 1] ms, 1000 ms by default.  A tracked
    speaker with an empty buffer receives chunks at times
    [t1 <= t2 <= ...] whose consecutive gaps are all below the quiet
    period.  Letting the clock run to any
    time at or after the last arrival plus the quiet period, the trace shows
    exactly one new flush for the speaker: it happens one quiet period after
    the last chunk, and its buffer is the concatenation of all the chunks in
    arrival order. *)
Theorem chunks_coalesce_into_one_flush (w : World) (u : UserId) (r : Ref)
  (s : UserState) (t1 : Z) (c1 : list Z) (rest : list (Z * list Z)) (T : Z) :
  reachable w ->
  users_get u (users w) = Some r -> heap w !! r = Some s ->
  audioChunks s = [] ->
  (1 <= SILENCE_DURATION_MS w <= 2147483647)%Z ->
  (now w <= t1)%Z ->
  gaps_below (SILENCE_DURATION_MS w) t1 rest ->
  (last_time t1 rest + SILENCE_DURATION_MS w <= T)%Z ->
  parse_SILENCE_DURATION_MS None = 1000%Z
  /\ flushes_of u (log (advance_to T
                          (fold_left (deliver r u) ((t1, c1) :: rest) w)))
     = flushes_of u (log w)
       ++ [((last_time t1 rest + SILENCE_DURATION_MS w)%Z,
            concat (c1 :: (snd <$> rest)))].
Proof.
  intros Hreach Hget Hh Hc Hq Hnow Hgaps HT. split; [reflexivity|].
  pose proof (reachable_wf w Hreach) as Hwf.
  destruct (wf_users_get w u r Hwf Hget) as (Hd & st & Hs).
  assert (userId s = u) as Hu.
  { apply skel_lookup in Hs as (s0 & Hh0 & Hu0 & _). congruence. }
  destruct (advance_to_idle t1 w u r s Hwf Hd Hh Hu Hc Hnow)
    as (Hwf1 & (s1 & Hh1 & Hu1 & Hc1) & Hf1 & Hd1 & Hq1 & Hn1).
  destruct (on_data_arrival r u c1 (advance_to t1 w) s1 Hwf1 Hd1 Hh1 Hu1
              ltac:(lia))
    as (Hwf2 & Hd2 & (s2 & tu2 & Hh2 & Hu2 & Hc2 & Hts2 & Hdl2)
        & Hn2 & Hq2 & Hf2).
  change (fold_left (deliver r u) ((t1, c1) :: rest) w)
    with (fold_left (deliver r u) rest (on_data r u c1 (advance_to t1 w))).
  set (w2 := on_data r u c1 (advance_to t1 w)) in *.
  assert (SILENCE_DURATION_MS w2 = SILENCE_DURATION_MS w) as Hq2' by congruence.
  destruct (deliver_loop r u rest w2 t1 s2 tu2 Hwf2 Hd2 Hh2 Hu2 Hts2)
    as (G1 & G2 & (s' & tu' & G3 & G4 & G5 & G6 & G7) & G8 & G9 & G10).
  { rewrite Hdl2, Hn1, Hq2'. by rewrite Hq1. }
  { congruence. }
  { rewrite Hq2'. lia. }
  { by rewrite Hq2'. }
  set (wn := fold_left (deliver r u) rest w2) in *.
  unfold advance_to. simpl.
  rewrite (run_timers_flush _ T wn u r s' tu' G1 G2 G3 G4); try done.
  - rewrite G10, Hf2, Hf1, G7, Hq2', G5, Hc2, Hc1. done.
  - rewrite G5, Hc2. destruct (audioChunks s1); discriminate.
  - rewrite G7, Hq2'. lia.
Qed.

Lemma demo_subscribed_reachable : reachable demo_subscribed.
Proof.
  exists None, 0%Z, 0, "guild", [SpeakingStart "alice"].
  vm_compute. reflexivity.
Defined.

(** Three chunks 200 ms apart, quiet period 1000 ms: one flush, 1000 ms
    after the last chunk, holding the three chunks in order. *)
Lemma chunks_coalesce_into_one_flush_witness :
  flushes_of "alice"
    (log (advance_to 2000
            (fold_left (deliver 0 "alice")
               [(100, [1; 2]); (300, [3; 4]); (500, [5; 6])]%Z
               demo_subscribed)))
  = flushes_of "alice" (log demo_subscribed)
    ++ [((last_time 100 [(300, [3; 4]); (500, [5; 6])]%Z
          + SILENCE_DURATION_MS demo_subscribed)%Z,
         concat ([1; 2]%Z :: (snd <$> [(300, [3; 4]); (500, [5; 6])]%Z)))].
Proof.
  assert (users_get "alice" (users demo_subscribed) = Some 0) as H1
    by (vm_compute; reflexivity).
  assert (heap demo_subscribed !! 0 = Some demo_idle_state) as H2
    by (vm_compute; reflexivity).
  assert (audioChunks demo_idle_state = []) as H3 by reflexivity.
  assert (1 <= SILENCE_DURATION_MS demo_subscribed <= 2147483647)%Z as H4
    by (vm_compute; split; discriminate).
  assert (now demo_subscribed <= 100)%Z as H5 by (vm_compute; discriminate).
  assert (gaps_below (SILENCE_DURATION_MS demo_subscribed) 100
            [(300, [3; 4]); (500, [5; 6])]%Z) as H6
    by (vm_compute; repeat split; discriminate).
  assert (last_time 100 [(300, [3; 4]); (500, [5; 6])]%Z
          + SILENCE_DURATION_MS demo_subscribed <= 2000)%Z as H7
    by (vm_compute; discriminate).
  exact (proj2 (chunks_coalesce_into_one_flush demo_subscribed "alice" 0
                  demo_idle_state 100 [1; 2]%Z
                  [(300, [3; 4]); (500, [5; 6])]%Z 2000
                  demo_subscribed_reachable H1 H2 H3 H4 H5 H6 H7)).
Defined.

(** C1, counterexample.  The quiet period is configured as 3000000000 ms,
    which no timer of the runtime waits for: every timer then fires after
    1 ms.  "alice" speaks three chunks 200 ms apart, every gap far below the
    configured period, yet each chunk is flushed on its own, 1 ms after it
    arrived: three flushes, not one. *)
Lemma quiet_period_beyond_timer_range :
  ~ coalesces demo_long_quiet 0 "alice"
      (100, [1; 2])%Z [(300, [3; 4]); (500, [5; 6])]%Z.
Proof.
  unfold coalesces. intros H.
  assert (gaps_below (SILENCE_DURATION_MS demo_long_quiet) 100
            [(300, [3; 4]); (500, [5; 6])]%Z) as Hgaps
    by (vm_compute; repeat split; discriminate).
  specialize (H Hgaps 3000000500%Z ltac:(vm_compute; discriminate)).
  vm_compute in H. discriminate H.
Qed.

Example out_of_range_scenario :
  flushes_of "alice"
    (log (advance_to 3000000500
            (fold_left (deliver 0 "alice")
               [(100, [1; 2]); (300, [3; 4]); (500, [5; 6])]%Z
               demo_long_quiet)))
  = [(101, [1; 2]); (301, [3; 4]); (501, [5; 6])]%Z.
Proof. vm_compute. reflexivity. Qed.

(** 96096 bytes are 500.5 ms of audio; in double precision the duration
    comes out just below, and the form carries 500. *)
Example duration_of_96096_bytes :
  Math_round (durationMs_of (Z.to_nat 96096)) = Some 500%Z.
Proof. vm_compute. reflexivity. Qed.

Example three_chunks_scenario :
  flushes_of "alice"
    (log (advance_to 2000
            (fold_left (deliver 0 "alice")
               [(100, [1; 2]); (300, [3; 4]); (500, [5; 6])]%Z
               demo_subscribed)))
  = [(1500%Z, [1; 2; 3; 4; 5; 6]%Z)].
Proof. vm_compute. reflexivity. Qed.

(** *** At most once *)

Lemma pending_app u (h1 h2 : list UserState) :
  pending u (h1 ++ h2) = pending u h1 ++ pending u h2.
Proof. induction h1 as [|s h1 IH]; simpl; [done|]. by rewrite IH, app_assoc. Qed.

Lemma pending_absent u (h : list UserState) :
  u ∉ (userId <$> h) -> pending u h = [].
Proof.
  induction h as [|s h IH]; simpl; intros Hn; [done|].
  apply not_elem_of_cons in Hn as [Hne Hn].
  rewrite decide_False by done. by rewrite IH.
Qed.

Lemma pending_alter_same u (f : UserState -> UserState) r (h : list UserState) :
  (forall s, userId (f s) = userId s) ->
  (forall s, audioChunks (f s) = audioChunks s) ->
  pending u (alter f r h) = pending u h.
Proof.
  intros Hu Hc. revert r. induction h as [|s h IH]; intros [|r]; simpl; try done.
  - by rewrite Hu, Hc.
  - f_equal. apply IH.
Qed.

Lemma pending_alter u (f : UserState -> UserState) r (h : list UserState) s :
  h !! r = Some s -> userId (f s) = userId s -> NoDup (userId <$> h) ->
  pending u (alter f r h)
  = if decide (userId s = u) then concat (audioChunks (f s)) else pending u h.
Proof.
  revert r. induction h as [|s0 h IH]; intros [|r] Hl Hu Hnd; simpl in *;
    try done.
  - injection Hl as ->. rewrite Hu.
    apply NoDup_cons in Hnd as [Hnotin _].
    destruct (decide (userId s = u)) as [<-|Hne]; [|done].
    by rewrite pending_absent, app_nil_r.
  - apply NoDup_cons in Hnd as [Hnotin Hnd].
    etrans; [apply f_equal, (IH r Hl Hu Hnd)|].
    destruct (decide (userId s = u)) as [<-|Hne]; [|done].
    rewrite decide_False; [done|]. intros Heq. apply Hnotin. rewrite Heq.
    apply list_elem_of_fmap. exists s. split; [done|].
    by eapply list_elem_of_lookup_2.
Qed.

Lemma pending_lookup (h : list UserState) r s :
  h !! r = Some s -> NoDup (userId <$> h) ->
  pending (userId s) h = concat (audioChunks s).
Proof.
  intros Hl Hnd.
  pose proof (pending_alter (userId s) id r h s Hl eq_refl Hnd) as H.
  rewrite list_alter_id, decide_True in H by done. done.
Qed.

Lemma registry_ok_wf w : wf w -> registry_ok w.
Proof.
  intros Hwf. split.
  - rewrite objects_skel. by apply wf_objects.
  - intros u r Hget. destruct (wf_users_get w u r Hwf Hget) as (_ & st & Hs).
    apply skel_lookup in Hs as (s & ? & ? & _). eauto.
Qed.

Lemma registry_ok_ext w w' :
  users w' = users w -> skel (heap w') = skel (heap w) ->
  registry_ok w -> registry_ok w'.
Proof.
  intros Hu Hs [Hnd Hreg]. split.
  - by rewrite objects_skel, Hs, <- objects_skel.
  - intros u r. rewrite Hu. intros Hget.
    destruct (Hreg u r Hget) as (s & Hh & Hid).
    assert (skel (heap w') !! r = Some (u, silenceTimer s)) as Hl
      by (rewrite Hs; apply skel_lookup; eauto).
    apply skel_lookup in Hl as (s' & ? & ? & _). eauto.
Qed.

(** The trace of a flush, as the three observers see it. *)
Lemma flush_observed u' w :
  (_flushAndSend u' w = w)
  \/ (exists r s pcm,
        users_get u' (users w) = Some r /\ heap w !! r = Some s
        /\ audioChunks s <> [] /\ pcm = concat (audioChunks s)
        /\ heap (_flushAndSend u' w) = alter (set_audioChunks []) r (heap w)
        /\ forall u,
             received_of u (log (_flushAndSend u' w)) = received_of u (log w)
             /\ flushes_of u (log (_flushAndSend u' w))
                = flushes_of u (log w)
                  ++ (if decide (u' = u) then [(now w, pcm)] else [])
             /\ sa_pcmBuffer <$> uploads_of u (log (_flushAndSend u' w))
                = (sa_pcmBuffer <$> uploads_of u (log w))
                  ++ (if decide (u' = u)
                      then filter (fun b => (minBytes <= Z.of_nat (length b))%Z)
                                  [pcm]
                      else [])).
Proof.
  destruct (users_get u' (users w)) as [r|] eqn:Hget.
  2:{ left. apply flush_noop. intros r s H. congruence. }
  destruct (heap w !! r) as [s|] eqn:Hh.
  2:{ left. apply flush_noop. intros r0 s0 H H0. congruence. }
  destruct (decide (audioChunks s = [])) as [Hc|Hc].
  { left. apply flush_noop. intros r0 s0 H H0. congruence. }
  right. exists r, s, (concat (audioChunks s)).
  split_and!; try done; [by apply (flush_heap u' w r s)|].
  intros u. rewrite (flush_log u' w r s Hget Hh Hc).
  rewrite received_of_app, flushes_of_app, uploads_of_app, fmap_app.
  cbn [received_of flushes_of uploads_of].
  destruct (Z.ltb_spec (Z.of_nat (length (concat (audioChunks s)))) minBytes)
    as [Hlt|Hge].
  - cbn [received_of flushes_of uploads_of fmap list_fmap].
    rewrite app_nil_r.
    rewrite filter_cons_False by lia. rewrite filter_nil.
    split_and!; try done; destruct (decide (u' = u)); by rewrite ?app_nil_r.
  - cbn [received_of flushes_of uploads_of sa_userId].
    rewrite filter_cons_True by lia. rewrite filter_nil.
    assert (forall l, (l = [] \/ exists f, l = [Post f]) ->
              received_of u l = [] /\ flushes_of u l = []
              /\ uploads_of u l = []) as Hposts.
    { intros l [->|[f ->]]; done. }
    match goal with |- context [match ?x with Ok _ => _ | RangeError => _ end] =>
      destruct (Hposts (match x with Ok form => [Post form] | RangeError => [] end))
        as (-> & -> & ->); [destruct x; eauto|] end.
    rewrite app_nil_r.
    split_and!; try done; destruct (decide (u' = u)); by rewrite ?app_nil_r.
Qed.

Lemma accounted_flush u' w :
  registry_ok w -> accounted w -> accounted (_flushAndSend u' w).
Proof.
  intros [Hnd Hreg] Ha.
  destruct (flush_observed u' w) as [->|(r & s & pcm & Hget & Hh & Hc & -> & Hheap & Hobs)];
    [done|].
  destruct (Hreg u' r Hget) as (s0 & Hh0 & Hid).
  assert (s0 = s) as -> by congruence.
  intros u. destruct (Hobs u) as (-> & -> & _). rewrite Hheap.
  rewrite (pending_alter u (set_audioChunks []) r (heap w) s Hh eq_refl Hnd).
  rewrite Ha.
  rewrite Hid. destruct (decide (u' = u)) as [<-|Hne].
  - rewrite fmap_app, concat_app. simpl. rewrite !app_nil_r.
    f_equal. rewrite <- Hid. by apply (pending_lookup (heap w) r s).
  - by rewrite app_nil_r.
Qed.

Lemma uploads_match_flush u' w :
  uploads_match w -> uploads_match (_flushAndSend u' w).
Proof.
  intros Hm.
  destruct (flush_observed u' w) as [->|(r & s & pcm & _ & _ & _ & -> & _ & Hobs)];
    [done|].
  intros u. destruct (Hobs u) as (_ & -> & ->).
  rewrite Hm, fmap_app, filter_app. f_equal.
  by destruct (decide (u' = u)).
Qed.

(** Steps that buffer or flush nothing. *)
Lemma accounted_same w w' :
  log w' = log w -> (forall u, pending u (heap w') = pending u (heap w)) ->
  accounted w -> accounted w'.
Proof. intros Hl Hp Ha u. by rewrite Hl, Hp. Qed.

Lemma accounted_add_log e w :
  (forall u, received_of u [e] = [] /\ flushes_of u [e] = []) ->
  accounted w -> accounted (add_log e w).
Proof.
  intros He Ha u. simpl. destruct (He u) as [Hr Hf].
  rewrite received_of_app, flushes_of_app, Hr, Hf, !app_nil_r. apply Ha.
Qed.

Lemma uploads_match_same w w' :
  log w' = log w -> uploads_match w -> uploads_match w'.
Proof. intros Hl Hm u. by rewrite Hl. Qed.

Lemma uploads_match_add_log e w :
  (forall u, uploads_of u [e] = [] /\ flushes_of u [e] = []) ->
  uploads_match w -> uploads_match (add_log e w).
Proof.
  intros He Hm u. simpl. destruct (He u) as [Hr Hf].
  rewrite uploads_of_app, flushes_of_app, Hr, Hf, !app_nil_r. apply Hm.
Qed.

Lemma reset_pending u' w u :
  pending u (heap (_resetSilenceTimer u' w)) = pending u (heap w).
Proof.
  unfold _resetSilenceTimer, setTimeout, clearTimeout.
  repeat case_match; simplify_eq; simpl; try done;
    by apply pending_alter_same.
Qed.

Lemma accounted_reset u' w : accounted w -> accounted (_resetSilenceTimer u' w).
Proof.
  apply accounted_same; [apply log_reset|]. intros u. apply reset_pending.
Qed.

Lemma uploads_match_reset u' w :
  uploads_match w -> uploads_match (_resetSilenceTimer u' w).
Proof. apply uploads_match_same, log_reset. Qed.

Lemma accounted_update r (f : UserState -> UserState) w :
  (forall s, userId (f s) = userId s) ->
  (forall s, audioChunks (f s) = audioChunks s) ->
  accounted w -> accounted (update r f w).
Proof.
  intros Hu Hc. apply accounted_same; [done|].
  intros u. simpl. by apply pending_alter_same.
Qed.

Lemma accounted_on_data r c w s :
  registry_ok w -> heap w !! r = Some s ->
  accounted w -> accounted (on_data r (userId s) c w).
Proof.
  intros [Hnd _] Hh Ha. unfold on_data. destruct (destroyed w); [done|].
  apply accounted_reset, accounted_update; [done..|].
  intros u. simpl.
  rewrite received_of_app, flushes_of_app. cbn [received_of flushes_of].
  rewrite app_nil_r.
  rewrite (pending_alter u
             (fun s0 => set_audioChunks (audioChunks s0 ++ [c]) s0)
             r (heap w) s Hh eq_refl Hnd). simpl.
  destruct (decide (userId s = u)) as [<-|Hne].
  - rewrite !concat_app, Ha. simpl. rewrite !app_nil_r, <- app_assoc.
    f_equal. by rewrite (pending_lookup (heap w) r s Hh Hnd).
  - by rewrite app_nil_r.
Qed.

Lemma uploads_match_on_data r u' c w :
  uploads_match w -> uploads_match (on_data r u' c w).
Proof.
  intros Hm. unfold on_data. destruct (destroyed w); [done|].
  apply uploads_match_reset. apply (uploads_match_same (add_log (Received u' c) w));
    [done|].
  by apply uploads_match_add_log.
Qed.

Lemma accounted_handleUserSpeaking u' w :
  accounted w -> accounted (handleUserSpeaking u' w).
Proof.
  intros Ha. unfold handleUserSpeaking. destruct (destroyed w); [done|].
  destruct (users_get u' (users w)) as [r|].
  - by apply accounted_reset, accounted_update.
  - apply accounted_reset. intros u. simpl.
    rewrite received_of_app, flushes_of_app, pending_app. simpl.
    rewrite !app_nil_r. destruct (decide (u' = u)); simpl;
      rewrite ?app_nil_r; apply Ha.
Qed.

Lemma uploads_match_handleUserSpeaking u' w :
  uploads_match w -> uploads_match (handleUserSpeaking u' w).
Proof.
  intros Hm. unfold handleUserSpeaking. destruct (destroyed w); [done|].
  destruct (users_get u' (users w)) as [r|].
  - apply uploads_match_reset. by apply (uploads_match_same w).
  - apply uploads_match_reset.
    apply (uploads_match_same (add_log (Subscribe u') w)); [done|].
    by apply uploads_match_add_log.
Qed.

Lemma accounted_fire t w : registry_ok w -> accounted w -> accounted (fire t w).
Proof.
  intros Hreg Ha. unfold fire, on_silence. apply accounted_flush.
  - eapply registry_ok_ext; [| |exact Hreg]; [done|].
    simpl. by apply skel_alter.
  - apply accounted_update; [done..|]. by apply (accounted_same w).
Qed.

Lemma uploads_match_fire t w : uploads_match w -> uploads_match (fire t w).
Proof.
  intros Hm. unfold fire, on_silence. apply uploads_match_flush.
  by apply (uploads_match_same w).
Qed.

Lemma destroy_user_invariants w e :
  registry_ok w ->
  registry_ok (destroy_user w e)
  /\ (accounted w -> accounted (destroy_user w e))
  /\ (uploads_match w -> uploads_match (destroy_user w e)).
Proof.
  intros Hreg. destruct e as [u r].
  split.
  { pose proof (shape_destroy_user w u r) as Hs. unfold shape in Hs.
    injection Hs as E1 _ E3 _ _ _. by eapply registry_ok_ext. }
  unfold destroy_user. destruct (heap w !! r) as [s|]; [|done].
  set (w0 := match silenceTimer s with
             | Some t => clearTimeout t w
             | None => w
             end).
  assert (users w0 = users w /\ heap w0 = heap w /\ log w0 = log w)
    as (Hu0 & Hh0 & Hl0) by (unfold w0; by destruct (silenceTimer s)).
  split.
  - intros Ha. apply accounted_add_log; [done|].
    apply accounted_update; [done..|]. apply accounted_update; [done..|].
    apply accounted_flush.
    + eapply registry_ok_ext; [exact Hu0 | by rewrite Hh0 | exact Hreg].
    + apply (accounted_same w); [done| |done]. intros u0. by rewrite Hh0.
  - intros Hm. apply uploads_match_add_log; [done|].
    apply (uploads_match_same (_flushAndSend u w0)); [done|].
    apply uploads_match_flush. by apply (uploads_match_same w).
Qed.

Lemma destroy_loop_invariants (m : list (UserId * Ref)) w :
  registry_ok w ->
  (accounted w -> accounted (fold_left destroy_user m w))
  /\ (uploads_match w -> uploads_match (fold_left destroy_user m w)).
Proof.
  revert w. induction m as [|e m IH]; intros w Hreg; [done|].
  cbn [fold_left].
  destruct (destroy_user_invariants w e Hreg) as (Hreg1 & Ha1 & Hm1).
  destruct (IH _ Hreg1) as [Ha2 Hm2]. split; auto.
Qed.

Lemma destroy_invariants w :
  registry_ok w ->
  (accounted w -> accounted (destroy w))
  /\ (uploads_match w -> uploads_match (destroy w)).
Proof.
  intros Hreg. unfold destroy.
  destruct (destroy_loop_invariants (users w) (set_destroyed true w))
    as [Ha Hm]; [by apply (registry_ok_ext w)|].
  split; intros H.
  - apply (accounted_same (fold_left destroy_user (users w) (set_destroyed true w)));
      [done..|]. apply Ha. by apply (accounted_same w).
  - apply (uploads_match_same (fold_left destroy_user (users w) (set_destroyed true w)));
      [done|]. apply Hm. by apply (uploads_match_same w).
Qed.

Lemma step_invariants w i :
  wf w ->
  (accounted w -> accounted (step w i))
  /\ (uploads_match w -> uploads_match (step w i)).
Proof.
  intros Hwf. pose proof (registry_ok_wf w Hwf) as Hreg.
  destruct i; simpl.
  - split; [apply accounted_handleUserSpeaking |
            apply uploads_match_handleUserSpeaking].
  - destruct (heap w !! ref) as [s|] eqn:Hh; [|done]. case_match; [|done].
    split; [by apply accounted_on_data | apply uploads_match_on_data].
  - destruct (heap w !! ref) as [s|]; [|done].
    split; [by apply accounted_add_log | by apply uploads_match_add_log].
  - destruct (heap w !! ref) as [s|]; [|done]. unfold on_close. split; intros H.
    + apply accounted_flush;
        [apply (registry_ok_ext w); [done | by apply skel_alter | done]|].
      by apply accounted_add_log, accounted_update.
    + apply uploads_match_flush, uploads_match_add_log; [done|].
      by apply (uploads_match_same w).
  - destruct (earliest (timers w)); [|done].
    split; [by apply accounted_fire | apply uploads_match_fire].
  - case_match; [|done].
    split; [by apply accounted_same | by apply uploads_match_same].
  - unfold upload_settled.
    destruct ok; (split;
      [by apply accounted_add_log | by apply uploads_match_add_log]).
  - by apply destroy_invariants.
Qed.

Lemma run_invariants inputs w :
  wf w -> accounted w -> uploads_match w ->
  accounted (run w inputs) /\ uploads_match (run w inputs).
Proof.
  revert w. induction inputs as [|i inputs IH]; intros w Hwf Ha Hm; [done|].
  simpl. destruct (step_invariants w i Hwf) as [Ha1 Hm1].
  apply IH; [by apply wf_step | auto | auto].
Qed.

Lemma reachable_invariants env t0 conn guild inputs :
  accounted (run (new_AudioRecorder env t0 conn guild) inputs)
  /\ uploads_match (run (new_AudioRecorder env t0 conn guild) inputs).
Proof. apply run_invariants; [apply wf_new | done | done]. Qed.

(** C4.  A flush for a speaker whose buffer is empty (or who is not
    tracked) changes nothing: no event, no upload, the same state.  A flush
    drains the buffer before anything else, so running it twice is running
    it once; in particular when the silence callback and the stream-close
    handler run back to back, in either order, the second finds nothing to
    flush and adds no flush and no upload to the trace.  Over any history of
    a recorder, what was received for a speaker is what was flushed, buffer
    after buffer in order, followed by what is still buffered: no byte is in
    two flushed buffers. *)
Theorem flush_at_most_once (w : World) (u : UserId) (r : Ref) :
  ((forall r' s, users_get u (users w) = Some r' -> heap w !! r' = Some s ->
                 audioChunks s = []) ->
   _flushAndSend u w = w)
  /\ _flushAndSend u (_flushAndSend u w) = _flushAndSend u w
  /\ on_close u (on_silence r u w) = add_log (StreamClosed u) (on_silence r u w)
  /\ on_silence r u (on_close u w) = update r (set_isSpeaking false) (on_close u w)
  /\ flushes_of u (log (on_close u (on_silence r u w)))
     = flushes_of u (log (on_silence r u w))
  /\ uploads_of u (log (on_close u (on_silence r u w)))
     = uploads_of u (log (on_silence r u w))
  /\ flushes_of u (log (on_silence r u (on_close u w)))
     = flushes_of u (log (on_close u w))
  /\ uploads_of u (log (on_silence r u (on_close u w)))
     = uploads_of u (log (on_close u w))
  /\ (reachable w ->
      concat (received_of u (log w))
      = concat (flushes_of u (log w)).*2 ++ pending u (heap w)).
Proof.
  assert (on_close u (on_silence r u w)
          = add_log (StreamClosed u) (on_silence r u w)) as H1.
  { unfold on_close. apply flush_noop. intros r' s.
    change (users (add_log (StreamClosed u) (on_silence r u w)))
      with (users (on_silence r u w)).
    change (heap (add_log (StreamClosed u) (on_silence r u w)))
      with (heap (on_silence r u w)).
    unfold on_silence. rewrite flush_users. apply flush_leaves_empty. }
  assert (on_silence r u (on_close u w)
          = update r (set_isSpeaking false) (on_close u w)) as H2.
  { unfold on_silence. apply flush_noop. intros r' s.
    change (users (update r (set_isSpeaking false) (on_close u w)))
      with (users (on_close u w)).
    change (heap (update r (set_isSpeaking false) (on_close u w)))
      with (alter (set_isSpeaking false) r (heap (on_close u w))).
    unfold on_close. rewrite flush_users. intros Hget Hh.
    assert (exists s0, heap (_flushAndSend u (add_log (StreamClosed u) w)) !! r'
                       = Some s0 /\ audioChunks s = audioChunks s0)
      as (s0 & Hs0 & ->).
    { destruct (decide (r = r')) as [<-|Hne].
      - rewrite list_lookup_alter_eq in Hh.
        destruct (heap _ !! r) as [s0|]; simpl in Hh; [|done].
        injection Hh as <-. eauto.
      - rewrite list_lookup_alter_ne in Hh by done. eauto. }
    by eapply flush_leaves_empty. }
  split_and!.
  - apply flush_noop.
  - apply flush_idempotent.
  - done.
  - done.
  - rewrite H1. simpl. rewrite flushes_of_app. simpl. by rewrite app_nil_r.
  - rewrite H1. simpl. rewrite uploads_of_app. simpl. by rewrite app_nil_r.
  - by rewrite H2.
  - by rewrite H2.
  - intros (env & t0 & conn & guild & inputs & ->).
    apply (reachable_invariants env t0 conn guild inputs).
Qed.

Lemma flush_at_most_once_witness :
  _flushAndSend "alice" demo_flushed = demo_flushed.
Proof.
  assert (forall r' s, users_get "alice" (users demo_flushed) = Some r' ->
                       heap demo_flushed !! r' = Some s -> audioChunks s = [])
    as Hempty.
  { intros r' s Hget Hh. vm_compute in Hget. injection Hget as <-.
    vm_compute in Hh. injection Hh as <-. reflexivity. }
  exact (proj1 (flush_at_most_once demo_flushed "alice" 0) Hempty).
Defined.

(** C10.  When the synchronous part of a flush for a tracked speaker
    completes, the speaker's buffer is empty, whether the drained audio was
    below the floor or handed to the upload, and in whatever state the
    recorder is: the flushes [destroy()] issues after setting its flag are
    included, and after [destroy()] the buffer is empty.  The settling of the upload, failed or not, leaves every buffer
    as it is; and in a recorder that still takes chunks the next flush after
    a later chunk drains that chunk alone: what was dropped or failed is not
    restored, retried or merged into a later utterance.  Over any history of
    a recorder the upload calls for a speaker are, in order, the flushed
    buffers at or above the floor, one call each. *)
Theorem flush_drains_buffer (w : World) (u : UserId) (r : Ref) (s : UserState) :
  users_get u (users w) = Some r -> heap w !! r = Some s ->
  let w1 := _flushAndSend u w in
  heap w1 !! r = Some (set_audioChunks [] s)
  /\ heap (_flushAndSend u (set_destroyed true w)) !! r
     = Some (set_audioChunks [] s)
  /\ (forall ok, heap (upload_settled u ok w1) = heap w1
                 /\ timers (upload_settled u ok w1) = timers w1
                 /\ uploads_of u (log (upload_settled u ok w1))
                    = uploads_of u (log w1))
  /\ (destroyed w = false ->
      forall ok c,
        let w2 := on_data r u c (upload_settled u ok w1) in
        let w3 := _flushAndSend u w2 in
        audioChunks <$> heap w2 !! r = Some [c]
        /\ flushes_of u (log w3) = flushes_of u (log w1) ++ [(now w, c)])
  /\ (reachable w ->
      audioChunks <$> heap (destroy w) !! r = Some []
      /\ sa_pcmBuffer <$> uploads_of u (log w)
         = filter (fun b => (minBytes <= Z.of_nat (length b))%Z)
                  (flushes_of u (log w)).*2).
Proof.
  intros Hget Hh w1.
  assert (heap w1 !! r = Some (set_audioChunks [] s)) as Hb
    by by apply flush_buffer.
  split; [done|]. split; [by apply flush_buffer|]. split; [|split].
  3:{ intros Hreach. split.
      - by rewrite (destroy_heap w u r s (reachable_wf w Hreach) Hget Hh).
      - destruct Hreach as (env & t0 & conn & guild & inputs & ->).
        apply (reachable_invariants env t0 conn guild inputs). }
  - intros ok.
    destruct (upload_settled_fields u ok w1) as (_ & _ & _ & -> & -> & _ & ->).
    done.
  - intros Hd ok c w2 w3.
    destruct (upload_settled_fields u ok w1) as (Hu & Hde & Hn & Hhp & _ & Hf & _).
    set (w1' := upload_settled u ok w1) in *.
    assert (destroyed w1' = false) as Hd1
      by (rewrite Hde; unfold w1; by rewrite flush_destroyed).
    assert (heap w1' !! r = Some (set_audioChunks [] s)) as Hb1
      by by rewrite Hhp.
    destruct (on_data_fields r u c w1') as (Hu2 & _ & Hn2 & _).
    fold w2 in Hu2, Hn2.
    pose proof (on_data_chunks r u c w1' _ Hd1 Hb1) as Hc2. fold w2 in Hc2.
    simpl in Hc2. split; [done|].
    destruct (heap w2 !! r) as [s2|] eqn:Hh2; [|done].
    injection Hc2 as Hc2.
    assert (users_get u (users w2) = Some r) as Hget2.
    { rewrite Hu2, Hu. unfold w1. by rewrite flush_users. }
    assert (audioChunks s2 <> []) as Hne by (rewrite Hc2; discriminate).
    unfold w3. rewrite (flush_flushes u w2 r s2 Hget2 Hh2 Hne), Hc2.
    unfold w2 at 1. rewrite on_data_log by done.
    rewrite flushes_of_app, Hf. cbn [flushes_of]. rewrite app_nil_r.
    rewrite Hn2, Hn. unfold w1. rewrite flush_now.
    by replace (concat [c]) with c by (simpl; by rewrite app_nil_r).
Qed.

Lemma flush_drains_buffer_witness :
  heap (_flushAndSend "alice" (set_destroyed true demo_buffered)) !! 0
  = Some (set_audioChunks [] demo_state)
  /\ audioChunks <$>
       heap (on_data 0 "alice" [5; 6]%Z
               (upload_settled "alice" false
                  (_flushAndSend "alice" demo_buffered))) !! 0
     = Some [[5; 6]%Z].
Proof.
  assert (users_get "alice" (users demo_buffered) = Some 0) as H1
    by (vm_compute; reflexivity).
  assert (heap demo_buffered !! 0 = Some demo_state) as H2
    by (vm_compute; reflexivity).
  assert (destroyed demo_buffered = false) as H3 by (vm_compute; reflexivity).
  destruct (flush_drains_buffer demo_buffered "alice" 0 demo_state H1 H2)
    as (_ & Hd & _ & Hnext & _).
  split; [exact Hd | exact (proj1 (Hnext H3 false [5; 6]%Z))].
Defined.


End RecorderFacts.

(* ===================================================================== *)
(** ** Facts about the voice manager                                      *)
(* ===================================================================== *)

Section ManagerFacts.
Import Recorder Manager.

Implicit Types (st : State) (g : GuildId) (vc : VoiceConnection).

Lemma Forall_eq_replicate {A} (x : A) (l : list A) :
  Forall (fun y => y = x) l -> l = replicate (length l) x.
Proof. induction 1 as [|y l -> _ IH]; simpl; [done|]. by rewrite <- IH. Qed.


Lemma acts_acts l1 l2 st : acts l2 (acts l1 st) = acts (l1 ++ l2) st.
Proof. unfold acts. simpl. by rewrite app_assoc. Qed.

(** Once the entry of [g] is gone, a ["destroyed"] listener for [g] only
    prints its line. *)
Lemma destroyed_listener_gone st g :
  recorders st !! g = None -> destroyed_listener st g = acts [DestroyedLine g] st.
Proof.
  intros Hnone. unfold destroyed_listener, recorders_delete, recorders_get_destroy.
  by rewrite Hnone, Hnone.
Qed.

Lemma listeners_gone (k : nat) st g :
  recorders st !! g = None ->
  fold_left destroyed_listener (replicate k g) st
  = acts (replicate k (DestroyedLine g)) st.
Proof.
  revert st. induction k as [|k IH]; intros st Hnone; simpl.
  - unfold acts. rewrite app_nil_r. by destruct st.
  - rewrite destroyed_listener_gone by done.
    rewrite IH by done. by rewrite acts_acts.
Qed.

(** The teardown of an entry, by whichever of the two paths runs first. *)
Lemma recorder_teardown st g rec w :
  recorders st !! g = Some rec -> recs st !! rec = Some w ->
  recorders_delete g (recorders_get_destroy g st)
  = mkState (connections st) (voiceConnections st)
      (<[rec := destroy w]> (recs st)) (delete g (recorders st))
      (trace st ++ [RecorderDestroyed rec; EntryDeleted g])
      (silence_env st) (clock st).
Proof.
  intros Hg Hr. unfold recorders_delete, recorders_get_destroy.
  rewrite Hg, Hr. simpl. rewrite Hg. unfold set_recorders, act. simpl.
  by rewrite <- app_assoc.
Qed.

Lemma recorder_teardown_gone st g :
  recorders st !! g = None ->
  recorders_delete g (recorders_get_destroy g st) = st.
Proof.
  intros Hnone. unfold recorders_delete, recorders_get_destroy.
  by rewrite Hnone, Hnone.
Qed.

Lemma teardown_spec st g c rec vc w :
  has_entry st g c rec vc w ->
  (st' ← connection_destroy c st;
   Some (recorders_delete g (recorders_get_destroy g st')))
  = Some (torn st g c rec vc w).
Proof.
  intros (Hv & Hc & Hs & Hg & Hl & Hr & Hw & _).
  unfold connection_destroy. rewrite Hc.
  rewrite decide_False by done. rewrite Hg, decide_True by done.
  pose proof (Forall_eq_replicate g _ Hl) as Hrep. unfold torn.
  set (n := length (on_destroyed vc)) in *. rewrite Hrep.
  destruct n as [|k]; simpl.
  - erewrite (recorder_teardown _ g rec w); [|exact Hr|exact Hw].
    cbn [connections voiceConnections recs recorders trace silence_env clock
         act set_connections set_voiceConnections].
    by rewrite <- app_assoc.
  - match goal with |- context [destroyed_listener ?s0 g] => set (st_a := s0) end.
    assert (recorders st_a !! g = Some rec) as Hr' by exact Hr.
    assert (recs st_a !! rec = Some w) as Hw' by exact Hw.
    assert (destroyed_listener st_a g
            = act (DestroyedLine g)
                (mkState (connections st_a) (voiceConnections st_a)
                   (<[rec := destroy w]> (recs st_a)) (delete g (recorders st_a))
                   (trace st_a ++ [RecorderDestroyed rec; EntryDeleted g])
                   (silence_env st_a) (clock st_a))) as ->.
    { unfold destroyed_listener.
      by rewrite (recorder_teardown st_a g rec w Hr' Hw'). }
    rewrite listeners_gone by exact (lookup_delete_eq (recorders st_a) g).
    rewrite recorder_teardown_gone by exact (lookup_delete_eq (recorders st_a) g).
    unfold acts, act, st_a.
    cbn [connections voiceConnections recs recorders trace silence_env clock
         set_connections set_voiceConnections].
    do 2 f_equal. cbn [trace act]. by rewrite <- !app_assoc.
Qed.


Lemma join_begin_occupied st g channel c rec vc w :
  has_entry st g c rec vc w ->
  join_begin channel g st
  = Some (length (connections st),
          act (ConnectionCreated (length (connections st)))
            (set_voiceConnections
               (<[g := length (connections st)]>
                  (delete g (voiceConnections st)))
               (set_connections
                  (<[c := set_status Destroyed vc]> (connections st)
                   ++ [ {| conn_guild := g; conn_channel := channel;
                           status := Signalling; on_destroyed := [];
                           on_disconnected := []; on_speaking_start := [] |} ])
                  (torn st g c rec vc w)))).
Proof.
  intros Hentry. pose proof Hentry as (Hv & _).
  unfold join_begin, getVoiceConnection. rewrite Hv.
  rewrite (teardown_spec st g c rec vc w Hentry).
  cbn [mbind option_bind]. unfold djsJoinVoiceChannel.
  assert (voiceConnections (torn st g c rec vc w) !! g = None) as ->
    by exact (lookup_delete_eq (voiceConnections st) g).
  cbn [connections torn]. by rewrite length_insert.
Qed.

(** C9.  A join for a group that has an entry first tears the entry down:
    the old connection is destroyed, the old recorder is destroyed (which
    cancels every timer it had pending and empties its registry) and the
    entry is removed, each exactly once and in this order, whichever of the
    connection's listener and the join itself gets to do it; only then is
    the new connection created, and only after that, when it is ready, is
    the new recorder stored.  In between the group has no entry; at no
    point does it have two. *)
Theorem rejoin_replaces_entry (st : State) (g : GuildId) (channel : string)
  (c rec : nat) (vc : VoiceConnection) (w : World) :
  has_entry st g c rec vc w ->
  let c' := length (connections st) in
  let rec' := length (recs st) in
  exists st1,
    join_begin channel g st = Some (c', st1)
    /\ trace st1
       = trace st
         ++ [ConnectionDestroyed c; RecorderDestroyed rec; EntryDeleted g]
         ++ replicate (length (on_destroyed vc)) (DestroyedLine g)
         ++ [ConnectionCreated c']
    /\ status <$> connections st1 !! c = Some Destroyed
    /\ recs st1 !! rec = Some (destroy w)
    /\ timers (destroy w) = [] /\ users (destroy w) = []
    /\ destroyed (destroy w) = true
    /\ recorders st1 !! g = None
    /\ voiceConnections st1 !! g = Some c' /\ c' <> c
    /\ joinVoiceChannel channel g true st = (Some c', join_ready c' g st1)
    /\ trace (join_ready c' g st1)
       = trace st1 ++ [Connected g; RecorderCreated g rec']
    /\ recorders (join_ready c' g st1) !! g = Some rec' /\ rec' <> rec
    /\ voiceConnections (join_ready c' g st1) !! g = Some c'
    /\ recs (join_ready c' g st1) !! rec = Some (destroy w)
    /\ recs (join_ready c' g st1) !! rec'
       = Some (new_AudioRecorder (silence_env st) (clock st) c' g).
Proof.
  intros Hentry c' rec'.
  pose proof Hentry as (Hv & Hc & Hs & Hg & Hl & Hr & Hw & Hreach).
  pose proof (join_begin_occupied st g channel c rec vc w Hentry) as Hjoin.
  fold c' in Hjoin.
  assert (c < length (connections st)) as Hclt by by eapply lookup_lt_Some.
  assert (rec < length (recs st)) as Hrlt by by eapply lookup_lt_Some.
  eexists. split; [exact Hjoin|].
  cbn [trace connections recs recorders voiceConnections act
       set_voiceConnections set_connections torn].
  split_and!.
  - by rewrite <- !app_assoc.
  - rewrite lookup_app_l by (rewrite length_insert; lia).
    by rewrite list_lookup_insert_eq.
  - by rewrite list_lookup_insert_eq.
  - apply destroy_timers. by apply reachable_wf.
  - apply destroy_users.
  - apply destroy_destroyed.
  - apply lookup_delete_eq.
  - apply lookup_insert_eq.
  - unfold c'. lia.
  - unfold joinVoiceChannel. by rewrite Hjoin.
  - unfold join_ready.
    cbn [trace connections recs recorders voiceConnections act set_recs
         set_recorders set_voiceConnections set_connections torn].
    rewrite length_insert. fold rec'. by rewrite <- !app_assoc.
  - unfold join_ready.
    cbn [trace connections recs recorders voiceConnections act set_recs
         set_recorders set_voiceConnections set_connections torn].
    rewrite length_insert. apply lookup_insert_eq.
  - unfold rec'. lia.
  - unfold join_ready.
    cbn [trace connections recs recorders voiceConnections act set_recs
         set_recorders set_voiceConnections set_connections torn].
    apply lookup_insert_eq.
  - unfold join_ready.
    cbn [trace connections recs recorders voiceConnections act set_recs
         set_recorders set_voiceConnections set_connections torn].
    rewrite lookup_app_l by (rewrite length_insert; lia).
    by rewrite list_lookup_insert_eq.
  - unfold join_ready.
    cbn [trace connections recs recorders voiceConnections act set_recs
         set_recorders set_voiceConnections set_connections torn
         silence_env clock].
    rewrite lookup_app_r by (rewrite length_insert; lia).
    rewrite length_insert. fold rec'. by rewrite Nat.sub_diag.
Qed.


(** A successful join of a group without a connection gives it an entry,
    and the entry stays one while its recorder runs. *)
Lemma join_establishes_entry st g channel :
  voiceConnections st !! g = None ->
  exists vc,
    has_entry (joinVoiceChannel channel g true st).2 g
      (length (connections st)) (length (recs st)) vc
      (new_AudioRecorder (silence_env st) (clock st) (length (connections st)) g).
Proof.
  intros Hnone. unfold joinVoiceChannel, join_begin, getVoiceConnection.
  rewrite Hnone. cbn [mbind option_bind]. unfold djsJoinVoiceChannel.
  rewrite Hnone. unfold join_ready.
  cbn [snd trace connections recs recorders voiceConnections act set_recs
       set_recorders set_voiceConnections set_connections silence_env clock].
  eexists. unfold has_entry.
  cbn [trace connections recs recorders voiceConnections act set_recs
       set_recorders set_voiceConnections set_connections silence_env clock].
  split_and!.
  - apply lookup_insert_eq.
  - rewrite list_lookup_alter_eq.
    rewrite lookup_app_r by lia. by rewrite Nat.sub_diag.
  - discriminate.
  - reflexivity.
  - repeat constructor.
  - apply lookup_insert_eq.
  - rewrite lookup_app_r by lia. by rewrite Nat.sub_diag.
  - by exists (silence_env st), (clock st), (length (connections st)), g, [].
Qed.

Lemma has_entry_recorder_step st g c rec vc w i :
  has_entry st g c rec vc w ->
  has_entry (recorder_step rec i st) g c rec vc (step w i).
Proof.
  intros (Hv & Hc & Hs & Hg & Hl & Hr & Hw & Hreach).
  unfold has_entry, recorder_step.
  cbn [connections recs recorders voiceConnections set_recs].
  split_and!; try done.
  - by rewrite list_lookup_alter_eq, Hw.
  - by apply reachable_step.
Qed.

Lemma demo_recording_has_entry :
  has_entry demo_recording "guild" 0 0 demo_connection demo_buffered.
Proof.
  unfold has_entry. split_and!.
  - vm_compute. reflexivity.
  - vm_compute. reflexivity.
  - discriminate.
  - reflexivity.
  - repeat constructor.
  - vm_compute. reflexivity.
  - vm_compute. reflexivity.
  - exact demo_buffered_reachable.
Defined.

Lemma rejoin_replaces_entry_witness :
  exists st1,
    join_begin "other" "guild" demo_recording
    = Some (length (connections demo_recording), st1)
    /\ recs st1 !! 0 = Some (destroy demo_buffered)
    /\ recorders st1 !! "guild" = None.
Proof.
  destruct (rejoin_replaces_entry demo_recording "guild" "other" 0 0
              demo_connection demo_buffered demo_recording_has_entry)
    as (st1 & H1 & _ & _ & H4 & _ & _ & _ & H8 & _).
  exists st1. split_and!; assumption.
Defined.

(** Joining the same guild twice, with "alice" recorded in between. *)
Example join_twice_scenario :
  trace (joinVoiceChannel "other" "guild" true demo_recording).2
  = [ConnectionCreated 0; Connected "guild"; RecorderCreated "guild" 0;
     ConnectionDestroyed 0; RecorderDestroyed 0; EntryDeleted "guild";
     DestroyedLine "guild";
     ConnectionCreated 1; Connected "guild"; RecorderCreated "guild" 1].
Proof. vm_compute. reflexivity. Qed.

End ManagerFacts.

(* ===================================================================== *)
(** ** More on the WAV container                                          *)
(* ===================================================================== *)

Section WavMore.
Import Api Format.

Lemma writeUIntLE_range width v off buf :
  ~ (0 <= v <= 2 ^ (8 * Z.of_nat width) - 1)%Z ->
  writeUIntLE width v off buf = RangeError.
Proof.
  intros Hv. unfold writeUIntLE.
  destruct (Z.leb_spec 0 v); [|done].
  destruct (Z.leb_spec v (2 ^ (8 * Z.of_nat width) - 1)); [lia|done].
Qed.

Local Ltac wav_ok :=
  rewrite writeUIntLE_ok;
    [ cbn [mbind result_bind]
    | change (2 ^ (8 * Z.of_nat 4) - 1)%Z with 4294967295%Z;
      change (2 ^ (8 * Z.of_nat 2) - 1)%Z with 65535%Z; lia
    | rewrite ?blit_length; unfold Buffer_alloc;
      rewrite length_replicate; lia ].

Local Ltac wav_bad :=
  rewrite writeUIntLE_range;
    [ reflexivity
    | change (2 ^ (8 * Z.of_nat 4) - 1)%Z with 4294967295%Z;
      change (2 ^ (8 * Z.of_nat 2) - 1)%Z with 65535%Z; lia ].

Lemma createWavBuffer_range (pcm : Buffer) (R C : Z) :
  ~ fits_header (length pcm) R C -> createWavBuffer pcm R C = RangeError.
Proof.
  intros Hbad. unfold fits_header in Hbad.
  unfold createWavBuffer, writeUInt32LE, writeUInt16LE, write, copy.
  change (16 / 8)%Z with 2%Z.
  destruct (decide (36 + Z.of_nat (length pcm) <= 4294967295)%Z);
    [wav_ok | wav_bad].
  wav_ok. wav_ok.
  destruct (decide (0 <= C <= 65535)%Z); [wav_ok | wav_bad].
  destruct (decide (0 <= R <= 4294967295)%Z); [wav_ok | wav_bad].
  destruct (decide (0 <= R * C * 2 <= 4294967295)%Z); [wav_ok | wav_bad].
  destruct (decide (0 <= C * 2 <= 65535)%Z); [wav_ok | wav_bad].
  exfalso. apply Hbad. lia.
Qed.


Lemma createWavBuffer_fits (pcm : Buffer) (R C : Z) :
  fits_header (length pcm) R C ->
  createWavBuffer pcm R C = Ok (wav_header R C (length pcm) ++ pcm).
Proof. intros (? & ? & ? & ? & ?). by apply createWavBuffer_ok. Qed.

Lemma createWavBuffer_Ok_inv (pcm : Buffer) (R C : Z) wav :
  createWavBuffer pcm R C = Ok wav ->
  fits_header (length pcm) R C /\ wav = wav_header R C (length pcm) ++ pcm.
Proof.
  intros Hok.
  assert (Decision (fits_header (length pcm) R C)) as [Hf|Hn]
    by (unfold fits_header; apply _).
  - split; [done|]. rewrite (createWavBuffer_fits pcm R C Hf) in Hok. congruence.
  - rewrite (createWavBuffer_range pcm R C Hn) in Hok. discriminate.
Qed.

(** X1.  The encoder fails exactly outside the header's range.
    [createWavBuffer] raises a range error, and produces no buffer, exactly
    when the declared format does not fit the header: a negative channel
    count or sample rate, a block align above 65535, or a sample rate, a byte
    rate or a file size above [2^32 - 1].  In every other case it returns the
    44 header octets followed by the payload. *)
Theorem createWavBuffer_fails_exactly (pcm : Buffer) (R C : Z) :
  (createWavBuffer pcm R C = RangeError <-> ~ fits_header (length pcm) R C)
  /\ (fits_header (length pcm) R C ->
      createWavBuffer pcm R C = Ok (wav_header R C (length pcm) ++ pcm)).
Proof.
  split; [|apply createWavBuffer_fits]. split.
  - intros Hr Hf. rewrite (createWavBuffer_fits pcm R C Hf) in Hr. discriminate.
  - apply createWavBuffer_range.
Qed.

Lemma createWavBuffer_fails_exactly_witness :
  createWavBuffer [1; 2; 3; 4]%Z 48000 2
  = Ok (wav_header 48000 2 (length [1; 2; 3; 4]%Z) ++ [1; 2; 3; 4]%Z).
Proof.
  apply (proj2 (createWavBuffer_fails_exactly [1; 2; 3; 4]%Z 48000 2)).
  unfold fits_header. simpl. lia.
Defined.

Lemma wav_header_length (R C : Z) (n : nat) : length (wav_header R C n) = 44.
Proof. reflexivity. Qed.

(** X2.  The container determines its input.  Two calls of
    [createWavBuffer] that return the same buffer were given the same
    payload, the same sample rate and the same channel count. *)
Theorem createWavBuffer_injective (pcm pcm' : Buffer) (R R' C C' : Z)
  (wav : Buffer) :
  createWavBuffer pcm R C = Ok wav -> createWavBuffer pcm' R' C' = Ok wav ->
  pcm = pcm' /\ R = R' /\ C = C'.
Proof.
  intros [Hf ->]%createWavBuffer_Ok_inv [Hf' Heq]%createWavBuffer_Ok_inv.
  assert (pcm = pcm') as <-.
  { apply (f_equal (drop 44)) in Heq.
    by rewrite (drop_app_length' (wav_header R C _) pcm 44 eq_refl),
         (drop_app_length' (wav_header R' C' _) pcm' 44 eq_refl) in Heq. }
  destruct Hf as (F1 & F2 & F3 & F4 & F5).
  destruct Hf' as (G1 & G2 & G3 & G4 & G5).
  destruct (wav_header_container pcm R C F1 F2 F3 F4 F5)
    as (_ & _ & _ & _ & _ & _ & _ & Hc & Hr & _).
  destruct (wav_header_container pcm R' C' G1 G2 G3 G4 G5)
    as (_ & _ & _ & _ & _ & _ & _ & Hc' & Hr' & _).
  rewrite Heq in Hc, Hr. split_and!; [done| |]; congruence.
Qed.

Lemma createWavBuffer_injective_witness :
  [1; 2; 3; 4]%Z = [1; 2; 3; 4]%Z /\ 48000%Z = 48000%Z /\ 2%Z = 2%Z.
Proof.
  apply (createWavBuffer_injective [1; 2; 3; 4]%Z [1; 2; 3; 4]%Z 48000 48000 2 2
           (wav_header 48000 2 4 ++ [1; 2; 3; 4]%Z));
    vm_compute; reflexivity.
Defined.

End WavMore.

(* ===================================================================== *)
(** ** More on the recorder                                               *)
(* ===================================================================== *)

Section RecorderMore.
Import Api Recorder Session.

Implicit Types (w : World) (u : UserId) (r : Ref) (s : UserState).

(** *** After [destroy()] *)

Lemma destroy_dead w : destroyed w = true -> users w = [] -> destroy w = w.
Proof. destruct w; simpl. by intros -> ->. Qed.

Lemma passive_observed l u :
  Forall passive l ->
  subscriptions_of u l = 0 /\ received_of u l = [] /\ flushes_of u l = []
  /\ uploads_of u l = [].
Proof.
  induction 1 as [|e l He _ IH]; [done|].
  destruct e; simpl in *; done.
Qed.

Lemma step_destroyed w i :
  i <> Destroy -> destroyed (step w i) = destroyed w.
Proof.
  intros Hi. destruct i; cbn [step]; try done.
  - unfold handleUserSpeaking. destruct (destroyed w) eqn:Hd; [done|].
    destruct (users_get u (users w));
      match goal with |- context [_resetSilenceTimer u ?w0] =>
        by destruct (reset_fields u w0) as (_ & -> & _) end.
  - destruct (heap w !! ref) as [s|]; [|done]. case_match; [|done].
    by destruct (on_data_fields ref (userId s) chunk w) as (_ & -> & _).
  - by destruct (heap w !! ref).
  - destruct (heap w !! ref); [|done]. unfold on_close.
    by rewrite flush_destroyed.
  - destruct (earliest (timers w)) as [t|]; [|done].
    by destruct (fire_fields t w) as (_ & -> & _).
  - by case_match.
  - unfold upload_settled. by destruct ok.
Qed.

Lemma Stream_destroy_idem (o : option Stream) :
  Stream_destroy (Stream_destroy o) = Stream_destroy o.
Proof. by destruct o. Qed.

Lemma opus_destroyed_dead r w s :
  streams_dead w -> destroyed w = true -> heap w !! r = Some s ->
  opus_destroyed r w = w.
Proof.
  intros Hs Hd Hh. unfold opus_destroyed, update.
  rewrite (alter_fixed _ (heap w) r s); [by destruct w | done |].
  destruct s as [? ? ? ? ? o ?]. pose proof (Hs Hd r _ Hh) as Ho. simpl in Ho.
  unfold set_opusStream. simpl. by rewrite Ho.
Qed.

Lemma step_dead w i :
  wf w -> streams_dead w -> destroyed w = true ->
  destroyed (step w i) = true /\ users (step w i) = [] /\ timers (step w i) = []
  /\ heap (step w i) = heap w /\ emits passive w (step w i).
Proof.
  intros Hwf Hs Hd. destruct (wf_dead w Hwf Hd) as [Hu Ht].
  assert (forall u0, _flushAndSend u0 w = w) as Hflush.
  { intros u0. apply flush_noop. intros r s. by rewrite Hu. }
  destruct i; cbn [step].
  - unfold handleUserSpeaking. rewrite Hd. split_and!; try done. by apply emits_same.
  - destruct (heap w !! ref); [case_match|]; unfold on_data; rewrite ?Hd;
      split_and!; try done; by apply emits_same.
  - destruct (heap w !! ref); unfold on_error;
      split_and!; try done; [by apply emits_add_log | by apply emits_same].
  - destruct (heap w !! ref) as [s|] eqn:Hh;
      [|split_and!; try done; by apply emits_same].
    rewrite (opus_destroyed_dead ref w s) by done.
    unfold on_close. rewrite flush_noop by (intros r0 s0; simpl; by rewrite Hu).
    split_and!; try done. by apply emits_add_log.
  - rewrite Ht. simpl. split_and!; try done. by apply emits_same.
  - case_match; split_and!; try done; by apply emits_same.
  - unfold upload_settled. destruct ok; split_and!; try done; by apply emits_add_log.
  - rewrite destroy_dead by done. split_and!; try done. by apply emits_same.
Qed.

Lemma streams_dead_step w i : wf w -> streams_dead w -> streams_dead (step w i).
Proof.
  intros Hwf Hs Hd'. destruct (destroyed w) eqn:Hd.
  { destruct (step_dead w i Hwf Hs Hd) as (_ & _ & _ & -> & _). by apply Hs. }
  destruct i; try (rewrite step_destroyed in Hd' by done; congruence).
  cbn [step]. intros r s' Hl.
  destruct (heap w !! r) as [s|] eqn:Hh.
  - assert (skel (heap w) !! r = Some (userId s, silenceTimer s)) as Hk
      by (apply skel_lookup; eauto).
    pose proof (wf_live w Hwf Hd r _ _ Hk) as Hin.
    assert (users_get (userId s) (users w) = Some r) as Hget
      by (apply users_get_Some; [by apply wf_keys | done]).
    rewrite (destroy_heap w _ r s Hwf Hget Hh) in Hl. injection Hl as <-.
    unfold torn_down. simpl. apply Stream_destroy_idem.
  - apply lookup_ge_None in Hh. apply lookup_lt_Some in Hl.
    pose proof (f_equal length (objects_destroy w)) as Hlen.
    unfold objects in Hlen. rewrite !length_fmap in Hlen. lia.
Qed.

Lemma streams_dead_run inputs w :
  wf w -> streams_dead w -> streams_dead (run w inputs).
Proof.
  revert w. induction inputs as [|i inputs IH]; intros w Hwf Hs; simpl; [done|].
  apply IH; [by apply wf_step | by apply streams_dead_step].
Qed.

Lemma reachable_streams_dead w : reachable w -> streams_dead w.
Proof.
  intros (env & t0 & conn & guild & inputs & ->).
  apply streams_dead_run; [apply wf_new | done].
Qed.

(** X3.  A destroyed recorder stays silent.  Whatever is delivered to a
    recorder after [destroy()] (speaking signals, decoded chunks, stream
    closures and errors, timers, upload results, further calls of
    [destroy()]), it stays destroyed, tracks no speaker, has no timer
    pending and touches no buffer; it subscribes to no stream, buffers no
    chunk, flushes nothing and calls no upload: all it still prints are the
    results of uploads in flight and the close and error lines of streams. *)
Theorem destroyed_recorder_stays_silent (w : World) (inputs : list Input) :
  reachable w -> destroyed w = true ->
  destroyed (run w inputs) = true
  /\ users (run w inputs) = [] /\ timers (run w inputs) = []
  /\ heap (run w inputs) = heap w
  /\ emits passive w (run w inputs)
  /\ forall u,
       subscriptions_of u (log (run w inputs)) = subscriptions_of u (log w)
       /\ received_of u (log (run w inputs)) = received_of u (log w)
       /\ flushes_of u (log (run w inputs)) = flushes_of u (log w)
       /\ uploads_of u (log (run w inputs)) = uploads_of u (log w).
Proof.
  intros Hreach Hd. pose proof (reachable_wf w Hreach) as Hwf.
  pose proof (reachable_streams_dead w Hreach) as Hs. clear Hreach.
  assert (destroyed (run w inputs) = true
          /\ users (run w inputs) = [] /\ timers (run w inputs) = []
          /\ heap (run w inputs) = heap w
          /\ emits passive w (run w inputs)) as (H1 & H2 & H3 & H4 & H5).
  { revert w Hwf Hs Hd. induction inputs as [|i inputs IH]; intros w Hwf Hs Hd.
    - destruct (wf_dead w Hwf Hd). simpl. split_and!; try done. by apply emits_same.
    - simpl. destruct (step_dead w i Hwf Hs Hd) as (S1 & S2 & S3 & S4 & S5).
      destruct (IH (step w i) (wf_step w i Hwf) (streams_dead_step w i Hwf Hs) S1)
        as (I1 & I2 & I3 & I4 & I5).
      split_and!; try done; [congruence|]. by eapply emits_trans. }
  split_and!; try done.
  intros u. destruct H5 as (l & -> & Hl).
  destruct (passive_observed l u Hl) as (P1 & P2 & P3 & P4).
  rewrite subscriptions_of_app, received_of_app, flushes_of_app, uploads_of_app.
  rewrite P1, P2, P3, P4, !app_nil_r. split_and!; try done; lia.
Qed.

Lemma demo_destroyed_reachable : reachable (destroy demo_buffered).
Proof. exact (reachable_step demo_buffered Destroy demo_buffered_reachable). Defined.

Lemma destroyed_recorder_stays_silent_witness :
  users (run (destroy demo_buffered)
           [SpeakingStart "bob"; DecoderData 0 [5; 6]%Z; TimerFires]) = []
  /\ heap (run (destroy demo_buffered)
             [SpeakingStart "bob"; DecoderData 0 [5; 6]%Z; TimerFires])
     = heap (destroy demo_buffered).
Proof.
  assert (destroyed (destroy demo_buffered) = true) as Hd
    by (vm_compute; reflexivity).
  destruct (destroyed_recorder_stays_silent (destroy demo_buffered)
              [SpeakingStart "bob"; DecoderData 0 [5; 6]%Z; TimerFires]
              demo_destroyed_reachable Hd) as (_ & H2 & _ & H4 & _).
  split; assumption.
Defined.


(** *** Buffers and timers *)

Lemma armed_shrink w w' :
  timers w' = timers w ->
  (forall r s', heap w' !! r = Some s' -> audioChunks s' <> [] ->
     exists s, heap w !! r = Some s /\ audioChunks s <> []) ->
  armed w -> armed w'.
Proof.
  intros Ht Hh Ha r s' Hl Hc. rewrite Ht.
  destruct (Hh r s' Hl Hc) as (s & Hl0 & Hc0). by apply (Ha r s).
Qed.

Lemma lookup_alter_chunks (f : UserState -> UserState) r0 (h : list UserState) r s' :
  (forall s, audioChunks (f s) = audioChunks s \/ audioChunks (f s) = []) ->
  alter f r0 h !! r = Some s' -> audioChunks s' <> [] ->
  exists s, h !! r = Some s /\ audioChunks s <> [].
Proof.
  intros Hf Hl Hc. destruct (decide (r0 = r)) as [->|Hne].
  - rewrite list_lookup_alter_eq in Hl.
    destruct (h !! r) as [s|]; [|done]. injection Hl as <-.
    exists s. split; [done|]. destruct (Hf s) as [E|E]; congruence.
  - rewrite list_lookup_alter_ne in Hl by done. eauto.
Qed.

Lemma armed_update w r (f : UserState -> UserState) :
  (forall s, audioChunks (f s) = audioChunks s \/ audioChunks (f s) = []) ->
  armed w -> armed (update r f w).
Proof.
  intros Hf. apply armed_shrink; [done|]. intros r0 s' Hl Hc.
  by apply (lookup_alter_chunks f r (heap w) r0 s').
Qed.

Lemma armed_add_log w e : armed w -> armed (add_log e w).
Proof. apply armed_shrink; [done|]. eauto. Qed.

Lemma flush_chunks u w r s' :
  heap (_flushAndSend u w) !! r = Some s' -> audioChunks s' <> [] ->
  exists s, heap w !! r = Some s /\ audioChunks s <> [].
Proof.
  destruct (users_get u (users w)) as [r0|] eqn:Hget.
  2:{ rewrite flush_noop by (intros ? ? H; congruence). eauto. }
  destruct (heap w !! r0) as [s0|] eqn:Hh.
  2:{ rewrite flush_noop by (intros ? ? H H0; congruence). eauto. }
  rewrite (flush_heap u w r0 s0 Hget Hh).
  intros Hl Hc.
  apply (lookup_alter_chunks (set_audioChunks []) r0 (heap w) r s'); auto.
Qed.

Lemma armed_flush u w : armed w -> armed (_flushAndSend u w).
Proof. apply armed_shrink; [apply flush_timers | apply flush_chunks]. Qed.

(** A reset arms the object of the speaker and disarms no other. *)
Lemma armed_reset_at w u r :
  wf w -> users_get u (users w) = Some r ->
  (forall r0 s0, heap w !! r0 = Some s0 -> audioChunks s0 <> [] -> r0 <> r ->
     exists t, t ∈ timers w /\ timer_ref t = r0) ->
  armed (_resetSilenceTimer u w).
Proof.
  intros Hwf Hget Hothers. rewrite (reset_spec w u r Hwf Hget).
  intros r0 s' Hl Hc. cbn [heap timers set_heap set_next_timer set_timers] in *.
  unfold reset_timers.
  destruct (decide (r0 = r)) as [->|Hne].
  - exists (silence_timer u r w). split; [|done].
    apply elem_of_app. right. apply elem_of_cons; auto.
  - rewrite list_lookup_alter_ne in Hl by done.
    destruct (Hothers r0 s' Hl Hc Hne) as (t & Ht & Hr).
    exists t. split; [|done]. apply elem_of_app. left.
    apply list_elem_of_filter. split; [|done]. intros Hu.
    destruct (wf_users_get w u r Hwf Hget) as (_ & st & Hs).
    pose proof (wf_owner w Hwf t Ht) as Ho. rewrite Hu, Hr in Ho.
    apply Hne. by eapply wf_same_user.
Qed.

Lemma armed_reset w u : wf w -> armed w -> armed (_resetSilenceTimer u w).
Proof.
  intros Hwf Ha. destruct (users_get u (users w)) as [r|] eqn:Hget.
  - apply (armed_reset_at w u r Hwf Hget). intros r0 s0 Hl Hc _. by apply (Ha r0 s0).
  - unfold _resetSilenceTimer. by rewrite Hget.
Qed.

Lemma armed_on_data w r s c :
  wf w -> heap w !! r = Some s -> armed w -> armed (on_data r (userId s) c w).
Proof.
  intros Hwf Hh Ha. destruct (destroyed w) eqn:Hd.
  { unfold on_data. by rewrite Hd. }
  rewrite on_data_live by done.
  match goal with |- armed (_resetSilenceTimer _ ?w0) => set (w3 := w0) end.
  assert (wf w3) as Hwf3
    by (apply wf_update, wf_add_log, wf_update; done).
  assert (users_get (userId s) (users w3) = Some r) as Hget.
  { change (users w3) with (users w).
    apply (wf_users_get_live w (userId s) r (silenceTimer s)); [done..|].
    apply skel_lookup. eauto. }
  apply (armed_reset_at w3 (userId s) r Hwf3 Hget).
  intros r0 s0 Hl Hc Hne. change (timers w3) with (timers w).
  apply (Ha r0 s0); [|done].
  unfold w3 in Hl. cbn [heap update set_heap add_log] in Hl.
  by rewrite !list_lookup_alter_ne in Hl by done.
Qed.

Lemma users_get_app_new (m : list (UserId * Ref)) u r :
  users_get u m = None -> users_get u (m ++ [(u, r)]) = Some r.
Proof.
  induction m as [|[u' r'] m IH]; simpl; intros Hn.
  - by rewrite decide_True.
  - destruct (decide (u = u')); [done|]. by apply IH.
Qed.

Lemma armed_handleUserSpeaking u w :
  wf w -> armed w -> armed (handleUserSpeaking u w).
Proof.
  intros Hwf Ha. unfold handleUserSpeaking.
  destruct (destroyed w) eqn:Hd; [done|].
  destruct (users_get u (users w)) as [r|] eqn:Hget.
  - apply armed_reset; [by apply wf_update|]. apply armed_update; auto.
  - match goal with |- armed (_resetSilenceTimer u ?w0) => set (w1 := w0) end.
    assert (wf w1) as Hwf1 by exact (wf_new_user w u Hwf Hd Hget).
    apply (armed_reset_at w1 u (length (heap w)) Hwf1).
    { apply users_get_app_new. exact Hget. }
    intros r0 s0 Hl Hc Hne. change (timers w1) with (timers w).
    unfold w1 in Hl. cbn [heap set_users set_heap add_log] in Hl.
    apply (Ha r0 s0); [|done].
    apply lookup_app_Some in Hl as [Hl|[Hge Hl]]; [done|].
    apply list_lookup_singleton_Some in Hl as [Hz <-]. simpl in Hc. done.
Qed.

Lemma armed_fire w t :
  wf w -> t ∈ timers w -> armed w -> armed (fire t w).
Proof.
  intros Hwf Ht Ha r s' Hl Hc.
  destruct (fire_fields t w) as (_ & _ & _ & _ & Hts).
  assert (exists s, heap w !! r = Some s /\ audioChunks s <> [])
    as (s & Hl0 & Hc0).
  { unfold fire, on_silence in Hl.
    apply flush_chunks in Hl as (s1 & Hl1 & Hc1); [|done].
    cbn [heap update set_heap set_timers set_now] in Hl1.
    apply (lookup_alter_chunks (set_isSpeaking false) _ (heap w) r s1) in Hl1;
      auto. }
  destruct (Ha r s Hl0 Hc0) as (t0 & Ht0 & Hr0).
  destruct (decide (timer_id t0 = timer_id t)) as [Heq|Hne].
  - exfalso.
    assert (t0 = t) as ->.
    { pose proof (wf_timer_ids w Hwf) as Hnd.
      apply list_elem_of_lookup in Ht0 as [i Hi].
      apply list_elem_of_lookup in Ht as [j Hj].
      assert (i = j) as ->.
      { apply (NoDup_lookup _ i j (timer_id t) Hnd);
          rewrite list_lookup_fmap; [by rewrite Hi, <- Heq | by rewrite Hj]. }
      congruence. }
    pose proof (wf_owner w Hwf t Ht) as Ho. rewrite Hr0 in Ho.
    assert (destroyed w = false) as Hd.
    { destruct (destroyed w) eqn:Hd; [|done].
      destruct (wf_dead w Hwf Hd) as [_ E]. rewrite E in Ht.
      by apply elem_of_nil in Ht. }
    pose proof (wf_users_get_live w _ r _ Hwf Hd Ho) as Hget.
    destruct (fire_own_timer w t (timer_user t) r s Hwf Ht eq_refl Hget Hl0)
      as (_ & _ & Hh' & _).
    rewrite Hh' in Hl. injection Hl as <-. simpl in Hc. done.
  - exists t0. split; [|done]. rewrite Hts.
    apply list_elem_of_filter. done.
Qed.

(** After [destroy()] every buffer is empty. *)
Lemma destroy_empties w r s' :
  wf w -> armed w -> heap (destroy w) !! r = Some s' -> audioChunks s' = [].
Proof.
  intros Hwf Ha Hl. destruct (destroyed w) eqn:Hd.
  - destruct (wf_dead w Hwf Hd) as [Hu Ht].
    rewrite destroy_dead in Hl by done.
    destruct (audioChunks s') eqn:E; [done|].
    destruct (Ha r s' Hl) as (t & Hin & _); [congruence|].
    rewrite Ht in Hin. by apply elem_of_nil in Hin.
  - assert (exists s, heap w !! r = Some s) as [s Hl0].
    { apply lookup_lt_is_Some. apply lookup_lt_Some in Hl.
      destruct (destroy_loop_shape (users (set_destroyed true w))
                  (set_destroyed true w)) as (_ & _ & Hs & _).
      unfold destroy in Hl. cbn [heap set_users] in Hl.
      assert (length (skel (heap (fold_left destroy_user
                (users (set_destroyed true w)) (set_destroyed true w))))
              = length (skel (heap w))) as Hlen by (by rewrite Hs).
      unfold skel in Hlen. rewrite !length_fmap in Hlen. lia. }
    assert (users_get (userId s) (users w) = Some r) as Hget.
    { apply (wf_users_get_live w (userId s) r (silenceTimer s)); [done..|].
      apply skel_lookup. eauto. }
    rewrite (destroy_heap w (userId s) r s Hwf Hget Hl0) in Hl.
    by injection Hl as <-.
Qed.

Lemma armed_destroy w : wf w -> armed w -> armed (destroy w).
Proof.
  intros Hwf Ha r s' Hl Hc. exfalso. apply Hc.
  by apply (destroy_empties w r s').
Qed.

Lemma armed_step w i : wf w -> armed w -> armed (step w i).
Proof.
  intros Hwf Ha. destruct i; cbn [step].
  - by apply armed_handleUserSpeaking.
  - destruct (heap w !! ref) as [s|] eqn:Hh; [|done].
    case_match; [by apply armed_on_data | done].
  - destruct (heap w !! ref); [by apply armed_add_log | done].
  - destruct (heap w !! ref); [|done].
    apply armed_flush, armed_add_log, armed_update; [|done]. auto.
  - destruct (earliest (timers w)) as [t|] eqn:He; [|done].
    apply armed_fire; [done| |done]. by apply earliest_spec in He as [? _].
  - case_match; [|done]. revert Ha. apply armed_shrink; [done|]. eauto.
  - unfold upload_settled. destruct ok; by apply armed_add_log.
  - by apply armed_destroy.
Qed.

Lemma armed_run inputs w : wf w -> armed w -> armed (run w inputs).
Proof.
  revert w. induction inputs as [|i inputs IH]; intros w Hwf Ha; [done|].
  simpl. apply IH; [by apply wf_step | by apply armed_step].
Qed.

Lemma reachable_armed w : reachable w -> armed w.
Proof.
  intros (env & t0 & conn & guild & inputs & ->).
  apply armed_run; [apply wf_new|]. intros r s Hl. done.
Qed.


(** *** What no step changes, and where timers come from *)

Lemma flush_guild u w : guildId (_flushAndSend u w) = guildId w.
Proof. unfold _flushAndSend. repeat case_match; done. Qed.

Lemma reset_timers_in u w t :
  t ∈ timers (_resetSilenceTimer u w) ->
  t ∈ timers w
  \/ deadline t = (now w + timeout_delay (SILENCE_DURATION_MS w))%Z.
Proof.
  unfold _resetSilenceTimer, setTimeout, clearTimeout.
  repeat case_match; simplify_eq; cbn [timers update set_heap set_next_timer
    set_timers]; auto.
  - intros [Hin|Hin]%elem_of_app.
    + apply list_elem_of_filter in Hin as [_ Hin]. auto.
    + apply list_elem_of_singleton in Hin as ->. auto.
  - intros [Hin|Hin]%elem_of_app; [auto|].
    apply list_elem_of_singleton in Hin as ->. auto.
Qed.

Lemma destroy_user_consts w e :
  SILENCE_DURATION_MS (destroy_user w e) = SILENCE_DURATION_MS w
  /\ guildId (destroy_user w e) = guildId w.
Proof.
  destruct e as [u r]. unfold destroy_user.
  destruct (heap w !! r) as [s|]; [|done].
  cbn [SILENCE_DURATION_MS guildId add_log update set_heap].
  rewrite flush_quiet, flush_guild. by destruct (silenceTimer s).
Qed.

Lemma destroy_loop_consts (m : list (UserId * Ref)) w :
  SILENCE_DURATION_MS (fold_left destroy_user m w) = SILENCE_DURATION_MS w
  /\ guildId (fold_left destroy_user m w) = guildId w.
Proof.
  revert w. induction m as [|e m IH]; intros w; [done|]. cbn [fold_left].
  destruct (IH (destroy_user w e)) as [-> ->]. apply destroy_user_consts.
Qed.

Lemma destroy_consts w :
  SILENCE_DURATION_MS (destroy w) = SILENCE_DURATION_MS w
  /\ guildId (destroy w) = guildId w
  /\ now (destroy w) = now w.
Proof.
  unfold destroy. cbn [SILENCE_DURATION_MS guildId now set_users].
  destruct (destroy_loop_shape (users (set_destroyed true w))
              (set_destroyed true w)) as (_ & _ & _ & _ & Hn).
  destruct (destroy_loop_consts (users (set_destroyed true w))
              (set_destroyed true w)) as [Hq Hg].
  split_and!; [exact Hq | exact Hg | exact Hn].
Qed.

Lemma reset_frame u w0 w :
  SILENCE_DURATION_MS w0 = SILENCE_DURATION_MS w -> guildId w0 = guildId w ->
  now w0 = now w -> timers w0 = timers w ->
  SILENCE_DURATION_MS (_resetSilenceTimer u w0) = SILENCE_DURATION_MS w
  /\ guildId (_resetSilenceTimer u w0) = guildId w
  /\ (now w <= now (_resetSilenceTimer u w0))%Z
  /\ forall t, t ∈ timers (_resetSilenceTimer u w0) ->
       t ∈ timers w
       \/ deadline t
          = (now (_resetSilenceTimer u w0)
             + timeout_delay (SILENCE_DURATION_MS w))%Z.
Proof.
  intros Hq Hg Hn Ht.
  destruct (reset_fields u w0) as (_ & _ & -> & -> & ->).
  rewrite Hq, Hg, Hn. split_and!; try done; try lia.
  intros t Hin. apply reset_timers_in in Hin. by rewrite Ht, Hn, Hq in Hin.
Qed.

Lemma same_frame w' w :
  SILENCE_DURATION_MS w' = SILENCE_DURATION_MS w -> guildId w' = guildId w ->
  (now w <= now w')%Z -> (forall t, t ∈ timers w' -> t ∈ timers w) ->
  SILENCE_DURATION_MS w' = SILENCE_DURATION_MS w
  /\ guildId w' = guildId w
  /\ (now w <= now w')%Z
  /\ forall t, t ∈ timers w' ->
       t ∈ timers w
       \/ deadline t = (now w' + timeout_delay (SILENCE_DURATION_MS w))%Z.
Proof. intros. split_and!; auto. Qed.

Lemma step_frame w i :
  wf w ->
  SILENCE_DURATION_MS (step w i) = SILENCE_DURATION_MS w
  /\ guildId (step w i) = guildId w
  /\ (now w <= now (step w i))%Z
  /\ forall t, t ∈ timers (step w i) ->
       t ∈ timers w
       \/ deadline t
          = (now (step w i) + timeout_delay (SILENCE_DURATION_MS w))%Z.
Proof.
  intros Hwf. destruct i; cbn [step].
  - unfold handleUserSpeaking.
    destruct (destroyed w); [apply same_frame; auto; lia|].
    destruct (users_get u (users w)) as [r|]; by apply reset_frame.
  - destruct (heap w !! ref) as [s|]; [|apply same_frame; auto; lia].
    case_match; [|apply same_frame; auto; lia].
    unfold on_data. destruct (destroyed w); [apply same_frame; auto; lia|].
    by apply reset_frame.
  - destruct (heap w !! ref); apply same_frame; auto; cbn; lia.
  - destruct (heap w !! ref); [|apply same_frame; auto; lia].
    unfold on_close. apply same_frame.
    + by rewrite flush_quiet.
    + by rewrite flush_guild.
    + rewrite flush_now. cbn. lia.
    + by rewrite flush_timers.
  - destruct (earliest (timers w)) as [t0|]; [|apply same_frame; auto; lia].
    destruct (fire_fields t0 w) as (_ & _ & Hq & Hn & Hts).
    apply same_frame; [done | | lia |].
    + unfold fire, on_silence. by rewrite flush_guild.
    + rewrite Hts. by intros t [_ Ht]%list_elem_of_filter.
  - destruct (Z.leb_spec (now w) t); cbn [andb]; [|apply same_frame; auto; lia].
    destruct (none_overdue t (timers w)); apply same_frame; auto; cbn; lia.
  - unfold upload_settled. destruct ok; apply same_frame; auto; cbn; lia.
  - destruct (destroy_consts w) as (Hq & Hg & Hn).
    apply same_frame; [done | done | lia |].
    rewrite destroy_timers by done. by intros t Ht%elem_of_nil.
Qed.

Lemma timely_step w i : wf w -> timely w -> timely (step w i).
Proof.
  intros Hwf Ht t Hin.
  destruct (step_frame w i Hwf) as (-> & _ & Hnow & Hts).
  destruct (Hts t Hin) as [Hold|Hnew]; [|rewrite Hnew; lia].
  specialize (Ht t Hold). lia.
Qed.

Lemma reachable_timely w : reachable w -> timely w.
Proof.
  intros (env & t0 & conn & guild & inputs & ->).
  assert (forall w, wf w -> timely w -> timely (run w inputs)) as H.
  { induction inputs as [|i inputs IH]; intros w Hwf Ht; [done|].
    simpl. apply IH; [by apply wf_step | by apply timely_step]. }
  apply H; [apply wf_new|]. intros t Hin. by apply elem_of_nil in Hin.
Qed.

Lemma reachable_guild env t0 conn guild inputs :
  guildId (run (new_AudioRecorder env t0 conn guild) inputs) = guild
  /\ SILENCE_DURATION_MS (run (new_AudioRecorder env t0 conn guild) inputs)
     = parse_SILENCE_DURATION_MS env.
Proof.
  assert (forall w, wf w ->
            guildId (run w inputs) = guildId w
            /\ SILENCE_DURATION_MS (run w inputs) = SILENCE_DURATION_MS w) as H.
  { induction inputs as [|i inputs IH]; intros w Hwf; [done|].
    simpl. destruct (IH (step w i) (wf_step w i Hwf)) as [-> ->].
    by destruct (step_frame w i Hwf) as (-> & -> & _). }
  apply (H _ (wf_new env t0 conn guild)).
Qed.


(** *** What [destroy()] flushes *)

Lemma flush_flushes_of u' w r s u :
  users_get u' (users w) = Some r -> heap w !! r = Some s ->
  flushes_of u (log (_flushAndSend u' w))
  = flushes_of u (log w)
    ++ if decide (u' = u) then last_flush (now w) s else [].
Proof.
  intros Hget Hh. unfold last_flush.
  destruct (audioChunks s) as [|c cs] eqn:Hc.
  - rewrite flush_noop by (intros r0 s0 H H0; congruence).
    by destruct (decide (u' = u)); rewrite app_nil_r.
  - rewrite (flush_log u' w r s Hget Hh) by (rewrite Hc; done).
    rewrite flushes_of_app. f_equal. rewrite Hc. cbn [flushes_of].
    assert (forall l, (l = [] \/ exists f, l = [Post f]) ->
              flushes_of u l = []) as Hposts.
    { intros l [->|[f ->]]; done. }
    assert (forall l, flushes_of u l = [] ->
              flushes_of u (Flushed u' (now w) (concat (c :: cs)) :: l)
              = if decide (u' = u) then [(now w, concat (c :: cs))] else [])
      as Hhead.
    { intros l Hl. cbn [flushes_of]. rewrite Hl. done. }
    apply Hhead.
    destruct (Z.of_nat (length (concat (c :: cs))) <? minBytes)%Z; [done|].
    cbn [flushes_of]. apply Hposts.
    match goal with |- context [match ?x with Ok _ => _ | RangeError => _ end] =>
      destruct x; eauto end.
Qed.

Lemma destroy_user_flushes w u' r s u :
  users_get u' (users w) = Some r -> heap w !! r = Some s ->
  flushes_of u (log (destroy_user w (u', r)))
  = flushes_of u (log w)
    ++ if decide (u' = u) then last_flush (now w) s else [].
Proof.
  intros Hget Hh. unfold destroy_user. rewrite Hh.
  cbn [log add_log update set_heap]. rewrite flushes_of_app. cbn [flushes_of].
  rewrite app_nil_r.
  set (w0 := match silenceTimer s with
             | Some t => clearTimeout t w
             | None => w
             end).
  assert (users w0 = users w /\ heap w0 = heap w /\ log w0 = log w
          /\ now w0 = now w) as (Hu0 & Hh0 & Hl0 & Hn0)
    by (unfold w0; by destruct (silenceTimer s)).
  rewrite (flush_flushes_of u' w0 r s u); [by rewrite Hl0, Hn0 | by rewrite Hu0
    | by rewrite Hh0].
Qed.

Lemma destroy_loop_flushes (m : list (UserId * Ref)) w u :
  NoDup m.*1 -> NoDup m.*2 ->
  (forall u0 r0, (u0, r0) ∈ m ->
     users_get u0 (users w) = Some r0 /\ is_Some (heap w !! r0)) ->
  flushes_of u (log (fold_left destroy_user m w))
  = flushes_of u (log w)
    ++ match users_get u m with
       | Some r => match heap w !! r with
                   | Some s => last_flush (now w) s
                   | None => []
                   end
       | None => []
       end.
Proof.
  revert w. induction m as [|[u' r'] m IH]; intros w Hk Hr Hm.
  { simpl. by rewrite app_nil_r. }
  rewrite fmap_cons in Hk. rewrite fmap_cons in Hr. cbn [fst snd] in Hk, Hr.
  apply NoDup_cons in Hk as [Hk1 Hk]. apply NoDup_cons in Hr as [Hr1 Hr].
  destruct (Hm u' r') as [Hget [s' Hh]]; [apply elem_of_cons; auto|].
  cbn [fold_left].
  assert (users (destroy_user w (u', r')) = users w
          /\ now (destroy_user w (u', r')) = now w) as [E1 E6].
  { pose proof (shape_destroy_user w u' r') as Hs. unfold shape in Hs.
    split; congruence. }
  rewrite IH; [|done|done|].
  2:{ intros u0 r0 Hin. destruct (Hm u0 r0) as [G1 [s0 G2]];
        [apply elem_of_cons; auto|].
      rewrite E1. split; [done|].
      destruct (destroy_user_heap w u' r' s0 r0 Hget G2) as [_ ->]. eauto. }
  rewrite (destroy_user_flushes w u' r' s' u Hget Hh), <- app_assoc. f_equal.
  cbn [users_get]. destruct (decide (u = u')) as [->|Hne].
  - rewrite decide_True by done. rewrite Hh.
    assert (users_get u' m = None) as -> by by apply users_get_None.
    by rewrite app_nil_r.
  - rewrite (decide_False (P := u' = u)) by congruence.
    rewrite app_nil_l.
    destruct (users_get u m) as [r|] eqn:Hgm; [|done].
    assert ((u, r) ∈ m) as Hin by by apply users_get_Some.
    destruct (Hm u r) as [_ [s Hl]]; [apply elem_of_cons; auto|].
    destruct (destroy_user_heap w u' r' s r Hget Hl) as [_ ->]. rewrite Hl, E6.
    rewrite decide_False; [done|]. intros ->. apply Hr1.
    apply list_elem_of_fmap. by exists (u, r').
Qed.

Lemma destroy_flushes w u :
  wf w ->
  flushes_of u (log (destroy w))
  = flushes_of u (log w)
    ++ match users_get u (users w) with
       | Some r => match heap w !! r with
                   | Some s => last_flush (now w) s
                   | None => []
                   end
       | None => []
       end.
Proof.
  intros Hwf.
  change (log (destroy w))
    with (log (fold_left destroy_user (users w) (set_destroyed true w))).
  rewrite (destroy_loop_flushes (users w) (set_destroyed true w) u);
    [done | by apply wf_keys | by apply wf_refs |].
  intros u0 r0 Hin. cbn [users heap set_destroyed]. split.
  - apply users_get_Some; [by apply wf_keys | done].
  - destruct (wf_entry w Hwf u0 r0 Hin) as [st Hs].
    apply skel_lookup in Hs as (s & ? & _). eauto.
Qed.

Lemma pending_empty u (h : list UserState) :
  Forall (fun s => audioChunks s = []) h -> pending u h = [].
Proof.
  induction 1 as [|s h Hs _ IH]; simpl; [done|].
  rewrite Hs, IH. by destruct (decide (userId s = u)).
Qed.

Lemma reachable_accounted w : reachable w -> accounted w /\ uploads_match w.
Proof.
  intros (env & t0 & conn & guild & inputs & ->). apply reachable_invariants.
Qed.

(** X4.  [destroy()] flushes every buffer.  When [destroy()] returns on a
    recorder in any state it can be in, no speaker is tracked, no timer is
    pending and every buffer is empty; each tracked speaker whose buffer held
    audio got exactly one more flush, at the time of the call and with the
    whole buffer, the other speakers none; so everything that was ever
    buffered has been flushed, and each flushed buffer at or above the floor
    was handed to the upload. *)
Theorem destroy_flushes_every_buffer (w : World) :
  reachable w ->
  destroyed (destroy w) = true
  /\ users (destroy w) = [] /\ timers (destroy w) = []
  /\ Forall (fun s => audioChunks s = []) (heap (destroy w))
  /\ forall u,
       flushes_of u (log (destroy w))
       = flushes_of u (log w)
         ++ match users_get u (users w) with
            | Some r => match heap w !! r with
                        | Some s => last_flush (now w) s
                        | None => []
                        end
            | None => []
            end
       /\ concat (received_of u (log (destroy w)))
          = concat (flushes_of u (log (destroy w))).*2
       /\ sa_pcmBuffer <$> uploads_of u (log (destroy w))
          = filter (fun b => (minBytes <= Z.of_nat (length b))%Z)
                   (flushes_of u (log (destroy w))).*2.
Proof.
  intros Hreach. pose proof (reachable_wf w Hreach) as Hwf.
  pose proof (reachable_armed w Hreach) as Ha.
  assert (Forall (fun s => audioChunks s = []) (heap (destroy w))) as Hempty.
  { apply Forall_lookup. intros r s' Hl. by apply (destroy_empties w r s'). }
  split_and!; [apply destroy_destroyed | apply destroy_users
               | by apply destroy_timers | done |].
  intros u. split; [by apply destroy_flushes|].
  destruct (reachable_accounted (destroy w)) as [Hacc Hup];
    [exact (reachable_step w Destroy Hreach)|].
  split; [|apply Hup].
  rewrite (Hacc u), (pending_empty u _ Hempty). by rewrite app_nil_r.
Qed.

Lemma destroy_flushes_every_buffer_witness :
  flushes_of "alice" (log (destroy demo_buffered))
  = flushes_of "alice" (log demo_buffered)
    ++ match users_get "alice" (users demo_buffered) with
       | Some r => match heap demo_buffered !! r with
                   | Some s => last_flush (now demo_buffered) s
                   | None => []
                   end
       | None => []
       end.
Proof.
  destruct (destroy_flushes_every_buffer demo_buffered demo_buffered_reachable)
    as (_ & _ & _ & _ & H).
  exact (proj1 (H "alice")).
Defined.


(** *** The quiet period elapses *)

Lemma run_timers_sub fuel T w t :
  t ∈ timers (run_timers fuel T w) -> t ∈ timers w.
Proof.
  revert w. induction fuel as [|fuel IH]; intros w; simpl; [done|].
  destruct (earliest (timers w)) as [tm|]; [|done].
  destruct (deadline tm <=? T)%Z; [|done].
  intros Hin. apply IH in Hin.
  destruct (fire_fields tm w) as (_ & _ & _ & _ & Hts). rewrite Hts in Hin.
  by apply list_elem_of_filter in Hin as [_ ?].
Qed.

Lemma run_timers_run fuel T w :
  exists k, run_timers fuel T w = run w (replicate k TimerFires).
Proof.
  revert w. induction fuel as [|fuel IH]; intros w; simpl; [by exists 0|].
  destruct (earliest (timers w)) as [tm|] eqn:He; [|by exists 0].
  destruct (deadline tm <=? T)%Z; [|by exists 0].
  destruct (IH (fire tm w)) as [k Hk]. exists (S k).
  simpl. by rewrite He.
Qed.

Lemma advance_to_run T w :
  wf w -> exists inputs, advance_to T w = run w inputs.
Proof.
  intros Hwf. unfold advance_to.
  destruct (run_timers_run (length (timers w)) T w) as [k Hk].
  pose proof (wf_run_timers (length (timers w)) T w Hwf) as Hwf1.
  pose proof (run_timers_done (length (timers w)) T w (le_n _)) as Hdone.
  set (w1 := run_timers (length (timers w)) T w) in *.
  exists (replicate k TimerFires ++ [TimePasses (Z.max (now w1) T)]).
  unfold run. rewrite fold_left_app. fold (run w (replicate k TimerFires)).
  rewrite <- Hk. cbn [fold_left step].
  destruct (Z.leb_spec (now w1) (Z.max (now w1) T)); [|lia]. cbn [andb].
  assert (none_overdue (Z.max (now w1) T) (timers w1) = true) as ->; [|done].
  apply none_overdue_spec. intros tm Htm.
  pose proof (Hdone tm Htm). pose proof (wf_time w1 Hwf1 tm Htm). lia.
Qed.

Lemma advance_to_reachable T w : reachable w -> reachable (advance_to T w).
Proof.
  intros Hreach.
  destruct (advance_to_run T w (reachable_wf w Hreach)) as [inputs ->].
  destruct Hreach as (env & t0 & conn & guild & inputs0 & ->).
  exists env, t0, conn, guild, (inputs0 ++ inputs).
  unfold run. by rewrite fold_left_app.
Qed.

Lemma loaded_timer w u r s :
  wf w -> armed w -> timely w ->
  users_get u (users w) = Some r -> heap w !! r = Some s ->
  audioChunks s <> [] ->
  exists t, timers_of u w = [t] /\ timer_ref t = r
            /\ (now w <= deadline t
                <= now w + timeout_delay (SILENCE_DURATION_MS w))%Z.
Proof.
  intros Hwf Ha Hti Hget Hl Hc.
  destruct (Ha r s Hl Hc) as (t & Hin & Hr).
  destruct (wf_users_get w u r Hwf Hget) as (_ & st & Hs).
  pose proof (wf_owner w Hwf t Hin) as Ho. rewrite Hr in Ho.
  assert (timer_user t = u) as Hu by congruence.
  exists t. split_and!; [|done|by apply wf_time|by apply Hti].
  pose proof (wf_one_timer w u Hwf) as Hlen.
  assert (t ∈ timers_of u w) as Hin'
    by (unfold timers_of; by apply list_elem_of_filter).
  destruct (timers_of u w) as [|t1 [|t2 l]]; simpl in Hlen.
  - by apply elem_of_nil in Hin'.
  - by apply list_elem_of_singleton in Hin' as ->.
  - lia.
Qed.

(** X5.  Buffered audio waits for at most one quiet period.  In every state
    a recorder can be in, a speaker with audio in the buffer has exactly one
    silence timer pending, the callback of which holds the speaker's state
    object, and that timer is due within one (effective) quiet period; so
    when the clock runs one quiet period on without further input, every
    timer has fired, every buffer is empty and all the audio ever buffered
    has been flushed. *)
Theorem buffered_audio_is_flushed_in_time (w : World) :
  reachable w ->
  let T := (now w + timeout_delay (SILENCE_DURATION_MS w))%Z in
  (forall u r s,
     users_get u (users w) = Some r -> heap w !! r = Some s ->
     audioChunks s <> [] ->
     exists t, timers_of u w = [t] /\ timer_ref t = r
               /\ (now w <= deadline t <= T)%Z)
  /\ timers (advance_to T w) = []
  /\ Forall (fun s => audioChunks s = []) (heap (advance_to T w))
  /\ forall u,
       concat (received_of u (log (advance_to T w)))
       = concat (flushes_of u (log (advance_to T w))).*2.
Proof.
  intros Hreach T. pose proof (reachable_wf w Hreach) as Hwf.
  pose proof (reachable_armed w Hreach) as Ha.
  pose proof (reachable_timely w Hreach) as Hti.
  assert (timers (advance_to T w) = []) as Hnone.
  { destruct (timers (advance_to T w)) as [|t ts] eqn:E; [done|]. exfalso.
    assert (t ∈ timers (run_timers (length (timers w)) T w)) as Hin.
    { change (timers (advance_to T w))
        with (timers (run_timers (length (timers w)) T w)) in E.
      rewrite E. apply elem_of_cons; auto. }
    pose proof (run_timers_done _ T w (le_n _) t Hin) as Hlate.
    apply run_timers_sub in Hin. specialize (Hti t Hin). unfold T in Hlate. lia. }
  pose proof (advance_to_reachable T w Hreach) as Hreach'.
  assert (Forall (fun s => audioChunks s = []) (heap (advance_to T w)))
    as Hempty.
  { apply Forall_lookup. intros r s' Hl.
    destruct (audioChunks s') eqn:E; [done|]. exfalso.
    destruct (reachable_armed _ Hreach' r s' Hl) as (t & Hin & _); [congruence|].
    rewrite Hnone in Hin. by apply elem_of_nil in Hin. }
  split_and!; [|done|done|].
  - intros u r s Hget Hl Hc. by apply (loaded_timer w u r s).
  - intros u. destruct (reachable_accounted _ Hreach') as [Hacc _].
    rewrite (Hacc u), (pending_empty u _ Hempty). by rewrite app_nil_r.
Qed.

Lemma buffered_audio_is_flushed_in_time_witness :
  timers (advance_to (now demo_buffered
                      + timeout_delay (SILENCE_DURATION_MS demo_buffered))
            demo_buffered) = [].
Proof.
  destruct (buffered_audio_is_flushed_in_time demo_buffered
              demo_buffered_reachable) as (_ & H & _).
  exact H.
Defined.


(** *** What is uploaded *)

Lemma delivered_app g l0 l l1 e :
  delivered g l e -> delivered g (l0 ++ l ++ l1) e.
Proof.
  destruct e; simpl; try done.
  - intros (? & ? & ? & ? & t & Hin). split_and!; try done. exists t.
    rewrite !flushes_of_app. apply elem_of_app. right. apply elem_of_app. auto.
  - intros (pcm & Hin & ?). exists pcm. split; [|done].
    rewrite !flushes_of_app. apply elem_of_app. right. apply elem_of_app. auto.
Qed.

Lemma continues_same w w' :
  guildId w' = guildId w -> log w' = log w -> continues w w'.
Proof.
  intros Hg Hl. split; [done|]. exists []. split; [by rewrite app_nil_r|done].
Qed.

Lemma continues_trans w1 w2 w3 :
  continues w1 w2 -> continues w2 w3 -> continues w1 w3.
Proof.
  intros (G1 & l1 & E1 & F1) (G2 & l2 & E2 & F2).
  split; [congruence|]. exists (l1 ++ l2).
  split; [by rewrite E2, E1, app_assoc|].
  intros l0. apply Forall_app. split.
  - eapply Forall_impl; [apply (F1 l0)|]. intros e He.
    rewrite app_assoc. rewrite <- (app_nil_l (l0 ++ l1)), <- app_assoc.
    by apply delivered_app.
  - rewrite <- G1, app_assoc. apply F2.
Qed.

Lemma continues_add_log w e :
  (forall g l, delivered g l e) -> continues w (add_log e w).
Proof.
  intros He. split; [done|]. exists [e]. split; [done|].
  intros l0. by apply Forall_singleton.
Qed.

Lemma continues_flush u w : continues w (_flushAndSend u w).
Proof.
  destruct (users_get u (users w)) as [r|] eqn:Hget.
  2:{ rewrite flush_noop by (intros ? ? H; congruence). by apply continues_same. }
  destruct (heap w !! r) as [s|] eqn:Hh.
  2:{ rewrite flush_noop by (intros ? ? H H0; congruence).
      by apply continues_same. }
  destruct (decide (audioChunks s = [])) as [Hc|Hc].
  { rewrite flush_noop by (intros ? ? H H0; congruence). by apply continues_same. }
  split; [apply flush_guild|]. eexists. split; [by apply (flush_log u w r s)|].
  set (pcm := concat (audioChunks s)).
  intros l0.
  assert (forall l, (now w, pcm) ∈ flushes_of u (l0 ++ Flushed u (now w) pcm :: l))
    as Hflushed.
  { intros l. rewrite flushes_of_app. apply elem_of_app. right.
    cbn [flushes_of]. rewrite decide_True by done. apply elem_of_cons; auto. }
  apply Forall_cons. split; [done|].
  destruct (Z.ltb_spec (Z.of_nat (length pcm)) minBytes) as [Hlt|Hge].
  { by apply Forall_singleton. }
  cbv zeta. apply Forall_cons. split.
  { cbn [delivered sa_guildId sa_sampleRate sa_channels sa_pcmBuffer sa_userId].
    split_and!; try done. exists (now w). apply Hflushed. }
  unfold sendAudioToBackend.
  cbn [sa_guildId sa_sampleRate sa_channels sa_pcmBuffer sa_userId
       sa_durationMs].
  destruct (createWavBuffer pcm SAMPLE_RATE CHANNELS) as [wav|] eqn:Hwav;
    cbn [mbind result_bind]; [|done].
  apply Forall_singleton.
  cbn [delivered form_timestamp form_userId form_audio form_guildId
       form_sampleRate form_channels form_filename].
  exists pcm. split_and!; try done; apply Hflushed.
Qed.

Lemma continues_reset u w : continues w (_resetSilenceTimer u w).
Proof.
  apply continues_same; [|apply log_reset].
  by destruct (reset_fields u w) as (_ & _ & _ & _ & ->).
Qed.

Lemma continues_destroy_user w e : continues w (destroy_user w e).
Proof.
  destruct e as [u r]. unfold destroy_user.
  destruct (heap w !! r) as [s|]; [|by apply continues_same].
  eapply continues_trans; [|by apply continues_add_log].
  eapply continues_trans; [|by apply continues_same].
  eapply continues_trans; [|by apply continues_same].
  eapply continues_trans; [|apply continues_flush].
  destruct (silenceTimer s); by apply continues_same.
Qed.

Lemma continues_step w i : continues w (step w i).
Proof.
  destruct i; cbn [step].
  - unfold handleUserSpeaking. destruct (destroyed w); [by apply continues_same|].
    destruct (users_get u (users w)).
    + eapply continues_trans; [|apply continues_reset]. by apply continues_same.
    + eapply continues_trans; [|apply continues_reset].
      eapply continues_trans; [by apply (continues_add_log w (Subscribe u))|].
      by apply continues_same.
  - destruct (heap w !! ref) as [s|]; [|by apply continues_same].
    case_match; [|by apply continues_same].
    unfold on_data. destruct (destroyed w); [by apply continues_same|].
    eapply continues_trans; [|apply continues_reset].
    eapply continues_trans; [|by apply continues_same].
    eapply continues_trans;
      [|by apply (continues_add_log _ (Received (userId s) chunk))].
    by apply continues_same.
  - destruct (heap w !! ref); [|by apply continues_same].
    by apply continues_add_log.
  - destruct (heap w !! ref); [|by apply continues_same].
    unfold on_close. eapply continues_trans; [|apply continues_flush].
    eapply continues_trans; [|by apply continues_add_log].
    by apply continues_same.
  - destruct (earliest (timers w)); [|by apply continues_same].
    unfold fire, on_silence. eapply continues_trans; [|apply continues_flush].
    by apply continues_same.
  - case_match; by apply continues_same.
  - unfold upload_settled. destruct ok; by apply continues_add_log.
  - unfold destroy. eapply continues_trans; [|by apply continues_same].
    eapply continues_trans;
      [apply (continues_same w (set_destroyed true w)); done|].
    generalize (users (set_destroyed true w)) as m.
    generalize (set_destroyed true w) as w0. intros w0 m. revert w0.
    induction m as [|e m IH]; intros w0; [by apply continues_same|].
    cbn [fold_left]. eapply continues_trans; [apply continues_destroy_user|].
    apply IH.
Qed.

Lemma delivered_run inputs w :
  Forall (delivered (guildId w) (log w)) (log w) ->
  Forall (delivered (guildId (run w inputs)) (log (run w inputs)))
         (log (run w inputs)).
Proof.
  revert w. induction inputs as [|i inputs IH]; intros w Hinv; [done|].
  simpl. apply IH.
  destruct (continues_step w i) as (-> & l & -> & Hl).
  apply Forall_app. split; [|apply Hl].
  eapply Forall_impl; [exact Hinv|]. intros e He.
  rewrite <- (app_nil_l (log w ++ l)). by apply delivered_app.
Qed.

(** X6.  Every upload is a flushed utterance.  Over any history of a
    recorder, each call of [sendAudioToBackend] in the trace carries a buffer
    that was flushed for that speaker, of at least 19200 bytes, declared at
    48000 Hz with 2 channels and for the recorder's guild; and each request
    issued to the backend carries exactly the WAV container of such a buffer
    (the 44 header octets, then the flushed bytes), with the speaker, the
    guild and the format in its fields. *)
Theorem every_upload_is_a_flushed_utterance (w : World) :
  reachable w ->
  Forall
    (fun e =>
       match e with
       | SendAudio a =>
           sa_guildId a = guildId w /\ sa_sampleRate a = 48000%Z
           /\ sa_channels a = 2%Z
           /\ (19200 <= Z.of_nat (length (sa_pcmBuffer a)))%Z
           /\ exists t, (t, sa_pcmBuffer a) ∈ flushes_of (sa_userId a) (log w)
       | Post f =>
           exists t pcm,
             (t, pcm) ∈ flushes_of (form_userId f) (log w)
             /\ (19200 <= Z.of_nat (length pcm) <= 4294967259)%Z
             /\ form_audio f = wav_header 48000 2 (length pcm) ++ pcm
             /\ wav_container pcm 48000 2 (form_audio f)
             /\ form_guildId f = guildId w /\ form_sampleRate f = 48000%Z
             /\ form_channels f = 2%Z
       | _ => True
       end)
    (log w).
Proof.
  intros (env & t0 & conn & guild & inputs & ->).
  pose proof (delivered_run inputs (new_AudioRecorder env t0 conn guild)
                (Forall_nil_2 _)) as Hinv.
  eapply Forall_impl; [exact Hinv|]. intros e He.
  destruct e as [| | | |a|f| | | | |]; try done.
  destruct He as (pcm & H1 & H2 & H3 & H4 & H5 & H6 & H7).
  apply createWavBuffer_Ok_inv in H3 as [(F1 & F2 & F3 & F4 & F5) ->].
  assert (19200 <= Z.of_nat (length pcm) <= 4294967259)%Z as Hlen.
  { change minBytes with 19200%Z in H2. lia. }
  exists (form_timestamp f), pcm. split; [done|]. split; [done|].
  split; [done|]. split; [by apply wav_header_container|]. done.
Qed.

Lemma demo_utterance_reachable : reachable demo_utterance.
Proof.
  by exists None, 0%Z, 0, "guild",
    [SpeakingStart "alice"; DecoderData 0 (replicate (Z.to_nat 19200) 7%Z);
     TimerFires].
Defined.

Lemma every_upload_is_a_flushed_utterance_witness :
  Forall
    (fun e =>
       match e with
       | SendAudio a =>
           sa_guildId a = guildId demo_utterance /\ sa_sampleRate a = 48000%Z
           /\ sa_channels a = 2%Z
           /\ (19200 <= Z.of_nat (length (sa_pcmBuffer a)))%Z
           /\ exists t, (t, sa_pcmBuffer a)
                        ∈ flushes_of (sa_userId a) (log demo_utterance)
       | Post f =>
           exists t pcm,
             (t, pcm) ∈ flushes_of (form_userId f) (log demo_utterance)
             /\ (19200 <= Z.of_nat (length pcm) <= 4294967259)%Z
             /\ form_audio f = wav_header 48000 2 (length pcm) ++ pcm
             /\ wav_container pcm 48000 2 (form_audio f)
             /\ form_guildId f = guildId demo_utterance
             /\ form_sampleRate f = 48000%Z
             /\ form_channels f = 2%Z
       | _ => True
       end)
    (log demo_utterance).
Proof.
  exact (every_upload_is_a_flushed_utterance demo_utterance
           demo_utterance_reachable).
Defined.

(** *** The quiet period *)

(** X7.  The quiet period a configuration gives.  Every silence timer a
    recorder installs is due one effective quiet period after the moment it
    is installed, and that period is always between 1 ms and [2^31 - 1] ms:
    it is 1000 ms when the setting is absent, not a number or 0, the setting
    itself when that is a valid delay, and 1 ms when the setting is negative
    or larger than [2^31 - 1]. *)
Theorem quiet_period_of_configuration (env : option Z) (t0 : Z) (conn : nat)
  (guild : GuildId) (inputs : list Input) (i : Input) :
  let w := run (new_AudioRecorder env t0 conn guild) inputs in
  let d := timeout_delay (parse_SILENCE_DURATION_MS env) in
  (forall t, t ∈ timers (step w i) ->
     t ∈ timers w \/ deadline t = (now (step w i) + d)%Z)
  /\ (1 <= d <= 2147483647)%Z
  /\ (env = None \/ env = Some 0%Z -> d = 1000%Z)
  /\ (forall n, env = Some n -> (1 <= n <= 2147483647)%Z -> d = n)
  /\ (forall n, env = Some n -> (n < 0 \/ 2147483647 < n)%Z -> d = 1%Z).
Proof.
  intros w d. split; [|split; [|split; [|split]]].
  - intros t Hin.
    assert (wf w) as Hwf by apply wf_run, wf_new.
    destruct (step_frame w i Hwf) as (_ & _ & _ & Hts).
    destruct (reachable_guild env t0 conn guild inputs) as [_ Hq].
    fold w in Hq. unfold d. rewrite <- Hq. by apply Hts.
  - unfold d, timeout_delay.
    destruct (Z.ltb_spec (parse_SILENCE_DURATION_MS env) 1); simpl; [lia|].
    destruct (Z.ltb_spec 2147483647 (parse_SILENCE_DURATION_MS env)); lia.
  - intros [E|E]; unfold d; by rewrite E.
  - intros n E Hn. unfold d. rewrite E. unfold parse_SILENCE_DURATION_MS.
    destruct (Z.eqb_spec n 0); [lia|]. by apply timeout_delay_id.
  - intros n E Hn. unfold d. rewrite E.
    unfold parse_SILENCE_DURATION_MS, timeout_delay.
    destruct (Z.eqb_spec n 0); [lia|].
    destruct (Z.ltb_spec n 1); simpl; [done|].
    destruct (Z.ltb_spec 2147483647 n); [done|lia].
Qed.

Lemma quiet_period_of_configuration_witness :
  timeout_delay (parse_SILENCE_DURATION_MS (Some (-5)%Z)) = 1%Z.
Proof.
  refine (proj2 (proj2 (proj2 (proj2
            (quiet_period_of_configuration (Some (-5)%Z) 0 0 "guild" []
               TimerFires)))) (-5)%Z eq_refl _).
  left. reflexivity.
Defined.

(** *** A pause separates utterances *)

Lemma run_timers_users fuel T w :
  users (run_timers fuel T w) = users w.
Proof.
  revert w. induction fuel as [|fuel IH]; intros w; simpl; [done|].
  destruct (earliest (timers w)) as [tm|]; [|done].
  destruct (deadline tm <=? T)%Z; [|done].
  rewrite IH. by destruct (fire_fields tm w) as (-> & _).
Qed.

(** X8.  A pause of a quiet period separates utterances.  A speaker has
    audio buffered, and the next chunk arrives one (effective) quiet period
    or more after the present moment: by then the speaker's one pending
    timer has fired at its deadline and flushed the whole buffer, and the new
    chunk starts a buffer of its own. *)
Theorem pause_separates_utterances (w : World) (u : UserId) (r : Ref)
  (s : UserState) (t : Z) (c : list Z) :
  reachable w ->
  users_get u (users w) = Some r -> heap w !! r = Some s ->
  audioChunks s <> [] ->
  (now w + timeout_delay (SILENCE_DURATION_MS w) <= t)%Z ->
  exists tu,
    timers_of u w = [tu] /\ (deadline tu <= t)%Z
    /\ flushes_of u (log (deliver r u w (t, c)))
       = flushes_of u (log w) ++ [(deadline tu, concat (audioChunks s))]
    /\ exists s', heap (deliver r u w (t, c)) !! r = Some s'
                  /\ audioChunks s' = [c].
Proof.
  intros Hreach Hget Hl Hc Ht. pose proof (reachable_wf w Hreach) as Hwf.
  destruct (loaded_timer w u r s Hwf (reachable_armed w Hreach)
              (reachable_timely w Hreach) Hget Hl Hc)
    as (tu & Hts & Hr & Hdl).
  destruct (wf_users_get w u r Hwf Hget) as (Hd & st & Hs).
  assert (userId s = u) as Hu.
  { apply skel_lookup in Hs as (s0 & Hl0 & Hu0 & _). congruence. }
  exists tu. split; [done|]. split; [lia|].
  pose proof (advance_to_reachable t w Hreach) as Hreach1.
  pose proof (reachable_wf _ Hreach1) as Hwf1.
  assert (users (advance_to t w) = users w) as Husers
    by apply run_timers_users.
  assert (destroyed (advance_to t w) = false) as Hd1.
  { rewrite <- Husers in Hget. by destruct (wf_users_get _ u r Hwf1 Hget). }
  assert (exists s1, heap (advance_to t w) !! r = Some s1
                     /\ audioChunks s1 = []) as (s1 & Hl1 & Hc1).
  { rewrite <- Husers in Hget.
    destruct (wf_users_get _ u r Hwf1 Hget) as (_ & st1 & Hs1).
    apply skel_lookup in Hs1 as (s1 & Hl1 & Hu1 & _).
    exists s1. split; [done|].
    destruct (audioChunks s1) eqn:E; [done|]. exfalso.
    destruct (reachable_armed _ Hreach1 r s1 Hl1) as (t' & Hin & Hr');
      [congruence|].
    change (timers (advance_to t w))
      with (timers (run_timers (length (timers w)) t w)) in Hin.
    pose proof (run_timers_done _ t w (le_n _) t' Hin) as Hlate.
    apply run_timers_sub in Hin.
    pose proof (wf_owner w Hwf t' Hin) as Ho. rewrite Hr' in Ho.
    assert (t' ∈ timers_of u w) as Hin'.
    { unfold timers_of. apply list_elem_of_filter. split; [congruence|done]. }
    rewrite Hts in Hin'. apply list_elem_of_singleton in Hin' as ->. lia. }
  unfold deliver. cbn [fst snd]. split.
  - rewrite on_data_log, flushes_of_app by done. cbn [flushes_of].
    rewrite app_nil_r.
    change (log (advance_to t w))
      with (log (run_timers (length (timers w)) t w)).
    apply (run_timers_flush _ t w u r s tu); try done. lia.
  - pose proof (on_data_chunks r u c (advance_to t w) s1 Hd1 Hl1) as Hch.
    destruct (heap (on_data r u c (advance_to t w)) !! r) as [s'|]; [|done].
    exists s'. split; [done|]. simpl in Hch. rewrite Hc1 in Hch.
    by injection Hch.
Qed.

Lemma pause_separates_utterances_witness :
  exists tu,
    timers_of "alice" demo_buffered = [tu] /\ (deadline tu <= 5000)%Z
    /\ flushes_of "alice" (log (deliver 0 "alice" demo_buffered (5000, [9; 9])%Z))
       = flushes_of "alice" (log demo_buffered)
         ++ [(deadline tu, concat (audioChunks demo_state))]
    /\ exists s', heap (deliver 0 "alice" demo_buffered (5000, [9; 9])%Z) !! 0
                  = Some s'
                  /\ audioChunks s' = [[9; 9]%Z].
Proof.
  assert (users_get "alice" (users demo_buffered) = Some 0) as H1
    by (vm_compute; reflexivity).
  assert (heap demo_buffered !! 0 = Some demo_state) as H2
    by (vm_compute; reflexivity).
  assert (audioChunks demo_state <> []) as H3 by discriminate.
  assert (now demo_buffered
          + timeout_delay (SILENCE_DURATION_MS demo_buffered) <= 5000)%Z as H4
    by (vm_compute; discriminate).
  exact (pause_separates_utterances demo_buffered "alice" 0 demo_state 5000
           [9; 9]%Z demo_buffered_reachable H1 H2 H3 H4).
Defined.


(** *** Speakers do not interfere *)

Lemma observed_other u (l : list Event) :
  Forall (fun e => event_user e <> u) l ->
  subscriptions_of u l = 0 /\ received_of u l = [] /\ flushes_of u l = []
  /\ uploads_of u l = [].
Proof.
  induction 1 as [|e l He _ IH]; [done|].
  destruct e; cbn in *; try done; by rewrite decide_False.
Qed.

Lemma reset_other w u' u r s :
  wf w -> heap w !! r = Some s -> userId s = u -> u' <> u ->
  heap (_resetSilenceTimer u' w) !! r = Some s
  /\ timers_of u (_resetSilenceTimer u' w) = timers_of u w.
Proof.
  intros Hwf Hh Hu Hne.
  destruct (users_get u' (users w)) as [r'|] eqn:Hget.
  2:{ unfold _resetSilenceTimer. by rewrite Hget. }
  rewrite (reset_spec w u' r' Hwf Hget).
  destruct (wf_users_get w u' r' Hwf Hget) as (_ & st & Hs).
  assert (r' <> r) as Hr.
  { intros ->. apply skel_lookup in Hs as (s0 & Hh0 & Hu0 & _). congruence. }
  cbn [heap timers set_heap set_next_timer set_timers]. split.
  - by rewrite list_lookup_alter_ne.
  - unfold timers_of, reset_timers. cbn [timers set_heap set_next_timer set_timers].
    rewrite filter_app, filter_cons_False, filter_nil, app_nil_r
      by (cbn; congruence).
    apply filter_filter_implied. intros t _ Ht. congruence.
Qed.

Lemma emits_handleUserSpeaking u w :
  emits (fun e => event_user e = u) w (handleUserSpeaking u w).
Proof.
  unfold handleUserSpeaking. destruct (destroyed w); [by apply emits_same|].
  destruct (users_get u (users w)).
  - apply emits_same. by rewrite log_reset.
  - eapply emits_trans; [|apply emits_same, log_reset].
    exists [Subscribe u]. split; [done|]. by apply Forall_singleton.
Qed.

Lemma emits_about w i u' :
  input_speaker w i = Some u' ->
  emits (fun e => event_user e = u') w (step w i).
Proof.
  assert (forall w', emits (chatter u') w w' ->
            emits (fun e => event_user e = u') w w') as Hweak.
  { intros w' H. eapply emits_weaken; [|exact H]. by intros e [? _]. }
  destruct i; cbn [input_speaker step]; try done.
  - intros [= ->]. apply emits_handleUserSpeaking.
  - destruct (heap w !! ref) as [s|]; [|done]. intros [= <-].
    case_match; [apply Hweak, emits_on_data | by apply emits_same].
  - destruct (heap w !! ref) as [s|]; [|done]. intros [= <-].
    by apply emits_add_log.
  - destruct (heap w !! ref) as [s|]; [|done]. intros [= <-].
    apply Hweak. eapply emits_trans; [|apply emits_on_close].
    by apply emits_same.
  - destruct (earliest (timers w)) as [t|]; [|done]. intros [= <-].
    apply Hweak, emits_fire.
  - intros [= ->]. apply Hweak, emits_upload_settled.
Qed.

(** X9.  Speakers do not interfere.  Whatever happens for one speaker (a
    speaking signal, a chunk, a stream closing or failing, the speaker's
    silence timer firing, an upload settling) leaves every other speaker's
    state object, pending timer and share of the trace exactly as they are:
    no chunk, flush, upload or subscription of another speaker is added, no
    buffer of another speaker is touched and no timer of another speaker is
    cancelled or installed. *)
Theorem speakers_do_not_interfere (w : World) (i : Input) (u u' : UserId)
  (r : Ref) (s : UserState) :
  reachable w -> heap w !! r = Some s -> userId s = u ->
  input_speaker w i = Some u' -> u' <> u ->
  heap (step w i) !! r = Some s
  /\ timers_of u (step w i) = timers_of u w
  /\ subscriptions_of u (log (step w i)) = subscriptions_of u (log w)
  /\ received_of u (log (step w i)) = received_of u (log w)
  /\ flushes_of u (log (step w i)) = flushes_of u (log w)
  /\ uploads_of u (log (step w i)) = uploads_of u (log w).
Proof.
  intros Hreach Hh Hu Hi Hne. pose proof (reachable_wf w Hreach) as Hwf.
  assert (forall w0, wf w0 -> heap w0 !! r = Some s -> timers w0 = timers w ->
            heap (_resetSilenceTimer u' w0) !! r = Some s
            /\ timers_of u (_resetSilenceTimer u' w0) = timers_of u w) as Hreset.
  { intros w0 Hwf0 Hh0 Ht0.
    destruct (reset_other w0 u' u r s Hwf0 Hh0 Hu Hne) as [G1 G2].
    split; [done|]. rewrite G2. unfold timers_of. by rewrite Ht0. }
  assert (heap (step w i) !! r = Some s
          /\ timers_of u (step w i) = timers_of u w) as [H1 H2].
  { destruct i; cbn [input_speaker step] in Hi |- *; try done.
    - injection Hi as ->. unfold handleUserSpeaking.
      destruct (destroyed w) eqn:Hd; [done|].
      destruct (users_get u' (users w)) as [r'|] eqn:Hget.
      + destruct (wf_users_get w u' r' Hwf Hget) as (_ & st & Hs).
        assert (r' <> r) as Hr.
        { intros ->. apply skel_lookup in Hs as (s0 & Hh0 & Hu0 & _). congruence. }
        apply Hreset; [by apply wf_update| |done].
        cbn [heap update set_heap]. by rewrite list_lookup_alter_ne.
      + pose proof (wf_new_user w u' Hwf Hd Hget) as Hwf1.
        apply Hreset; [exact Hwf1| |done].
        cbn [heap set_users set_heap add_log].
        rewrite lookup_app_l; [done|]. by eapply lookup_lt_Some.
    - destruct (heap w !! ref) as [s'|] eqn:Hh'; [|done]. injection Hi as Hu'.
      assert (ref <> r) as Hr by (intros ->; congruence).
      case_match; [|done].
      unfold on_data. destruct (destroyed w) eqn:Hd; [done|]. rewrite Hu'.
      apply Hreset; [| |done].
      + apply wf_update, wf_add_log, wf_update; done.
      + cbn [heap update set_heap add_log]. by rewrite !list_lookup_alter_ne.
    - by destruct (heap w !! ref).
    - destruct (heap w !! ref) as [s'|] eqn:Hh'; [|done]. injection Hi as Hu'.
      assert (ref <> r) as Hr by (intros ->; congruence).
      rewrite Hu'. unfold on_close. split.
      + apply flush_heap_other;
          [by apply wf_add_log, wf_opus_destroyed| |congruence].
        cbn [heap opus_destroyed update set_heap add_log].
        by rewrite list_lookup_alter_ne.
      + unfold timers_of. by rewrite flush_timers.
    - destruct (earliest (timers w)) as [t|] eqn:He; [|done]. injection Hi as Hu'.
      destruct (fire_other w t u r s Hwf He) as (G1 & G2 & _);
        [congruence|done|done|]. done.
    - unfold upload_settled. by destruct ok. }
  split; [done|]. split; [done|].
  destruct (emits_about w i u' Hi) as (l & -> & Hl).
  destruct (observed_other u l) as (O1 & O2 & O3 & O4).
  { eapply Forall_impl; [exact Hl|]. cbn. intros e ->. done. }
  rewrite subscriptions_of_app, received_of_app, flushes_of_app, uploads_of_app.
  rewrite O1, O2, O3, O4, !app_nil_r. split_and!; try done; lia.
Qed.

Lemma speakers_do_not_interfere_witness :
  heap (step demo_buffered (SpeakingStart "bob")) !! 0 = Some demo_state
  /\ timers_of "alice" (step demo_buffered (SpeakingStart "bob"))
     = timers_of "alice" demo_buffered.
Proof.
  assert (heap demo_buffered !! 0 = Some demo_state) as H1
    by (vm_compute; reflexivity).
  assert ("bob" <> "alice") as H2 by discriminate.
  destruct (speakers_do_not_interfere demo_buffered (SpeakingStart "bob")
              "alice" "bob" 0 demo_state demo_buffered_reachable H1 eq_refl
              eq_refl H2) as (G1 & G2 & _).
  split; assumption.
Defined.

End RecorderMore.

(* ===================================================================== *)
(** ** The manager over time                                              *)
(* ===================================================================== *)

Section BotFacts.
Import Api Recorder Manager Session Bot.

Implicit Types (b : Bot) (st : State) (g : GuildId) (vc : VoiceConnection)
  (w : World).

(** *** Recorders run *)

(** A recorder object is replaced by a later state of itself. *)
Lemma consistent_recs b rec (f : World -> World) :
  (forall w, reachable w ->
     reachable (f w) /\ destroyed (f w) = destroyed w
     /\ guildId (f w) = guildId w) ->
  consistent b ->
  consistent (mkBot (set_recs (alter f rec (recs (manager b))) (manager b))
                    (awaiting b)).
Proof.
  intros Hf [I1 I2 I3 I4 I5 I6 I7].
  constructor; cbn [manager awaiting connections voiceConnections recs
                    recorders set_recs]; try done.
  - intros g rec0 Hg. destruct (I4 g rec0 Hg) as (c & vc & w & ? & ? & ? & ? & Hw & Hd & Hgw).
    destruct (I5 rec0 w Hw) as [Hreach _].
    destruct (Hf w Hreach) as (_ & Hd' & Hg').
    destruct (decide (rec = rec0)) as [->|Hne].
    + exists c, vc, (f w). split_and!; try done; [|congruence|congruence].
      by rewrite list_lookup_alter_eq, Hw.
    + exists c, vc, w. split_and!; try done.
      by rewrite list_lookup_alter_ne.
  - intros rec0 w0 Hl. destruct (decide (rec = rec0)) as [->|Hne].
    + rewrite list_lookup_alter_eq in Hl.
      destruct (recs (manager b) !! rec0) as [w|] eqn:Hw; [|done].
      injection Hl as <-. destruct (I5 rec0 w Hw) as [Hreach Hlive].
      destruct (Hf w Hreach) as (Hr' & Hd' & Hg').
      split; [done|]. rewrite Hd', Hg'. done.
    + rewrite list_lookup_alter_ne in Hl by done. by apply I5.
Qed.

Lemma consistent_recorder_step b rec i :
  i <> Destroy -> consistent b ->
  consistent (mkBot (recorder_step rec i (manager b)) (awaiting b)).
Proof.
  intros Hi. apply (consistent_recs b rec (fun w => step w i)).
  intros w Hreach. split_and!.
  - by apply reachable_step.
  - by apply step_destroyed.
  - by destruct (step_frame w i (reachable_wf w Hreach)) as (_ & -> & _).
Qed.

Lemma consistent_speaking_start b c u :
  consistent b -> consistent (mkBot (speaking_start c u (manager b)) (awaiting b)).
Proof.
  intros Hb. unfold speaking_start.
  destruct (connections (manager b) !! c) as [vc|]; [|by destruct b].
  generalize (on_speaking_start vc) as l. intros l.
  assert (b = mkBot (manager b) (awaiting b)) as Hb0 by by destruct b.
  rewrite Hb0 in Hb. revert Hb. generalize (manager b) as st.
  generalize (awaiting b) as aw. clear Hb0.
  induction l as [|rec l IH]; intros aw st Hb; [done|].
  cbn [fold_left]. apply IH.
  exact (consistent_recorder_step (mkBot st aw) rec (SpeakingStart u)
           ltac:(discriminate) Hb).
Qed.


(** *** The registries *)

(** [consistent] looks at the registries and the objects only. *)
Lemma consistent_ext st st' (aw : list (nat * GuildId)) :
  connections st' = connections st ->
  voiceConnections st' = voiceConnections st ->
  recs st' = recs st -> recorders st' = recorders st ->
  consistent (mkBot st aw) -> consistent (mkBot st' aw).
Proof.
  intros E1 E2 E3 E4 [I1 I2 I3 I4 I5 I6 I7]. cbn [manager awaiting] in *.
  constructor; cbn [manager awaiting]; rewrite ?E1, ?E2, ?E3, ?E4; done.
Qed.

Lemma consistent_awaiting st (aw aw' : list (nat * GuildId)) :
  (forall p, p ∈ aw' -> p ∈ aw) -> NoDup aw'.*1 ->
  consistent (mkBot st aw) -> consistent (mkBot st aw').
Proof.
  intros Hsub Hnd [I1 I2 I3 I4 I5 I6 I7]. cbn [manager awaiting] in *.
  constructor; cbn [manager awaiting]; try done.
  intros c g Hin. apply I6. by apply Hsub.
Qed.

Lemma consistent_filter st (aw : list (nat * GuildId)) (P : nat * GuildId -> Prop)
  `{!forall p, Decision (P p)} :
  consistent (mkBot st aw) -> consistent (mkBot st (filter P aw)).
Proof.
  intros Hb. apply (consistent_awaiting st aw); [| |done].
  - by intros p [_ ?]%list_elem_of_filter.
  - apply NoDup_fmap_filter. by destruct Hb.
Qed.

(** A live connection changes state, short of being destroyed. *)
Lemma consistent_enters b c (x : Status) :
  x <> Destroyed ->
  (forall vc, connections (manager b) !! c = Some vc -> status vc <> Destroyed) ->
  consistent b -> consistent (mkBot (enters c x (manager b)) (awaiting b)).
Proof.
  intros Hx Hlive [I1 I2 I3 I4 I5 I6 I7].
  assert (forall c0 vc0,
            alter (set_status x) c (connections (manager b)) !! c0 = Some vc0 ->
            exists vc, connections (manager b) !! c0 = Some vc
              /\ conn_guild vc0 = conn_guild vc
              /\ on_destroyed vc0 = on_destroyed vc
              /\ on_disconnected vc0 = on_disconnected vc
              /\ on_speaking_start vc0 = on_speaking_start vc
              /\ (status vc0 <> Destroyed -> status vc <> Destroyed)) as Hback.
  { intros c0 vc0 Hl. destruct (decide (c = c0)) as [->|Hne].
    - rewrite list_lookup_alter_eq in Hl.
      destruct (connections (manager b) !! c0) as [vc|] eqn:E; [|done].
      injection Hl as <-. exists vc. split_and!; try done. intros _. by apply Hlive.
    - rewrite list_lookup_alter_ne in Hl by done. exists vc0. done. }
  assert (forall c0 vc,
            connections (manager b) !! c0 = Some vc ->
            exists vc0,
              alter (set_status x) c (connections (manager b)) !! c0 = Some vc0
              /\ conn_guild vc0 = conn_guild vc
              /\ on_destroyed vc0 = on_destroyed vc
              /\ on_disconnected vc0 = on_disconnected vc
              /\ on_speaking_start vc0 = on_speaking_start vc
              /\ (status vc <> Destroyed -> status vc0 <> Destroyed)) as Hforth.
  { intros c0 vc Hl. destruct (decide (c = c0)) as [->|Hne].
    - exists (set_status x vc). rewrite list_lookup_alter_eq, Hl. done.
    - exists vc. rewrite list_lookup_alter_ne by done. done. }
  constructor; cbn [manager awaiting connections voiceConnections recs
                    recorders enters set_connections]; try done.
  - intros g c0 Hg. destruct (I1 g c0 Hg) as (vc & Hl & Hs & Hcg).
    destruct (Hforth c0 vc Hl) as (vc0 & ? & ? & ? & ? & ? & Hs').
    exists vc0. split_and!; [done|auto|congruence].
  - intros c0 vc0 Hl Hs.
    destruct (Hback c0 vc0 Hl) as (vc & ? & -> & ? & ? & ? & Hs'). auto.
  - intros c0 vc0 Hl.
    destruct (Hback c0 vc0 Hl) as (vc & Hl0 & _ & -> & -> & _).
    destruct (I3 c0 vc Hl0) as [? ?]. split; [done|].
    destruct (Hback c0 vc0 Hl) as (vc' & Hl' & -> & _).
    assert (vc' = vc) as -> by congruence. done.
  - intros g rec Hg.
    destruct (I4 g rec Hg) as (c0 & vc & w & ? & Hl & ? & ? & ? & ? & ?).
    destruct (Hforth c0 vc Hl) as (vc0 & ? & ? & ? & ? & ? & _).
    exists c0, vc0, w. split_and!; try done; congruence.
  - intros c0 g Hin. destruct (I6 c0 g Hin) as (vc & Hl & ? & ? & ?).
    destruct (Hforth c0 vc Hl) as (vc0 & ? & ? & ? & ? & ? & _).
    exists vc0. split_and!; try done; congruence.
Qed.

Lemma teardown_fields g st :
  connections (teardown g st) = connections st
  /\ voiceConnections (teardown g st) = voiceConnections st
  /\ recorders (teardown g st) = delete g (recorders st)
  /\ recs (teardown g st)
     = match recorders st !! g with
       | Some rec => match recs st !! rec with
                     | Some w => <[rec := destroy w]> (recs st)
                     | None => recs st
                     end
       | None => recs st
       end.
Proof.
  unfold teardown, recorders_delete, recorders_get_destroy.
  destruct (recorders st !! g) as [rec|] eqn:Hg.
  - destruct (recs st !! rec) as [w|] eqn:Hw.
    + cbn [recorders set_recs act]. rewrite Hg. done.
    + rewrite Hg. done.
  - rewrite Hg. split_and!; try done. symmetry. by apply delete_id.
Qed.

Lemma teardown_gone g st : recorders st !! g = None -> teardown g st = st.
Proof. apply recorder_teardown_gone. Qed.

(** The entry of a guild is torn down. *)
Lemma consistent_teardown b g :
  consistent b -> consistent (mkBot (teardown g (manager b)) (awaiting b)).
Proof.
  intros Hb.
  destruct (recorders (manager b) !! g) as [rec|] eqn:Hg.
  2:{ rewrite teardown_gone by done. by destruct b. }
  destruct Hb as [I1 I2 I3 I4 I5 I6 I7].
  destruct (I4 g rec Hg) as (c & vc & w & Hv & Hc & Hl & Hsp & Hw & Hd & Hgw).
  destruct (teardown_fields g (manager b)) as (E1 & E2 & E3 & E4).
  rewrite Hg, Hw in E4.
  constructor; cbn [manager awaiting]; rewrite ?E1, ?E2, ?E3, ?E4; try done.
  - intros g' rec' [Hne Hg']%lookup_delete_Some.
    destruct (I4 g' rec' Hg') as (c' & vc' & w' & ? & ? & ? & ? & Hw' & ? & Hgw').
    exists c', vc', w'. split_and!; try done.
    rewrite list_lookup_insert_ne; [done|]. intros <-. congruence.
  - intros rec0 w0 Hl0.
    destruct (decide (rec = rec0)) as [->|Hne].
    + rewrite list_lookup_insert_eq in Hl0 by by eapply lookup_lt_Some.
      injection Hl0 as <-. destruct (I5 rec0 w Hw) as [Hreach _].
      split; [exact (reachable_step w Destroy Hreach)|].
      by rewrite destroy_destroyed.
    + rewrite list_lookup_insert_ne in Hl0 by done.
      destruct (I5 rec0 w0 Hl0) as [Hreach Hlive]. split; [done|].
      intros Hd0. specialize (Hlive Hd0).
      rewrite lookup_delete_ne; [done|]. intros Heq.
      rewrite <- Heq in Hlive. congruence.
Qed.


(** No entry without a tracked connection that carries the listeners. *)
Lemma no_entry_untracked b g :
  consistent b -> voiceConnections (manager b) !! g = None ->
  recorders (manager b) !! g = None.
Proof.
  intros Hb Hv. destruct (recorders (manager b) !! g) as [rec|] eqn:Hg; [|done].
  destruct (entries b Hb g rec Hg) as (c & _ & _ & Hv' & _). congruence.
Qed.

Lemma no_entry_unlistened b c vc :
  consistent b -> connections (manager b) !! c = Some vc ->
  status vc <> Destroyed -> on_destroyed vc = [] ->
  recorders (manager b) !! conn_guild vc = None.
Proof.
  intros Hb Hc Hs Hl.
  destruct (recorders (manager b) !! conn_guild vc) as [rec|] eqn:Hg; [|done].
  destruct (entries b Hb _ rec Hg) as (c' & vc' & _ & Hv' & Hc' & Hl' & _).
  pose proof (live_tracked b Hb c vc Hc Hs) as Hv.
  assert (c' = c) as -> by congruence.
  assert (vc' = vc) as -> by congruence. congruence.
Qed.

(** A live connection without an entry is destroyed and untracked. *)
Lemma consistent_untrack b c vc :
  consistent b -> connections (manager b) !! c = Some vc ->
  status vc <> Destroyed ->
  recorders (manager b) !! conn_guild vc = None ->
  consistent
    (mkBot (set_connections
              (<[c := set_status Destroyed vc]> (connections (manager b)))
              (set_voiceConnections
                 (delete (conn_guild vc) (voiceConnections (manager b)))
                 (manager b)))
           (awaiting b)).
Proof.
  intros Hb Hc Hs Hnone. pose proof (live_tracked b Hb c vc Hc Hs) as Hv.
  destruct Hb as [I1 I2 I3 I4 I5 I6 I7].
  assert (c < length (connections (manager b))) as Hlt by by eapply lookup_lt_Some.
  constructor; cbn [manager awaiting connections voiceConnections recs
                    recorders set_connections set_voiceConnections]; try done.
  - intros g c0 [Hne Hg]%lookup_delete_Some.
    destruct (I1 g c0 Hg) as (vc0 & Hl0 & Hs0 & Hcg0).
    exists vc0. split_and!; try done.
    rewrite list_lookup_insert_ne; [done|]. intros <-. congruence.
  - intros c0 vc0 Hl0 Hs0. destruct (decide (c = c0)) as [->|Hne].
    + rewrite list_lookup_insert_eq in Hl0 by done. injection Hl0 as <-.
      by destruct Hs0.
    + rewrite list_lookup_insert_ne in Hl0 by done.
      pose proof (I2 c0 vc0 Hl0 Hs0) as Hv0.
      rewrite lookup_delete_ne; [done|]. intros Heq.
      rewrite <- Heq in Hv0. congruence.
  - intros c0 vc0 Hl0. destruct (decide (c = c0)) as [->|Hne].
    + rewrite list_lookup_insert_eq in Hl0 by done. injection Hl0 as <-.
      exact (I3 c0 vc Hc).
    + rewrite list_lookup_insert_ne in Hl0 by done. by apply (I3 c0).
  - intros g rec Hg.
    destruct (I4 g rec Hg) as (c0 & vc0 & w & Hv0 & Hc0 & ? & ? & ? & ? & ?).
    assert (g <> conn_guild vc) as Hne by (intros ->; congruence).
    exists c0, vc0, w. split_and!; try done.
    + by rewrite lookup_delete_ne.
    + rewrite list_lookup_insert_ne; [done|]. intros <-.
      destruct (I1 g c Hv0) as (vc' & ? & _ & ?). congruence.
  - intros c0 g Hin. destruct (I6 c0 g Hin) as (vc0 & Hl0 & ? & ? & ?).
    destruct (decide (c = c0)) as [->|Hne].
    + exists (set_status Destroyed vc).
      rewrite list_lookup_insert_eq by done.
      assert (vc0 = vc) as -> by congruence. done.
    + exists vc0. by rewrite list_lookup_insert_ne.
Qed.

(** [connection.destroy()] on a live connection: the connection is
    destroyed and untracked and, by its listener if it has one, the entry of
    its guild is torn down. *)
Lemma connection_destroy_spec b c vc :
  consistent b -> connections (manager b) !! c = Some vc ->
  status vc <> Destroyed ->
  exists st',
    connection_destroy c (manager b) = Some st'
    /\ connections st'
       = <[c := set_status Destroyed vc]> (connections (manager b))
    /\ voiceConnections st'
       = delete (conn_guild vc) (voiceConnections (manager b))
    /\ recs st' = recs (teardown (conn_guild vc) (manager b))
    /\ recorders st' = recorders (teardown (conn_guild vc) (manager b))
    /\ recorders st' !! conn_guild vc = None
    /\ silence_env st' = silence_env (manager b)
    /\ clock st' = clock (manager b)
    /\ consistent (mkBot st' (awaiting b)).
Proof.
  intros Hb Hc Hs. pose proof (live_tracked b Hb c vc Hc Hs) as Hv.
  set (g := conn_guild vc) in *. set (st := manager b) in *.
  destruct (teardown_fields g st) as (E1 & E2 & E3 & E4).
  assert (consistent
            (mkBot (set_connections
                      (<[c := set_status Destroyed vc]> (connections st))
                      (set_voiceConnections (delete g (voiceConnections st))
                         (teardown g st)))
                   (awaiting b))) as Hfinal.
  { pose proof (consistent_untrack (mkBot (teardown g st) (awaiting b)) c vc
                  (consistent_teardown b g Hb)) as H.
    cbn [manager awaiting] in H. rewrite E1, E2 in H. apply H; try done.
    rewrite E3. apply lookup_delete_eq. }
  unfold connection_destroy. fold st. rewrite Hc.
  rewrite decide_False by done. fold g. rewrite decide_True by done.
  destruct (listeners b Hb c vc Hc) as [_ [Hl|Hl]]; fold g in Hl; rewrite Hl;
    cbn [fold_left].
  - assert (recorders st !! g = None) as Hnone
      by exact (no_entry_unlistened b c vc Hb Hc Hs Hl).
    eexists. split; [reflexivity|].
    cbn [connections voiceConnections recs recorders silence_env clock act
         set_connections set_voiceConnections].
    rewrite teardown_gone in E3, E4, Hfinal |- * by done.
    split_and!; try done.
    revert Hfinal. by apply consistent_ext.
  - eexists. split; [reflexivity|].
    match goal with |- context [destroyed_listener ?s0 g] => set (st1 := s0) end.
    change (destroyed_listener st1 g) with (act (DestroyedLine g) (teardown g st1)).
    destruct (teardown_fields g st1) as (F1 & F2 & F3 & F4).
    cbn [connections voiceConnections recs recorders silence_env clock act].
    rewrite F1, F2, F3, F4, E3, E4.
    change (recorders st1) with (recorders st).
    change (recs st1) with (recs st).
    split_and!; try done.
    + apply lookup_delete_eq.
    + unfold teardown, recorders_delete, recorders_get_destroy.
      repeat case_match; done.
    + unfold teardown, recorders_delete, recorders_get_destroy.
      repeat case_match; done.
    + revert Hfinal. apply consistent_ext;
        cbn [connections voiceConnections recs recorders act set_connections
             set_voiceConnections]; rewrite ?F1, ?F2, ?F3, ?F4, ?E3, ?E4; done.
Qed.

Lemma connection_destroy_dead st c vc :
  connections st !! c = Some vc -> status vc = Destroyed ->
  connection_destroy c st = None.
Proof.
  intros Hc Hs. unfold connection_destroy. rewrite Hc.
  by rewrite decide_True.
Qed.


(** A join makes a new connection for a guild that has none tracked, and
    waits for it. *)
Lemma consistent_new_connection b channel g :
  consistent b -> voiceConnections (manager b) !! g = None ->
  let c := length (connections (manager b)) in
  (djsJoinVoiceChannel channel g (manager b)).1 = c
  /\ consistent (mkBot (djsJoinVoiceChannel channel g (manager b)).2
                       (awaiting b ++ [(c, g)])).
Proof.
  intros Hb Hv c. pose proof (no_entry_untracked b g Hb Hv) as Hnone.
  unfold djsJoinVoiceChannel. rewrite Hv. split; [done|].
  destruct Hb as [I1 I2 I3 I4 I5 I6 I7]. cbn [snd].
  constructor; cbn [manager awaiting connections voiceConnections recs
                    recorders act set_connections set_voiceConnections].
  - intros g0 c0 Hg0. destruct (decide (g = g0)) as [->|Hne].
    + rewrite lookup_insert_eq in Hg0. injection Hg0 as <-.
      eexists. split; [rewrite lookup_app_r by done; by rewrite Nat.sub_diag|].
      split; [discriminate|reflexivity].
    + rewrite lookup_insert_ne in Hg0 by done.
      destruct (I1 g0 c0 Hg0) as (vc0 & Hl0 & ? & ?).
      exists vc0. split_and!; try done.
      rewrite lookup_app_l; [done|]. by eapply lookup_lt_Some.
  - intros c0 vc0 Hl0 Hs0.
    apply lookup_app_Some in Hl0 as [Hl0|[Hge Hl0]].
    + pose proof (I2 c0 vc0 Hl0 Hs0) as Hv0.
      rewrite lookup_insert_ne; [done|]. intros Heq. rewrite <- Heq in Hv0.
      congruence.
    + apply list_lookup_singleton_Some in Hl0 as [Hz <-]. cbn [conn_guild].
      rewrite lookup_insert_eq. f_equal. unfold c. lia.
  - intros c0 vc0 Hl0.
    apply lookup_app_Some in Hl0 as [Hl0|[Hge Hl0]]; [by apply (I3 c0)|].
    apply list_lookup_singleton_Some in Hl0 as [Hz <-]. cbn. auto.
  - intros g0 rec Hg0.
    destruct (I4 g0 rec Hg0) as (c0 & vc0 & w & Hv0 & Hc0 & ? & ? & ? & ? & ?).
    exists c0, vc0, w. split_and!; try done.
    + rewrite lookup_insert_ne; [done|]. intros <-. congruence.
    + rewrite lookup_app_l; [done|]. by eapply lookup_lt_Some.
  - done.
  - intros c0 g0 [Hin|Hin]%elem_of_app.
    + destruct (I6 c0 g0 Hin) as (vc0 & Hl0 & ? & ? & ?).
      exists vc0. split_and!; try done.
      rewrite lookup_app_l; [done|]. by eapply lookup_lt_Some.
    + apply list_elem_of_singleton in Hin as [= -> ->].
      eexists. split; [rewrite lookup_app_r by done; by rewrite Nat.sub_diag|].
      done.
  - rewrite fmap_app. apply NoDup_app. split; [done|]. split.
    + intros c0 Hin Heq%list_elem_of_singleton.
      apply list_elem_of_fmap in Hin as ([c1 g1] & Hc1 & Hin).
      destruct (I6 c1 g1 Hin) as (vc0 & Hl0 & _).
      apply lookup_lt_Some in Hl0. cbn in Hc1, Heq. unfold c in Heq. lia.
    + apply NoDup_singleton.
Qed.

(** The part of [joinVoiceChannel] before it waits. *)
Lemma join_begin_spec b channel g :
  consistent b ->
  let c := length (connections (manager b)) in
  exists st',
    join_begin channel g (manager b) = Some (c, st')
    /\ consistent (mkBot st' (awaiting b ++ [(c, g)]))
    /\ voiceConnections st' !! g = Some c
    /\ recorders st' = delete g (recorders (manager b))
    /\ recs st' = recs (teardown g (manager b))
    /\ (forall g', g' <> g ->
          voiceConnections st' !! g' = voiceConnections (manager b) !! g')
    /\ silence_env st' = silence_env (manager b)
    /\ clock st' = clock (manager b)
    /\ connections st' !! c
       = Some {| conn_guild := g; conn_channel := channel;
                 status := Signalling; on_destroyed := [];
                 on_disconnected := []; on_speaking_start := [] |}.
Proof.
  intros Hb c. unfold join_begin, getVoiceConnection.
  destruct (voiceConnections (manager b) !! g) as [c0|] eqn:Hv.
  - destruct (tracked_live b Hb g c0 Hv) as (vc & Hc & Hs & Hg).
    destruct (connection_destroy_spec b c0 vc Hb Hc Hs)
      as (st1 & -> & E1 & E2 & E3 & E4 & Hnone & E5 & E6 & Hb1).
    rewrite Hg in *. cbn [mbind option_bind].
    fold (teardown g st1). rewrite (teardown_gone g st1 Hnone).
    assert (voiceConnections st1 !! g = None) as Hv1
      by (rewrite E2; apply lookup_delete_eq).
    destruct (consistent_new_connection (mkBot st1 (awaiting b)) channel g
                Hb1 Hv1) as [Hc1 Hb2].
    cbn [manager awaiting] in Hc1, Hb2.
    assert (length (connections st1) = c) as Hlen
      by (rewrite E1, length_insert; done).
    rewrite Hlen in Hc1, Hb2.
    exists (djsJoinVoiceChannel channel g st1).2.
    split; [by rewrite <- Hc1; destruct (djsJoinVoiceChannel channel g st1)|].
    split; [done|].
    unfold djsJoinVoiceChannel. rewrite Hv1.
    cbn [snd connections voiceConnections recs recorders silence_env clock act
         set_connections set_voiceConnections].
    destruct (teardown_fields g (manager b)) as (_ & _ & F3 & _).
    split_and!; try done.
    + rewrite Hlen. apply lookup_insert_eq.
    + by rewrite E4, F3.
    + intros g' Hne. rewrite lookup_insert_ne by done.
      rewrite E2. by rewrite lookup_delete_ne.
    + rewrite lookup_app_r by lia. by rewrite Hlen, Nat.sub_diag.
  - cbn [mbind option_bind].
    destruct (consistent_new_connection b channel g Hb Hv) as [Hc1 Hb2].
    fold c in Hc1, Hb2.
    exists (djsJoinVoiceChannel channel g (manager b)).2.
    split; [by rewrite <- Hc1; destruct (djsJoinVoiceChannel channel g (manager b))|].
    split; [done|].
    pose proof (no_entry_untracked b g Hb Hv) as Hnone.
    unfold djsJoinVoiceChannel. rewrite Hv.
    cbn [snd connections voiceConnections recs recorders silence_env clock act
         set_connections set_voiceConnections].
    rewrite teardown_gone by done.
    split_and!; try done.
    + apply lookup_insert_eq.
    + symmetry. by apply delete_id.
    + intros g' Hne. by rewrite lookup_insert_ne.
    + rewrite lookup_app_r by done. by rewrite Nat.sub_diag.
Qed.


(** The awaited connection is ready: the join stores a new recorder and
    registers its listeners. *)
Lemma consistent_join_ready b c g vc :
  consistent b -> (c, g) ∈ awaiting b ->
  connections (manager b) !! c = Some vc -> status vc <> Destroyed ->
  consistent (mkBot (join_ready c g (manager b))
                    (filter (fun p => ~ waits_for c p) (awaiting b))).
Proof.
  intros Hb Hin Hc Hs.
  destruct (awaiting_ok b Hb c g Hin) as (vc' & Hc' & Hg & Hl & Hsp).
  assert (vc' = vc) as -> by congruence.
  pose proof (live_tracked b Hb c vc Hc Hs) as Hv. rewrite Hg in Hv.
  pose proof (no_entry_unlistened b c vc Hb Hc Hs Hl) as Hnone.
  rewrite Hg in Hnone.
  pose proof (listeners b Hb c vc Hc) as [Hdis _]. rewrite Hl in Hdis.
  assert (c < length (connections (manager b))) as Hlt by by eapply lookup_lt_Some.
  set (rec := length (recs (manager b))).
  set (vc1 := add_listeners g rec (set_status Ready vc)).
  assert (forall c0,
            alter (fun vc => add_listeners g rec (set_status Ready vc)) c
                  (connections (manager b)) !! c0
            = if decide (c0 = c) then Some vc1
              else connections (manager b) !! c0) as Hconn.
  { intros c0. destruct (decide (c0 = c)) as [->|Hne].
    - by rewrite list_lookup_alter_eq, Hc.
    - by rewrite list_lookup_alter_ne. }
  destruct Hb as [I1 I2 I3 I4 I5 I6 I7].
  constructor; unfold join_ready;
    cbn [manager awaiting connections voiceConnections recs recorders act
         set_recs set_recorders set_connections silence_env clock];
    fold rec.
  - intros g0 c0 Hg0. destruct (I1 g0 c0 Hg0) as (vc0 & Hl0 & Hs0 & Hcg0).
    rewrite Hconn. destruct (decide (c0 = c)) as [->|Hne].
    + exists vc1. assert (vc0 = vc) as -> by congruence. done.
    + exists vc0. done.
  - intros c0 vc0. rewrite Hconn. destruct (decide (c0 = c)) as [->|Hne].
    + intros [= <-] _. cbn. by rewrite Hg.
    + apply I2.
  - intros c0 vc0. rewrite Hconn. destruct (decide (c0 = c)) as [->|Hne].
    + intros [= <-]. cbn. rewrite Hl, Hdis, Hg. auto.
    + apply I3.
  - intros g0 rec0 Hg0. destruct (decide (g = g0)) as [<-|Hne].
    + rewrite lookup_insert_eq in Hg0. injection Hg0 as <-.
      exists c, vc1, (new_AudioRecorder (silence_env (manager b))
                        (clock (manager b)) c g).
      rewrite Hconn, decide_True by done.
      split_and!; try done; cbn; rewrite ?Hl, ?Hsp; try done.
      rewrite lookup_app_r by done. by rewrite Nat.sub_diag.
    + rewrite lookup_insert_ne in Hg0 by done.
      destruct (I4 g0 rec0 Hg0) as (c0 & vc0 & w & Hv0 & Hc0 & ? & ? & Hw & ? & ?).
      exists c0, vc0, w. rewrite Hconn.
      rewrite decide_False by (intros ->; congruence).
      split_and!; try done.
      rewrite lookup_app_l; [done|]. by eapply lookup_lt_Some.
  - intros rec0 w0 Hl0.
    apply lookup_app_Some in Hl0 as [Hl0|[Hge Hl0]].
    + destruct (I5 rec0 w0 Hl0) as [Hreach Hlive]. split; [done|].
      intros Hd0. specialize (Hlive Hd0).
      rewrite lookup_insert_ne; [done|]. intros Heq. rewrite <- Heq in Hlive.
      congruence.
    + apply list_lookup_singleton_Some in Hl0 as [Hz <-]. split.
      * by exists (silence_env (manager b)), (clock (manager b)), c, g, [].
      * intros _. cbn [guildId new_AudioRecorder]. rewrite lookup_insert_eq.
        f_equal. unfold rec. lia.
  - intros c0 g0 [Hw Hin0]%list_elem_of_filter.
    destruct (I6 c0 g0 Hin0) as (vc0 & Hl0 & ? & ? & ?).
    exists vc0. rewrite Hconn. rewrite decide_False; [done|].
    intros ->. by apply Hw.
  - by apply NoDup_fmap_filter.
Qed.

Lemma awaiting_filter_one (aw : list (nat * GuildId)) c g :
  NoDup aw.*1 -> (c, g) ∈ aw -> filter (waits_for c) aw = [(c, g)].
Proof.
  induction aw as [|[c0 g0] aw IH]; intros Hnd Hin; [by apply elem_of_nil in Hin|].
  rewrite fmap_cons in Hnd. apply NoDup_cons in Hnd as [Hnotin Hnd].
  cbn [fst] in Hnotin.
  apply elem_of_cons in Hin as [[= <- <-]|Hin].
  - rewrite filter_cons_True by done. f_equal.
    apply filter_none. intros [c1 g1] Hin1 Hw. unfold waits_for in Hw.
    cbn in Hw. subst c1. apply Hnotin. apply list_elem_of_fmap.
    by exists (c, g1).
  - rewrite filter_cons_False; [by apply IH|].
    unfold waits_for. cbn. intros ->. apply Hnotin.
    apply list_elem_of_fmap. by exists (c, g).
Qed.

Lemma awaiting_filter_none (aw : list (nat * GuildId)) c :
  (forall g, (c, g) ∉ aw) -> filter (waits_for c) aw = [].
Proof.
  intros Hn. apply filter_none. intros [c0 g0] Hin Hw.
  unfold waits_for in Hw. cbn in Hw. subst c0. by apply (Hn g0).
Qed.

Lemma awaiting_cases (aw : list (nat * GuildId)) c :
  NoDup aw.*1 ->
  filter (waits_for c) aw = []
  \/ exists g, (c, g) ∈ aw /\ filter (waits_for c) aw = [(c, g)].
Proof.
  intros Hnd. destruct (filter (waits_for c) aw) as [|[c0 g0] l] eqn:E; [auto|].
  right. assert ((c0, g0) ∈ filter (waits_for c) aw) as Hin
    by (rewrite E; apply elem_of_cons; auto).
  apply list_elem_of_filter in Hin as [Hw Hin]. unfold waits_for in Hw.
  cbn in Hw. subst c0. exists g0. split; [done|].
  rewrite <- E. by apply awaiting_filter_one.
Qed.

(** Every happening keeps the registries consistent. *)
Lemma consistent_happens b h : consistent b -> consistent (happens b h).
Proof.
  intros Hb. destruct h; cbn [happens].
  - destruct (join_begin_spec b channel g Hb) as (st' & -> & Hb' & _). done.
  - destruct (connections (manager b) !! c) as [vc|] eqn:Hc; [|done].
    destruct (decide (status vc = Destroyed)) as [|Hs]; [done|].
    destruct (decide (x = Destroyed)) as [|Hx]; [done|].
    assert (consistent (mkBot (enters c x (manager b)) (awaiting b))) as Hb1.
    { apply consistent_enters; [done| |done]. intros vc' Hc'. congruence. }
    destruct (decide (x = Ready)) as [->|_]; [|done].
    destruct (awaiting_cases (awaiting b) c (awaiting_once b Hb))
      as [->|(g & Hin & ->)]; cbn [fold_left].
    + by apply consistent_filter.
    + apply (consistent_join_ready (mkBot (enters c Ready (manager b))
                                          (awaiting b)) c g (set_status Ready vc));
        try done.
      cbn [manager enters set_connections connections].
      by rewrite list_lookup_alter_eq, Hc.
  - destruct (awaiting_cases (awaiting b) c (awaiting_once b Hb))
      as [->|(g & Hin & ->)]; cbn [fold_left].
    + apply consistent_filter. by destruct b.
    + apply consistent_filter. unfold join_failed.
      destruct (awaiting_ok b Hb c g Hin) as (vc & Hc & _).
      destruct (decide (status vc = Destroyed)) as [Hs|Hs].
      * rewrite (connection_destroy_dead _ c vc Hc Hs). by destruct b.
      * by destruct (connection_destroy_spec b c vc Hb Hc Hs)
          as (st' & -> & _ & _ & _ & _ & _ & _ & _ & Hb').
  - destruct (connections (manager b) !! c) as [vc|] eqn:Hc; [|done].
    destruct (decide (status vc = Disconnected)) as [Hs|]; [|done].
    assert (status vc <> Destroyed) as Hlive by congruence.
    destruct (listeners b Hb c vc Hc) as [-> [->| ->]]; cbn [fold_left];
      [by destruct b|].
    unfold disconnected_unrecovered.
    destruct (connection_destroy_spec b c vc Hb Hc Hlive)
      as (st' & -> & _ & _ & _ & _ & _ & _ & _ & Hb').
    exact (consistent_teardown (mkBot st' (awaiting b)) (conn_guild vc) Hb').
  - destruct (connection_destroy c (manager b)) as [st'|] eqn:E; [|done].
    unfold connection_destroy in E.
    destruct (connections (manager b) !! c) as [vc|] eqn:Hc; [|done].
    destruct (decide (status vc = Destroyed)) as [|Hs]; [done|].
    destruct (connection_destroy_spec b c vc Hb Hc Hs)
      as (st2 & E2 & _ & _ & _ & _ & _ & _ & _ & Hb').
    unfold connection_destroy in E2. rewrite Hc in E2.
    rewrite decide_False in E2 by done. congruence.
  - unfold leaveVoiceChannel, getVoiceConnection.
    destruct (voiceConnections (manager b) !! g) as [c|] eqn:Hv;
      [|by destruct b].
    destruct (tracked_live b Hb g c Hv) as (vc & Hc & Hs & Hg).
    fold (teardown g (manager b)).
    pose proof (consistent_teardown b g Hb) as Hb1.
    destruct (teardown_fields g (manager b)) as (E1 & _).
    destruct (connection_destroy_spec (mkBot (teardown g (manager b)) (awaiting b))
                c vc Hb1) as (st' & E & _ & _ & _ & _ & _ & _ & _ & Hb');
      [by cbn; rewrite E1 | done |].
    cbn [manager] in E. rewrite E. done.
  - by apply consistent_speaking_start.
  - destruct i; try (apply consistent_recorder_step; [discriminate|done]). done.
  - case_match; [|done]. revert Hb. destruct b as [st aw].
    by apply consistent_ext.
Qed.

Lemma consistent_start env t0 : consistent (start env t0).
Proof.
  constructor; cbn [start manager awaiting initial connections voiceConnections
                    recs recorders].
  - intros g c H. by rewrite lookup_empty in H.
  - intros c vc H. by rewrite lookup_nil in H.
  - intros c vc H. by rewrite lookup_nil in H.
  - intros g rec H. by rewrite lookup_empty in H.
  - intros rec w H. by rewrite lookup_nil in H.
  - intros c g H. by apply elem_of_nil in H.
  - apply NoDup_nil_2.
Qed.

Lemma bot_reachable_consistent b : bot_reachable b -> consistent b.
Proof.
  intros (env & t0 & hs & ->).
  assert (forall b, consistent b -> consistent (bot_run b hs)) as H.
  { induction hs as [|h hs IH]; intros b Hb; [done|].
    cbn. apply IH. by apply consistent_happens. }
  apply H, consistent_start.
Qed.

Lemma bot_reachable_happens b h : bot_reachable b -> bot_reachable (happens b h).
Proof.
  intros (env & t0 & hs & ->). exists env, t0, (hs ++ [h]).
  unfold bot_run. by rewrite fold_left_app.
Qed.


(** *** What the registries guarantee *)

Lemma destroyed_recorder w :
  reachable w -> destroyed w = true -> users w = [] /\ timers w = [].
Proof. intros Hreach Hd. apply wf_dead; [by apply reachable_wf | done]. Qed.

(** In a consistent state every recorder of a guild without an entry is
    destroyed. *)
Lemma guild_without_entry b g rec w :
  consistent b -> recorders (manager b) !! g = None ->
  recs (manager b) !! rec = Some w -> guildId w = g ->
  destroyed w = true /\ users w = [] /\ timers w = [].
Proof.
  intros Hb Hnone Hw Hg. destruct (recorders_ok b Hb rec w Hw) as [Hreach Hlive].
  assert (destroyed w = true) as Hd.
  { destruct (destroyed w); [done|]. specialize (Hlive eq_refl). congruence. }
  split; [done|]. by apply destroyed_recorder.
Qed.

(** X10.  No recorder outlives its entry.  Over any history of the manager
    (joins that overlap, leaves, disconnects, ready signals and timeouts in
    any order, with the recorders running in between), a recorder that has
    not been destroyed is the one registered for its guild, and that guild
    has a live tracked connection carrying the three listeners of the join
    that made the recorder; a recorder that is registered nowhere has been
    destroyed, tracks no speaker and has no timer pending. *)
Theorem no_recorder_outlives_its_entry (b : Bot) (rec : nat) (w : World) :
  bot_reachable b -> recs (manager b) !! rec = Some w ->
  reachable w
  /\ (destroyed w = false ->
      recorders (manager b) !! guildId w = Some rec
      /\ exists c vc,
           voiceConnections (manager b) !! guildId w = Some c
           /\ connections (manager b) !! c = Some vc
           /\ status vc <> Destroyed /\ conn_guild vc = guildId w
           /\ on_destroyed vc = [guildId w]
           /\ on_disconnected vc = [guildId w]
           /\ on_speaking_start vc = [rec])
  /\ ((forall g, recorders (manager b) !! g <> Some rec) ->
      destroyed w = true /\ users w = [] /\ timers w = []).
Proof.
  intros Hb%bot_reachable_consistent Hw.
  destruct (recorders_ok b Hb rec w Hw) as [Hreach Hlive].
  split; [done|]. split.
  - intros Hd. specialize (Hlive Hd). split; [done|].
    destruct (entries b Hb _ rec Hlive)
      as (c & vc & w' & Hv & Hc & Hl & Hsp & _).
    destruct (tracked_live b Hb _ c Hv) as (vc' & Hc' & Hs & Hg).
    assert (vc' = vc) as -> by congruence.
    destruct (listeners b Hb c vc Hc) as [Hdis _].
    exists c, vc. split_and!; try done. congruence.
  - intros Hnone.
    assert (destroyed w = true) as Hd.
    { destruct (destroyed w); [done|]. by destruct (Hnone _ (Hlive eq_refl)). }
    split; [done|]. by apply destroyed_recorder.
Qed.


Lemma demo_bot_reachable : bot_reachable demo_bot.
Proof.
  by exists None, 0%Z,
    [JoinCalled "general" "guild"; Enters 0 Ready; StartsSpeaking 0 "alice"].
Defined.

Lemma no_recorder_outlives_its_entry_witness :
  reachable demo_subscribed
  /\ (destroyed demo_subscribed = false ->
      recorders (manager demo_bot) !! guildId demo_subscribed = Some 0).
Proof.
  assert (recs (manager demo_bot) !! 0 = Some demo_subscribed) as Hw
    by (vm_compute; reflexivity).
  destruct (no_recorder_outlives_its_entry demo_bot 0 demo_subscribed
              demo_bot_reachable Hw) as (H1 & H2 & _).
  split; [exact H1|]. intros Hd. exact (proj1 (H2 Hd)).
Defined.

(** X11.  One live recorder per guild.  Over any history of the manager, no
    two recorders that have not been destroyed are of the same guild, and
    no recorder is registered for two guilds or for a guild other than its
    own. *)
Theorem one_live_recorder_per_guild (b : Bot) :
  bot_reachable b ->
  (forall rec rec' w w',
     recs (manager b) !! rec = Some w -> recs (manager b) !! rec' = Some w' ->
     destroyed w = false -> destroyed w' = false ->
     guildId w = guildId w' -> rec = rec')
  /\ (forall g rec,
        recorders (manager b) !! g = Some rec ->
        exists w, recs (manager b) !! rec = Some w
                  /\ guildId w = g /\ destroyed w = false)
  /\ (forall g g' rec,
        recorders (manager b) !! g = Some rec ->
        recorders (manager b) !! g' = Some rec -> g = g').
Proof.
  intros Hb%bot_reachable_consistent. split_and!.
  - intros rec rec' w w' Hw Hw' Hd Hd' Hg.
    destruct (recorders_ok b Hb rec w Hw) as [_ Hlive].
    destruct (recorders_ok b Hb rec' w' Hw') as [_ Hlive'].
    specialize (Hlive Hd). specialize (Hlive' Hd'). congruence.
  - intros g rec Hg.
    destruct (entries b Hb g rec Hg) as (_ & _ & w & _ & _ & _ & _ & ? & ? & ?).
    eauto.
  - intros g g' rec Hg Hg'.
    destruct (entries b Hb g rec Hg) as (_ & _ & w & _ & _ & _ & _ & ? & ? & ?).
    destruct (entries b Hb g' rec Hg') as (_ & _ & w' & _ & _ & _ & _ & ? & ? & ?).
    congruence.
Qed.

Lemma one_live_recorder_per_guild_witness :
  exists w, recs (manager demo_bot) !! 0 = Some w
            /\ guildId w = "guild" /\ destroyed w = false.
Proof.
  assert (recorders (manager demo_bot) !! "guild" = Some 0) as Hg
    by (vm_compute; reflexivity).
  exact (proj1 (proj2 (one_live_recorder_per_guild demo_bot demo_bot_reachable))
           "guild" 0 Hg).
Defined.

(** *** Leaving *)

Lemma leave_fields b g :
  consistent b ->
  let r := leaveVoiceChannel g (manager b) in
  consistent (mkBot r.2 (awaiting b))
  /\ r.1 = bool_decide (is_Some (voiceConnections (manager b) !! g))
  /\ voiceConnections r.2 = delete g (voiceConnections (manager b))
  /\ recorders r.2 = delete g (recorders (manager b))
  /\ recs r.2 = recs (teardown g (manager b))
  /\ forall c vc, voiceConnections (manager b) !! g = Some c ->
       connections (manager b) !! c = Some vc ->
       connections r.2 = <[c := set_status Destroyed vc]> (connections (manager b)).
Proof.
  intros Hb r.
  pose proof (consistent_happens b (LeaveCalled g) Hb) as Hb'.
  cbn [happens] in Hb'. fold r in Hb'. split; [done|].
  unfold r, leaveVoiceChannel, getVoiceConnection.
  destruct (voiceConnections (manager b) !! g) as [c|] eqn:Hv.
  - destruct (tracked_live b Hb g c Hv) as (vc & Hc & Hs & Hg).
    fold (teardown g (manager b)).
    pose proof (consistent_teardown b g Hb) as Hb1.
    destruct (teardown_fields g (manager b)) as (E1 & E2 & E3 & E4).
    destruct (connection_destroy_spec (mkBot (teardown g (manager b)) (awaiting b))
                c vc Hb1) as (st' & E & F1 & F2 & F3 & F4 & _);
      [by cbn; rewrite E1 | done |].
    cbn [manager] in E, F1, F2, F3, F4. rewrite E. cbn [fst snd].
    rewrite Hg in F2, F3, F4.
    assert (recorders (teardown g (manager b)) !! g = None) as Hnone
      by (rewrite E3; apply lookup_delete_eq).
    rewrite teardown_gone in F3, F4 by done.
    split_and!.
    + rewrite bool_decide_eq_true_2; [done|]. eauto.
    + by rewrite F2, E2.
    + by rewrite F4, E3.
    + done.
    + intros c0 vc0 [= <-] Hc0. rewrite F1, E1. congruence.
  - cbn [fst snd]. pose proof (no_entry_untracked b g Hb Hv) as Hnone.
    rewrite teardown_gone by done.
    split_and!.
    + rewrite bool_decide_eq_false_2; [done|]. by intros [? ?].
    + symmetry. by apply delete_id.
    + symmetry. by apply delete_id.
    + done.
    + done.
Qed.

(** X12.  Leaving removes the guild's entry, once.  In any state the
    manager can be in, [leaveVoiceChannel(g)] returns [true] exactly when a
    connection is tracked for [g]; when it returns, no connection is tracked
    and no recorder is registered for [g], the connection that was tracked is
    destroyed, every recorder of [g] is destroyed and has no speaker and no
    timer left, and the entries of all other guilds are as before; a second
    call returns [false] and changes nothing. *)
Theorem leave_removes_the_entry (b : Bot) (g : GuildId) :
  bot_reachable b ->
  let r := leaveVoiceChannel g (manager b) in
  r.1 = bool_decide (is_Some (voiceConnections (manager b) !! g))
  /\ voiceConnections r.2 !! g = None /\ recorders r.2 !! g = None
  /\ (forall c, voiceConnections (manager b) !! g = Some c ->
        status <$> connections r.2 !! c = Some Destroyed)
  /\ (forall rec w, recs r.2 !! rec = Some w -> guildId w = g ->
        destroyed w = true /\ users w = [] /\ timers w = [])
  /\ (forall g', g' <> g ->
        voiceConnections r.2 !! g' = voiceConnections (manager b) !! g'
        /\ recorders r.2 !! g' = recorders (manager b) !! g')
  /\ leaveVoiceChannel g r.2 = (false, r.2).
Proof.
  intros Hb%bot_reachable_consistent r.
  destruct (leave_fields b g Hb) as (Hb' & E0 & E1 & E2 & E3 & E4). fold r in Hb', E0, E1, E2, E3, E4.
  assert (voiceConnections r.2 !! g = None) as Hv'
    by (rewrite E1; apply lookup_delete_eq).
  assert (recorders r.2 !! g = None) as Hr'
    by (rewrite E2; apply lookup_delete_eq).
  split_and!; try done.
  - intros c Hv. destruct (tracked_live b Hb g c Hv) as (vc & Hc & _).
    rewrite (E4 c vc Hv Hc).
    rewrite list_lookup_insert_eq by by eapply lookup_lt_Some. done.
  - intros rec w Hw Hg.
    exact (guild_without_entry (mkBot r.2 (awaiting b)) g rec w Hb' Hr' Hw Hg).
  - intros g' Hne. rewrite E1, E2. by rewrite !lookup_delete_ne.
  - unfold leaveVoiceChannel at 1, getVoiceConnection. by rewrite Hv'.
Qed.

Lemma leave_removes_the_entry_witness :
  (leaveVoiceChannel "guild" (manager demo_bot)).1
  = bool_decide (is_Some (voiceConnections (manager demo_bot) !! "guild"))
  /\ voiceConnections (leaveVoiceChannel "guild" (manager demo_bot)).2 !! "guild"
     = None
  /\ recorders (leaveVoiceChannel "guild" (manager demo_bot)).2 !! "guild" = None.
Proof.
  destruct (leave_removes_the_entry demo_bot "guild" demo_bot_reachable)
    as (H1 & H2 & H3 & _).
  split_and!; assumption.
Defined.


(** *** A join that fails, a connection that is lost *)

(** What the run-out of the wait of a join does to the manager. *)
Lemma ready_timeout_fields b c g :
  consistent b -> (c, g) ∈ awaiting b ->
  let b' := happens b (ReadyTimesOut c) in
  awaiting b' = filter (fun p => ~ waits_for c p) (awaiting b)
  /\ recorders (manager b') = recorders (manager b)
  /\ recs (manager b') = recs (manager b)
  /\ status <$> connections (manager b') !! c = Some Destroyed
  /\ voiceConnections (manager b')
     = (if decide (voiceConnections (manager b) !! g = Some c)
        then delete g (voiceConnections (manager b))
        else voiceConnections (manager b))
  /\ (voiceConnections (manager b) !! g = Some c ->
      recorders (manager b) !! g = None).
Proof.
  intros Hb Hin b'.
  destruct (awaiting_ok b Hb c g Hin) as (vc & Hc & Hg & Hl & _).
  assert (b' = mkBot (join_failed c (manager b))
                     (filter (fun p => ~ waits_for c p) (awaiting b))) as ->.
  { unfold b'. cbn [happens].
    rewrite (awaiting_filter_one (awaiting b) c g); [done| |done].
    by apply awaiting_once. }
  cbn [manager awaiting]. split; [done|].
  unfold join_failed.
  destruct (decide (status vc = Destroyed)) as [Hs|Hs].
  - rewrite (connection_destroy_dead (manager b) c vc Hc Hs).
    assert (voiceConnections (manager b) !! g <> Some c) as Hv.
    { intros Hv. destruct (tracked_live b Hb g c Hv) as (vc' & Hc' & Hs' & _).
      congruence. }
    rewrite decide_False by done. rewrite Hc. cbn. rewrite Hs.
    split_and!; done.
  - pose proof (live_tracked b Hb c vc Hc Hs) as Hv. rewrite Hg in Hv.
    pose proof (no_entry_unlistened b c vc Hb Hc Hs Hl) as Hnone.
    rewrite Hg in Hnone.
    destruct (connection_destroy_spec b c vc Hb Hc Hs)
      as (st' & -> & F1 & F2 & F3 & F4 & _).
    rewrite Hg in F2, F3, F4. rewrite teardown_gone in F3, F4 by done.
    rewrite decide_True by done. split_and!; try done.
    rewrite F1, list_lookup_insert_eq by by eapply lookup_lt_Some. done.
Qed.

(** X13.  A join whose wait runs out.  When the connection a call of
    [joinVoiceChannel] waits for does not become ready in time, whatever
    happened while it waited, the call destroys that connection (if it is
    not destroyed already) and throws: it waits no longer, the connection is
    destroyed and not tracked, no recorder and no registration of a recorder
    is touched, and other guilds keep their connections.  If the guild's
    tracked connection, when there is one, is still the one of this call
    (no later join took the guild over), the guild is left without an entry:
    no connection tracked, no recorder registered, and every recorder of the
    guild destroyed, with no speaker and no timer left.  A connection that a
    later join has tracked for the guild stays tracked. *)
Theorem failed_join_leaves_no_entry (b : Bot) (c : nat) (g : GuildId) :
  bot_reachable b -> (c, g) ∈ awaiting b ->
  let st := manager b in
  let st' := manager (happens b (ReadyTimesOut c)) in
  (forall g', (c, g') ∉ awaiting (happens b (ReadyTimesOut c)))
  /\ status <$> connections st' !! c = Some Destroyed
  /\ voiceConnections st' !! g <> Some c
  /\ recorders st' = recorders st /\ recs st' = recs st
  /\ (forall g', g' <> g -> voiceConnections st' !! g' = voiceConnections st !! g')
  /\ (forall c', c' <> c -> voiceConnections st !! g = Some c' ->
        voiceConnections st' !! g = Some c')
  /\ ((forall c', voiceConnections st !! g = Some c' -> c' = c) ->
      voiceConnections st' !! g = None /\ recorders st' !! g = None
      /\ forall rec w, recs st' !! rec = Some w -> guildId w = g ->
           destroyed w = true /\ users w = [] /\ timers w = []).
Proof.
  intros Hreach Hin st st'.
  pose proof (bot_reachable_consistent b Hreach) as Hb.
  pose proof (bot_reachable_consistent _
                (bot_reachable_happens b (ReadyTimesOut c) Hreach)) as Hb'.
  destruct (ready_timeout_fields b c g Hb Hin) as (Ha & Hr & Hw & Hs & Hv & Hn).
  fold st' in Hr, Hw, Hs, Hv. fold st in Hr, Hw, Hv, Hn.
  assert (voiceConnections st' !! g <> Some c) as Hnot.
  { rewrite Hv. case_decide as Hd; [by rewrite lookup_delete_eq | done]. }
  split_and!; try done.
  - intros g' Hin'. rewrite Ha in Hin'.
    apply list_elem_of_filter in Hin' as [Hw' _]. by apply Hw'.
  - intros g' Hne. rewrite Hv. case_decide; [|done].
    by rewrite lookup_delete_ne.
  - intros c' Hne Hc'. rewrite Hv. rewrite decide_False; [done|]. congruence.
  - intros Honly.
    assert (voiceConnections st' !! g = None) as Hnone.
    { rewrite Hv. case_decide as Hd; [by rewrite lookup_delete_eq|].
      destruct (voiceConnections st !! g) as [c'|] eqn:E; [|done].
      destruct Hd. f_equal. by apply Honly. }
    assert (recorders st' !! g = None) as Hnorec
      by exact (no_entry_untracked _ g Hb' Hnone).
    split_and!; try done.
    intros rec w Hrec Hg.
    exact (guild_without_entry _ g rec w Hb' Hnorec Hrec Hg).
Qed.

Lemma demo_bot_waiting_reachable : bot_reachable demo_bot_waiting.
Proof. exists None, 0%Z, [JoinCalled "general" "guild"]. reflexivity. Defined.

Lemma demo_bot_overlap_reachable : bot_reachable demo_bot_overlap.
Proof.
  exists None, 0%Z,
    [JoinCalled "general" "guild"; JoinCalled "other" "guild"; Enters 1 Ready].
  reflexivity.
Defined.

(** A join alone that times out leaves "guild" without an entry; a join
    that times out after a later join took the guild over leaves the later
    join's connection tracked. *)
Lemma failed_join_leaves_no_entry_witness :
  (voiceConnections (manager (happens demo_bot_waiting (ReadyTimesOut 0)))
     !! "guild" = None
   /\ recorders (manager (happens demo_bot_waiting (ReadyTimesOut 0)))
        !! "guild" = None)
  /\ voiceConnections (manager (happens demo_bot_overlap (ReadyTimesOut 0)))
       !! "guild" = Some 1.
Proof.
  assert ((0, "guild") ∈ awaiting demo_bot_waiting) as H1.
  { assert (awaiting demo_bot_waiting = [(0, "guild")]) as ->
      by (vm_compute; reflexivity).
    by apply list_elem_of_singleton. }
  assert ((0, "guild") ∈ awaiting demo_bot_overlap) as H2.
  { assert (awaiting demo_bot_overlap = [(0, "guild")]) as ->
      by (vm_compute; reflexivity).
    by apply list_elem_of_singleton. }
  assert (voiceConnections (manager demo_bot_waiting) !! "guild" = Some 0) as H3
    by (vm_compute; reflexivity).
  assert (voiceConnections (manager demo_bot_overlap) !! "guild" = Some 1) as H4
    by (vm_compute; reflexivity).
  destruct (failed_join_leaves_no_entry demo_bot_waiting 0 "guild"
              demo_bot_waiting_reachable H1) as (_ & _ & _ & _ & _ & _ & _ & G1).
  destruct (failed_join_leaves_no_entry demo_bot_overlap 0 "guild"
              demo_bot_overlap_reachable H2) as (_ & _ & _ & _ & _ & _ & G2 & _).
  split.
  - destruct G1 as (? & ? & _); [|done]. intros c'. rewrite H3. congruence.
  - apply (G2 1); [discriminate | exact H4].
Defined.

(** What the destruction of a live connection leaves, whoever calls it. *)
Lemma destroyed_connection_fields b c vc :
  consistent b -> connections (manager b) !! c = Some vc ->
  status vc <> Destroyed ->
  exists st',
    connection_destroy c (manager b) = Some st'
    /\ consistent (mkBot st' (awaiting b))
    /\ status <$> connections st' !! c = Some Destroyed
    /\ voiceConnections st' !! conn_guild vc = None
    /\ recorders st' !! conn_guild vc = None
    /\ (forall rec w, recs st' !! rec = Some w -> guildId w = conn_guild vc ->
          destroyed w = true /\ users w = [] /\ timers w = [])
    /\ (forall g', g' <> conn_guild vc ->
          voiceConnections st' !! g' = voiceConnections (manager b) !! g'
          /\ recorders st' !! g' = recorders (manager b) !! g').
Proof.
  intros Hb Hc Hs.
  destruct (connection_destroy_spec b c vc Hb Hc Hs)
    as (st' & E & F1 & F2 & F3 & F4 & Hnone & _ & _ & Hb').
  exists st'. split; [done|]. split; [done|]. split_and!; try done.
  - rewrite F1. rewrite list_lookup_insert_eq by by eapply lookup_lt_Some. done.
  - rewrite F2. apply lookup_delete_eq.
  - intros rec w Hw Hgw. exact (guild_without_entry _ _ rec w Hb' Hnone Hw Hgw).
  - intros g' Hne. split.
    + by rewrite F2, lookup_delete_ne.
    + destruct (teardown_fields (conn_guild vc) (manager b)) as (_ & _ & T3 & _).
      rewrite F4, T3. by rewrite lookup_delete_ne.
Qed.

(** X14.  A lost connection.  A connection that carries the listeners of
    its join is in the state [Disconnected].  When it moves on to
    [Signalling] or [Connecting], no registry and no recorder changes.  When
    instead the wait of its ["disconnected"] listener runs out, the listener
    destroys it: afterwards the connection is destroyed and no longer
    tracked, its guild has no recorder registered, and every recorder of
    that guild is destroyed, with no speaker and no timer left; the entries
    of other guilds are as before. *)
Theorem lost_connection_is_torn_down (b : Bot) (c : nat) (vc : VoiceConnection) :
  bot_reachable b ->
  connections (manager b) !! c = Some vc -> status vc = Disconnected ->
  on_disconnected vc <> [] ->
  let g := conn_guild vc in
  let st2 := manager (happens b (ReconnectTimesOut c)) in
  (forall x, x = Signalling \/ x = Connecting ->
     let st1 := manager (happens b (Enters c x)) in
     voiceConnections st1 = voiceConnections (manager b)
     /\ recorders st1 = recorders (manager b) /\ recs st1 = recs (manager b)
     /\ status <$> connections st1 !! c = Some x)
  /\ status <$> connections st2 !! c = Some Destroyed
  /\ voiceConnections st2 !! g = None /\ recorders st2 !! g = None
  /\ (forall rec w, recs st2 !! rec = Some w -> guildId w = g ->
        destroyed w = true /\ users w = [] /\ timers w = [])
  /\ (forall g', g' <> g ->
        voiceConnections st2 !! g' = voiceConnections (manager b) !! g'
        /\ recorders st2 !! g' = recorders (manager b) !! g').
Proof.
  intros Hb%bot_reachable_consistent Hc Hs Hl g st2.
  assert (status vc <> Destroyed) as Hlive by congruence.
  destruct (listeners b Hb c vc Hc) as [Hdis [Hnil|Hone]]; [congruence|].
  split.
  { intros x Hx st1. unfold st1. cbn [happens]. rewrite Hc.
    rewrite decide_False by done.
    rewrite decide_False by (destruct Hx; congruence).
    rewrite decide_False by (destruct Hx; congruence).
    cbn [manager enters set_connections connections voiceConnections recorders
         recs].
    split_and!; try done. by rewrite list_lookup_alter_eq, Hc. }
  destruct (destroyed_connection_fields b c vc Hb Hc Hlive)
    as (st' & E & Hb' & G1 & G2 & G3 & G4 & G5).
  assert (st2 = st') as ->.
  { unfold st2. cbn [happens]. rewrite Hc. rewrite decide_True by done.
    cbn [manager]. rewrite Hdis, Hone. cbn [fold_left].
    unfold disconnected_unrecovered. rewrite E.
    exact (teardown_gone (conn_guild vc) st' G3). }
  done.
Qed.

Lemma demo_bot_disconnected_reachable : bot_reachable demo_bot_disconnected.
Proof.
  exact (bot_reachable_happens demo_bot (Enters 0 Disconnected)
           demo_bot_reachable).
Defined.

Lemma lost_connection_is_torn_down_witness :
  status <$> connections
               (manager (happens demo_bot_disconnected (ReconnectTimesOut 0))) !! 0
  = Some Destroyed
  /\ recorders (manager (happens demo_bot_disconnected (ReconnectTimesOut 0)))
       !! "guild" = None.
Proof.
  assert (connections (manager demo_bot_disconnected) !! 0
          = Some demo_lost_connection) as Hc by (vm_compute; reflexivity).
  assert (on_disconnected demo_lost_connection <> []) as Hl by discriminate.
  destruct (lost_connection_is_torn_down demo_bot_disconnected 0
              demo_lost_connection demo_bot_disconnected_reachable Hc eq_refl Hl)
    as (_ & H1 & _ & H2 & _).
  split; assumption.
Defined.

(** X15.  A connection destroyed by the library takes its entry along.
    When the voice library itself destroys a live connection, the
    ["destroyed"] listener of the join, if the join got that far, tears down
    the entry: afterwards the connection is destroyed and no longer tracked,
    its guild has no recorder registered, every recorder of that guild is
    destroyed, with no speaker and no timer left, and the entries of other
    guilds are as before. *)
Theorem destroyed_connection_takes_its_entry (b : Bot) (c : nat)
  (vc : VoiceConnection) :
  bot_reachable b ->
  connections (manager b) !! c = Some vc -> status vc <> Destroyed ->
  let g := conn_guild vc in
  let st' := manager (happens b (Destroys c)) in
  status <$> connections st' !! c = Some Destroyed
  /\ voiceConnections st' !! g = None /\ recorders st' !! g = None
  /\ (forall rec w, recs st' !! rec = Some w -> guildId w = g ->
        destroyed w = true /\ users w = [] /\ timers w = [])
  /\ (forall g', g' <> g ->
        voiceConnections st' !! g' = voiceConnections (manager b) !! g'
        /\ recorders st' !! g' = recorders (manager b) !! g').
Proof.
  intros Hb%bot_reachable_consistent Hc Hs g st'.
  destruct (destroyed_connection_fields b c vc Hb Hc Hs)
    as (st2 & E & _ & G).
  assert (st' = st2) as -> by (unfold st'; cbn [happens]; by rewrite E).
  exact G.
Qed.

Lemma destroyed_connection_takes_its_entry_witness :
  status <$> connections (manager (happens demo_bot (Destroys 0))) !! 0
  = Some Destroyed
  /\ voiceConnections (manager (happens demo_bot (Destroys 0))) !! "guild" = None
  /\ recorders (manager (happens demo_bot (Destroys 0))) !! "guild" = None.
Proof.
  assert (connections (manager demo_bot) !! 0 = Some demo_connection) as Hc
    by (vm_compute; reflexivity).
  assert (status demo_connection <> Destroyed) as Hs by discriminate.
  destruct (destroyed_connection_takes_its_entry demo_bot 0 demo_connection
              demo_bot_reachable Hc Hs) as (H1 & H2 & H3 & _).
  split_and!; assumption.
Defined.

(** X16.  Speaking signals reach the guild's recorder.  In any state the
    manager can be in, a ["start"] signal from the receiver of the connection
    tracked for a guild that has a recorder is handled by that recorder, a
    live recorder of that guild, and by no other: every other recorder is
    left exactly as it is. *)
Theorem speaking_reaches_the_guilds_recorder (b : Bot) (g : GuildId)
  (c rec : nat) (u : UserId) :
  bot_reachable b ->
  voiceConnections (manager b) !! g = Some c ->
  recorders (manager b) !! g = Some rec ->
  exists w,
    recs (manager b) !! rec = Some w /\ guildId w = g /\ destroyed w = false
    /\ recs (speaking_start c u (manager b))
       = <[rec := handleUserSpeaking u w]> (recs (manager b))
    /\ connections (speaking_start c u (manager b)) = connections (manager b)
    /\ recorders (speaking_start c u (manager b)) = recorders (manager b).
Proof.
  intros Hb%bot_reachable_consistent Hv Hg.
  destruct (entries b Hb g rec Hg) as (c' & vc & w & Hv' & Hc & _ & Hsp & Hw & Hd & Hgw).
  assert (c' = c) as -> by congruence.
  exists w. split_and!; try done;
    unfold speaking_start; rewrite Hc, Hsp; cbn [fold_left]; try done.
  cbn [recs set_recs]. apply list_eq. intros i.
  destruct (decide (i = rec)) as [->|Hne].
  - rewrite list_lookup_alter_eq, Hw.
    rewrite list_lookup_insert_eq by by eapply lookup_lt_Some. done.
  - rewrite list_lookup_alter_ne, list_lookup_insert_ne by done. done.
Qed.

Lemma speaking_reaches_the_guilds_recorder_witness :
  exists w,
    recs (manager demo_bot) !! 0 = Some w /\ guildId w = "guild"
    /\ destroyed w = false
    /\ recs (speaking_start 0 "bob" (manager demo_bot))
       = <[0 := handleUserSpeaking "bob" w]> (recs (manager demo_bot))
    /\ connections (speaking_start 0 "bob" (manager demo_bot))
       = connections (manager demo_bot)
    /\ recorders (speaking_start 0 "bob" (manager demo_bot))
       = recorders (manager demo_bot).
Proof.
  assert (voiceConnections (manager demo_bot) !! "guild" = Some 0) as Hv
    by (vm_compute; reflexivity).
  assert (recorders (manager demo_bot) !! "guild" = Some 0) as Hg
    by (vm_compute; reflexivity).
  exact (speaking_reaches_the_guilds_recorder demo_bot "guild" 0 0 "bob"
           demo_bot_reachable Hv Hg).
Defined.

End BotFacts.

(* ===================================================================== *)
(** ** The slash commands                                                 *)
(* ===================================================================== *)

Section CommandFacts.
Import Api Recorder Manager Session Bot Commands.

Implicit Types (b : Bot) (st : State) (g : GuildId).

Lemma bot_reachable_run b hs : bot_reachable b -> bot_reachable (bot_run b hs).
Proof.
  intros (env & t0 & hs0 & ->). exists env, t0, (hs0 ++ hs).
  unfold bot_run. by rewrite fold_left_app.
Qed.

(** What the manager holds for a guild once the connection a join waits
    for is ready and the join has run on. *)
Lemma ready_join_fields b c g vc :
  consistent b -> (c, g) ∈ awaiting b ->
  connections (manager b) !! c = Some vc -> status vc <> Destroyed ->
  let st' := manager (happens b (Enters c Ready)) in
  let rec := length (recs (manager b)) in
  awaiting (happens b (Enters c Ready))
  = filter (fun p => ~ waits_for c p) (awaiting b)
  /\ voiceConnections st' !! g = Some c
  /\ connections st' !! c = Some (add_listeners g rec (set_status Ready vc))
  /\ recorders st' !! g = Some rec
  /\ recs st' !! rec
     = Some (new_AudioRecorder (silence_env (manager b)) (clock (manager b)) c g).
Proof.
  intros Hb Hin Hc Hs st' rec.
  destruct (awaiting_ok b Hb c g Hin) as (vc' & Hc' & Hg & _).
  assert (vc' = vc) as -> by congruence.
  pose proof (live_tracked b Hb c vc Hc Hs) as Hv. rewrite Hg in Hv.
  assert (happens b (Enters c Ready)
          = mkBot (join_ready c g (enters c Ready (manager b)))
                  (filter (fun p => ~ waits_for c p) (awaiting b))) as E.
  { cbn [happens]. rewrite Hc. rewrite decide_False by done.
    rewrite decide_False by done. rewrite decide_True by done.
    rewrite (awaiting_filter_one (awaiting b) c g); [done| |done].
    by apply awaiting_once. }
  unfold st'. rewrite E. cbn [manager awaiting]. split; [done|].
  unfold join_ready, enters.
  cbn [connections voiceConnections recs recorders act set_recs set_recorders
       set_connections silence_env clock].
  split_and!.
  - done.
  - rewrite !list_lookup_alter_eq, Hc. done.
  - apply lookup_insert_eq.
  - rewrite lookup_app_r by (unfold rec; lia).
    unfold rec. by rewrite Nat.sub_diag.
Qed.

(** X17.  The join command.  In any state the manager can be in, the command
    replies at once, privately, and without calling the manager exactly when
    the member is in no voice channel or the bot lacks a permission there.
    Otherwise it calls [joinVoiceChannel] and is suspended: a new connection
    to the member's channel is tracked for the guild and waited for, and at
    that moment no recorder is registered for the guild.  Whatever happens while
    the join waits, when its connection becomes ready the guild has its
    entry (the connection ready and tracked, a fresh, live recorder of the
    guild registered that tracks no speaker yet) and the join waits no
    longer.  Of the replies the command attempts after the join settled,
    "Joined" is the only public one and is attempted exactly when the join
    returned; "Failed to join" is attempted exactly when the join threw or
    the "Joined" reply was rejected, the entry of the guild staying as it
    is in the latter case. *)
Theorem join_command_outcome (b : Bot) (i : Interaction) :
  bot_reachable b ->
  let r := join_execute i b in
  let g := guild_id i in
  (forall reply, r.1 = Replied reply ->
     r.2 = b /\ ephemeral reply = true
     /\ ((member_voice_channel i = None /\ content reply = NeedVoiceChannel)
         \/ ((exists ch, member_voice_channel i = Some ch
                /\ (has_Connect ch = false \/ has_Speak ch = false))
             /\ content reply = NeedPermissions)))
  /\ (forall ch c, r.1 = Joining ch c ->
        member_voice_channel i = Some ch
        /\ has_Connect ch = true /\ has_Speak ch = true
        /\ r.2 = happens b (JoinCalled (channel_id ch) g)
        /\ (c, g) ∈ awaiting r.2
        /\ voiceConnections (manager r.2) !! g = Some c
        /\ recorders (manager r.2) !! g = None
        /\ conn_channel <$> connections (manager r.2) !! c
           = Some (channel_id ch)
        /\ (forall hs vc,
              let b' := bot_run r.2 hs in
              (c, g) ∈ awaiting b' ->
              connections (manager b') !! c = Some vc ->
              status vc <> Destroyed ->
              let st' := manager (happens b' (Enters c Ready)) in
              (forall g', (c, g') ∉ awaiting (happens b' (Enters c Ready)))
              /\ exists rec w vc',
                   voiceConnections st' !! g = Some c
                   /\ connections st' !! c = Some vc' /\ status vc' = Ready
                   /\ recorders st' !! g = Some rec
                   /\ recs st' !! rec = Some w
                   /\ guildId w = g /\ users w = [] /\ destroyed w = false)
        /\ (forall joined delivered,
              let replies := join_execute_resume ch joined delivered in
              (mkReply (Joined (channel_name ch)) false ∈ replies
               <-> joined = true)
              /\ (mkReply FailedToJoin true ∈ replies
                  <-> joined = false \/ delivered = false)
              /\ Forall (fun reply =>
                           reply = mkReply (Joined (channel_name ch)) false
                           \/ reply = mkReply FailedToJoin true) replies)).
Proof.
  intros Hreach r g. pose proof (bot_reachable_consistent b Hreach) as Hb.
  split.
  - intros reply Hr. unfold r, join_execute in Hr |- *.
    destruct (member_voice_channel i) as [ch|] eqn:Hch.
    + destruct (negb (has_Connect ch) || negb (has_Speak ch))%bool eqn:Hp.
      * cbn in Hr |- *. injection Hr as <-. cbn. split_and!; try done.
        right. split; [|done]. exists ch. split; [done|].
        apply orb_true_iff in Hp as [Hp|Hp]; apply negb_true_iff in Hp; auto.
      * destruct (join_begin_spec b (channel_id ch) (guild_id i) Hb)
          as (st1 & Hjoin & _).
        rewrite Hjoin in Hr. discriminate Hr.
    + cbn in Hr |- *. injection Hr as <-. cbn. split_and!; try done. by left.
  - intros ch c Hr.
    assert (member_voice_channel i = Some ch
            /\ has_Connect ch = true /\ has_Speak ch = true
            /\ c = length (connections (manager b))
            /\ r.2 = happens b (JoinCalled (channel_id ch) g))
      as (Hch & Hco & Hsp & -> & Hr2).
    { unfold r, join_execute in Hr |- *.
      destruct (member_voice_channel i) as [ch0|]; [|discriminate Hr].
      destruct (negb (has_Connect ch0) || negb (has_Speak ch0))%bool eqn:Hp;
        [discriminate Hr|].
      destruct (join_begin_spec b (channel_id ch0) (guild_id i) Hb)
        as (st1 & Hjoin & _).
      rewrite Hjoin in Hr |- *. cbn in Hr |- *. injection Hr as <- <-.
      apply orb_false_iff in Hp as [H1 H2].
      apply negb_false_iff in H1, H2. done. }
    destruct (join_begin_spec b (channel_id ch) g Hb)
      as (st1 & Hjoin & Hb1 & Hv1 & Hr1 & _ & _ & _ & _ & Hc1).
    assert (happens b (JoinCalled (channel_id ch) g)
            = mkBot st1 (awaiting b
                           ++ [(length (connections (manager b)), g)])) as E
      by (cbn [happens]; by rewrite Hjoin).
    rewrite Hr2, E. cbn [manager awaiting].
    do 4 (split; [done|]).
    split; [apply elem_of_app; right; by apply list_elem_of_singleton|].
    split; [done|].
    split; [rewrite Hr1; apply lookup_delete_eq|].
    split; [by rewrite Hc1|].
    split.
    + intros hs vc. set (b' := bot_run _ hs). intros Hin Hc Hs.
      assert (bot_reachable b') as Hreach'.
      { apply bot_reachable_run. rewrite <- E.
        by apply bot_reachable_happens. }
      pose proof (bot_reachable_consistent b' Hreach') as Hb'.
      destruct (ready_join_fields b' _ g vc Hb' Hin Hc Hs)
        as (Ha & G1 & G2 & G3 & G4).
      split.
      * intros g' Hin'. rewrite Ha in Hin'.
        apply list_elem_of_filter in Hin' as [Hw _]. by apply Hw.
      * eexists _, _, _. split_and!; try done.
    + intros joined delivered. unfold join_execute_resume.
      destruct joined, delivered;
        (split; [|split]);
        rewrite ?Forall_cons, ?Forall_nil, ?elem_of_cons, ?elem_of_nil;
        intuition (try discriminate; try congruence; auto).
Qed.

Lemma start_reachable env t0 : bot_reachable (start env t0).
Proof. by exists env, t0, []. Qed.

(** A member in "general" with both permissions runs the command on a fresh
    bot: the join waits for connection 0, tracked for "guild"; once the
    connection is ready, "guild" has a recorder registered. *)
Lemma join_command_outcome_witness :
  (0, "guild") ∈ awaiting (join_execute demo_interaction (start None 0)).2
  /\ voiceConnections
       (manager (join_execute demo_interaction (start None 0)).2) !! "guild"
     = Some 0
  /\ exists rec,
       recorders
         (manager
            (happens
               (bot_run (join_execute demo_interaction (start None 0)).2 [])
               (Enters 0 Ready))) !! "guild" = Some rec.
Proof.
  assert ((join_execute demo_interaction (start None 0)).1
          = Joining demo_channel 0) as H1 by (vm_compute; reflexivity).
  destruct (proj2 (join_command_outcome (start None 0) demo_interaction
                     (start_reachable None 0)) demo_channel 0 H1)
    as (_ & _ & _ & _ & Hin & Hv & _ & _ & Hready & _).
  split; [exact Hin|]. split; [exact Hv|].
  assert (connections
            (manager (bot_run (join_execute demo_interaction (start None 0)).2
                        [])) !! 0
          = Some {| conn_guild := "guild"; conn_channel := "42";
                    status := Signalling; on_destroyed := [];
                    on_disconnected := []; on_speaking_start := [] |}) as H2
    by (vm_compute; reflexivity).
  destruct (Hready [] _ Hin H2 ltac:(discriminate))
    as (_ & rec & w & vc' & _ & _ & _ & Hrec & _).
  by exists rec.
Defined.

(** X18.  The leave command.  In any state the manager can be in, the
    command answers "Left", publicly, exactly when a connection was tracked
    for the guild, and "not in a voice channel", privately, otherwise; either
    way the guild then has no connection tracked and no recorder registered,
    and every recorder of the guild is destroyed, with no speaker and no
    timer left. *)
Theorem leave_command_outcome (b : Bot) (i : Interaction) :
  bot_reachable b ->
  let r := leave_execute i (manager b) in
  let g := guild_id i in
  (content r.1 = LeftChannel <-> is_Some (voiceConnections (manager b) !! g))
  /\ (content r.1 = NotInVoiceChannel <-> voiceConnections (manager b) !! g = None)
  /\ (ephemeral r.1 = false <-> content r.1 = LeftChannel)
  /\ (content r.1 = NotInVoiceChannel -> r.2 = manager b)
  /\ voiceConnections r.2 !! g = None /\ recorders r.2 !! g = None
  /\ (forall rec w, recs r.2 !! rec = Some w -> guildId w = g ->
        destroyed w = true /\ users w = [] /\ timers w = []).
Proof.
  intros Hreach r g. pose proof (bot_reachable_consistent b Hreach) as Hb.
  destruct (leave_fields b g Hb) as (Hb' & E0 & E1 & E2 & _).
  assert (r.2 = (leaveVoiceChannel g (manager b)).2) as Hst.
  { unfold r, leave_execute. fold g.
    by destruct (leaveVoiceChannel g (manager b)) as [[|] st']. }
  assert (r.1 = if (leaveVoiceChannel g (manager b)).1
                then mkReply LeftChannel false
                else mkReply NotInVoiceChannel true) as Hre.
  { unfold r, leave_execute. fold g.
    by destruct (leaveVoiceChannel g (manager b)) as [[|] st']. }
  rewrite Hst, Hre, E0.
  assert (voiceConnections (leaveVoiceChannel g (manager b)).2 !! g = None)
    as Hv' by (rewrite E1; apply lookup_delete_eq).
  assert (recorders (leaveVoiceChannel g (manager b)).2 !! g = None)
    as Hr' by (rewrite E2; apply lookup_delete_eq).
  assert (forall rec w,
            recs (leaveVoiceChannel g (manager b)).2 !! rec = Some w ->
            guildId w = g ->
            destroyed w = true /\ users w = [] /\ timers w = []) as Hdead.
  { intros rec w Hw Hgw. exact (guild_without_entry _ g rec w Hb' Hr' Hw Hgw). }
  destruct (voiceConnections (manager b) !! g) as [c|] eqn:Hv.
  - rewrite bool_decide_eq_true_2 by eauto. cbn [content ephemeral].
    split; [split; [eauto|done]|]. split; [split; done|].
    split; [done|]. split; [done|]. done.
  - rewrite bool_decide_eq_false_2 by (by intros [? ?]). cbn [content ephemeral].
    split; [split; [done|by intros [? ?]]|]. split; [done|].
    split; [done|]. split; [|done].
    intros _. unfold leaveVoiceChannel, getVoiceConnection. by rewrite Hv.
Qed.

Lemma leave_command_outcome_witness :
  content (leave_execute demo_interaction (manager demo_bot)).1 = LeftChannel
  <-> is_Some (voiceConnections (manager demo_bot) !! guild_id demo_interaction).
Proof.
  exact (proj1 (leave_command_outcome demo_bot demo_interaction
                  demo_bot_reachable)).
Defined.

End CommandFacts.
